(** * The scheduler of react-wisdom-codebase: min-heap, work loop and API

    A shallow embedding of [packages/scheduler/src/SchedulerMinHeap.js],
    [packages/scheduler/src/SchedulerFeatureFlags.js] and
    [packages/scheduler/src/forks/Scheduler.js], followed by the properties
    the specification states about them.

    Conventions.
    - JS numbers that carry times, ids and sort indices are integers ([Z]);
      array indices and lengths are [nat]. The frame rate that user code
      passes to [forceFrameRate] is a whole number; [forceFrameRateQ] is
      the same function on fractions.
    - The clock moves when user code works and when the host lets time
      pass; the statements of the scheduler itself take no time, so that
      two reads of the clock in one call of the scheduler give the same
      time.
    - Task records are JS objects that are shared by reference between the
      two queues, the [currentTask] variable and the handles the caller
      keeps. They live in a store indexed by references ([ref]); the queues
      hold references. *)

From Stdlib Require Import ZArith QArith Qround Lia Zify ZifyNat Permutation.
From stdpp Require Import base tactics option list functions.

Local Open Scope Z_scope.

Ltac Zify.zify_post_hook ::= Z.to_euclidean_division_equations.

(** ** Values *)

(** Modelled from the spec: [SchedulerPriorities.js] is not among the
    sources. The spec names five variants (Immediate, UserBlocking, Normal,
    Low, Idle) that the [switch] statements tell apart; every other JS value
    passed as a priority level is [UnknownPriority]. *)
Inductive PriorityLevel : Type :=
| ImmediatePriority
| UserBlockingPriority
| NormalPriority
| LowPriority
| IdlePriority
| UnknownPriority (v : Z).

(** A reference to a task record. *)
Definition ref : Type := nat.

(** The [delay] property of an options object. *)
Inductive DelayValue : Type :=
| DelayNumber (ms : Z)       (* typeof delay === 'number' *)
| DelayNotNumber.            (* missing, or of another type *)

(** The third argument of [unstable_scheduleCallback]. *)
Inductive Options : Type :=
| OptionsUndefined           (* argument left out *)
| OptionsNull                (* typeof null === 'object', but it is null *)
| OptionsNotObject           (* a number, a string, ... *)
| OptionsObject (delay : DelayValue).

(** ** User code

    Callbacks and event handlers are user code. What the scheduler can
    observe of user code is the sequence of calls it makes into the public
    API, the time it takes, and how it completes: by returning a function (a
    continuation), by returning something else, or by throwing. [Prog] is
    that view: each constructor other than the three completions is one API
    call (or a stretch of work), followed by the rest of the code, which
    receives the call's result. A callback is a [bool -> Prog]: it receives
    [didTimeout]. *)
Inductive Prog : Type :=
| Return                                   (* completes with a non-function value *)
| ReturnFunction (f : bool -> Prog)        (* completes with a function *)
| Throw                                    (* completes by throwing *)
| Work (ms : nat) (k : Prog)               (* computes for [ms] milliseconds *)
| ScheduleCallback (priorityLevel : PriorityLevel) (callback : bool -> Prog)
                   (options : Options) (k : ref -> Prog)
| ScheduleNonFunction (priorityLevel : PriorityLevel) (isNull : bool)
                      (options : Options) (k : ref -> Prog)
| CancelCallback (task : ref) (k : Prog)
| RunWithPriority (priorityLevel : PriorityLevel) (eventHandler : Prog) (k : Prog)
| Next (eventHandler : Prog) (k : Prog)
| CallWrapped (parentPriorityLevel : PriorityLevel) (callback : Prog) (k : Prog)
| PauseExecution (k : Prog)
| ContinueExecution (k : Prog)
| GetFirstCallbackNode (k : option ref -> Prog)
| GetCurrentPriorityLevel (k : PriorityLevel -> Prog)
| ShouldYield (k : bool -> Prog)
| RequestPaint (k : Prog)
| Now (k : Z -> Prog)
| ForceFrameRate (fps : Z) (k : Prog).

(** The [callback] field of a task record. *)
Inductive CallbackSlot : Type :=
| CNull                                    (* null: cancelled, or being run *)
| CFunction (f : bool -> Prog)
| COther.                                  (* neither null nor a function *)

Definition isFunction (c : CallbackSlot) : bool :=
  match c with CFunction _ => true | _ => false end.

(** ** Task records and the store *)

Record Task : Type := mkTask {
  id : Z;
  callback : CallbackSlot;
  priorityLevel : PriorityLevel;
  startTime : Z;
  expirationTime : Z;
  sortIndex : Z
}.

Definition set_callback (c : CallbackSlot) (t : Task) : Task :=
  mkTask (id t) c (priorityLevel t) (startTime t) (expirationTime t) (sortIndex t).

Definition set_sortIndex (v : Z) (t : Task) : Task :=
  mkTask (id t) (callback t) (priorityLevel t) (startTime t) (expirationTime t) v.

Definition Store : Type := ref -> Task.

(** ** SchedulerMinHeap.js *)

Module MinHeap.
Section WithStore.

(** The task records the entries of the array point to. The heap
    functions only read them. *)
Variable sigma : Store.

(** [compare(a, b)] *)
Definition compare (a b : ref) : Z :=
  let diff := sortIndex (sigma a) - sortIndex (sigma b) in
  if negb (diff =? 0) then diff else id (sigma a) - id (sigma b).

(** [siftUp(heap, node, i)]. The loop runs while [index > 0] and each turn
    replaces [index] by [(index - 1) >>> 1], which is smaller, so [i]
    turns are enough ([siftUp_loop_fuel]). Array indices are below 2^32,
    where [>>> 1] is division by two. *)
Fixpoint siftUp_loop (fuel : nat) (heap : list ref) (node : ref) (index : nat)
  : list ref :=
  match fuel with
  | O => heap
  | S fuel' =>
      if (0 <? index)%nat then
        let parentIndex := Nat.shiftr (index - 1) 1 in
        let parent := heap !!! parentIndex in
        if 0 <? compare parent node then
          siftUp_loop fuel' (<[index := parent]> (<[parentIndex := node]> heap))
                      node parentIndex
        else heap
      else heap
  end.

Definition siftUp (heap : list ref) (node : ref) (i : nat) : list ref :=
  siftUp_loop i heap node i.

(** [siftDown(heap, node, i)]. [length] is read once, and the writes of the
    loop keep it. [index] grows on each turn and the loop stops once it
    reaches [halfLength], so [length] turns are enough
    ([siftDown_loop_fuel]). [heap[rightIndex]] is read before the bound
    check and is [undefined] when [rightIndex = length]; it is only used
    behind [rightIndex < length]. *)
Fixpoint siftDown_loop (fuel : nat) (heap : list ref) (node : ref) (index : nat)
  : list ref :=
  let length := length heap in
  let halfLength := Nat.shiftr length 1 in
  match fuel with
  | O => heap
  | S fuel' =>
      if (index <? halfLength)%nat then
        let leftIndex := ((index + 1) * 2 - 1)%nat in
        let left := heap !!! leftIndex in
        let rightIndex := (leftIndex + 1)%nat in
        let right := heap !!! rightIndex in
        if compare left node <? 0 then
          if (rightIndex <? length)%nat && (compare right left <? 0) then
            siftDown_loop fuel' (<[rightIndex := node]> (<[index := right]> heap))
                          node rightIndex
          else
            siftDown_loop fuel' (<[leftIndex := node]> (<[index := left]> heap))
                          node leftIndex
        else if (rightIndex <? length)%nat && (compare right node <? 0) then
          siftDown_loop fuel' (<[rightIndex := node]> (<[index := right]> heap))
                        node rightIndex
        else heap
      else heap
  end.

Definition siftDown (heap : list ref) (node : ref) (i : nat) : list ref :=
  siftDown_loop (length heap) heap node i.

(** [push(heap, node)] *)
Definition push (heap : list ref) (node : ref) : list ref :=
  let index := length heap in
  siftUp (heap ++ [node]) node index.

(** [peek(heap)]; [None] is [null]. *)
Definition peek (heap : list ref) : option ref :=
  match heap with
  | [] => None
  | first :: _ => Some first
  end.

(** [pop(heap)]: the value returned and the array afterwards.
    [last !== first] compares references. *)
Definition pop (heap : list ref) : option ref * list ref :=
  match heap with
  | [] => (None, [])
  | first :: _ =>
      let last := List.last heap first in
      let heap' := removelast heap in
      if negb (last =? first)%nat then
        (Some first, siftDown (<[0%nat := last]> heap') last 0)
      else (Some first, heap')
  end.

(** *** The order *)

(** [a] is before [b]. *)
Definition before (a b : ref) : Prop :=
  sortIndex (sigma a) < sortIndex (sigma b)
  \/ (sortIndex (sigma a) = sortIndex (sigma b) /\ id (sigma a) < id (sigma b)).

(** [b] is not before [a]. *)
Definition notAfter (a b : ref) : Prop := compare a b <= 0.

(** Every entry other than the root is not before its parent. *)
Definition heap_ordered (heap : list ref) : Prop :=
  forall i : nat, (0 < i < length heap)%nat ->
    notAfter (heap !!! ((i - 1) / 2)%nat) (heap !!! i).

(** The heap order with one entry on its way up: every entry other than
    the one at [k] is not before its parent, and the children of [k] are
    not before the parent of [k]. *)
Definition up_ordered (heap : list ref) (k : nat) : Prop :=
  (forall i : nat, (0 < i < length heap)%nat -> i <> k ->
     notAfter (heap !!! ((i - 1) / 2)%nat) (heap !!! i))
  /\ (forall i : nat, (0 < i < length heap)%nat -> ((i - 1) / 2)%nat = k ->
        (0 < k)%nat -> notAfter (heap !!! ((k - 1) / 2)%nat) (heap !!! i)).

(** The heap order with one entry on its way down: every entry whose parent
    is not at [k] is not before its parent, and the children of [k] are not
    before the parent of [k]. *)
Definition down_ordered (heap : list ref) (k : nat) : Prop :=
  (forall i : nat, (0 < i < length heap)%nat -> ((i - 1) / 2)%nat <> k ->
     notAfter (heap !!! ((i - 1) / 2)%nat) (heap !!! i))
  /\ (forall i : nat, (0 < i < length heap)%nat -> ((i - 1) / 2)%nat = k ->
        (0 < k)%nat -> notAfter (heap !!! ((k - 1) / 2)%nat) (heap !!! i)).

End WithStore.
End MinHeap.

(** ** SchedulerFeatureFlags.js *)

Definition enableSchedulerDebugging : bool := false.
Definition enableIsInputPending : bool := false.
Definition enableProfiling : bool := false.
Definition enableIsInputPendingContinuous : bool := false.
Definition frameYieldMs : Z := 5.
Definition continuousYieldMs : Z := 50.
Definition maxYieldMs : Z := 300.

(** ** Scheduler.js: constants and module state *)

Definition maxSigned31BitInt : Z := 1073741823.

Definition IMMEDIATE_PRIORITY_TIMEOUT : Z := -1.
Definition USER_BLOCKING_PRIORITY_TIMEOUT : Z := 250.
Definition NORMAL_PRIORITY_TIMEOUT : Z := 5000.
Definition LOW_PRIORITY_TIMEOUT : Z := 10000.
Definition IDLE_PRIORITY_TIMEOUT : Z := maxSigned31BitInt.

Definition continuousInputInterval : Z := continuousYieldMs.
Definition maxInterval : Z := maxYieldMs.

(** What the scheduler does that can be observed from outside: the
    callbacks it calls, the API calls it receives and its requests to the
    host. *)
Inductive Event : Type :=
| EvCallback (task : ref) (didTimeout : bool)   (* workLoop calls the task's callback *)
| EvSchedule (task : ref)                       (* unstable_scheduleCallback creates the task *)
| EvCancel (task : ref)                         (* unstable_cancelCallback(task) *)
| EvRequestHostCallback
| EvRequestHostTimeout (ms : Z)
| EvCancelHostTimeout
| EvConsoleError.

(** What the queues and the task records looked like just before an
    event. *)
Record Snapshot : Type := mkSnapshot {
  snap_taskQueue : list ref;
  snap_timerQueue : list ref;
  snap_store : Store;
  snap_currentTask : option ref;
  snap_nextRef : ref
}.

(** The module-level variables of [Scheduler.js], the host they talk to,
    and a history.
    - [store] holds the task records and [nextRef] is the next free
      reference.
    - [frameStartTime] is the module variable [startTime] (the name is taken
      by the task field).
    - [scheduledHostCallback] is [true] when the variable holds [flushWork],
      the only function ever stored in it, and [false] when it is [null].
    - [now] is the host clock that [getCurrentTime()] reads; [messages]
      counts the posted messages that [schedulePerformWorkUntilDeadline]
      has sent and the host has not delivered; [timeouts] are the timers
      set with [localSetTimeout] and not fired or cleared, as (id, delay),
      and [nextTimeoutID] is the id the host hands out next.
    - [inputPending] is [None] when [navigator.scheduling.isInputPending]
      does not exist, else what it answers for discrete and for continuous
      input.
    - [log] is a history variable, newest entry first. The scheduler has
      no such variable and never reads it. *)
Record State : Type := mkState {
  store : Store;
  nextRef : ref;
  taskQueue : list ref;
  timerQueue : list ref;
  taskIdCounter : Z;
  isSchedulerPaused : bool;
  currentTask : option ref;
  currentPriorityLevel : PriorityLevel;
  isPerformingWork : bool;
  isHostCallbackScheduled : bool;
  isHostTimeoutScheduled : bool;
  isMessageLoopRunning : bool;
  scheduledHostCallback : bool;
  taskTimeoutID : Z;
  frameInterval : Z;
  frameStartTime : Z;
  needsPaint : bool;
  now : Z;
  messages : nat;
  timeouts : list (Z * Z);
  nextTimeoutID : Z;
  inputPending : option (bool * bool);
  log : list (Event * Snapshot)
}.

Definition set_store (v : Store) (s : State) : State :=
  mkState v (nextRef s) (taskQueue s) (timerQueue s) (taskIdCounter s)
    (isSchedulerPaused s) (currentTask s) (currentPriorityLevel s)
    (isPerformingWork s) (isHostCallbackScheduled s) (isHostTimeoutScheduled s)
    (isMessageLoopRunning s) (scheduledHostCallback s) (taskTimeoutID s)
    (frameInterval s) (frameStartTime s) (needsPaint s) (now s) (messages s)
    (timeouts s) (nextTimeoutID s) (inputPending s) (log s).

Definition set_nextRef (v : ref) (s : State) : State :=
  mkState (store s) v (taskQueue s) (timerQueue s) (taskIdCounter s)
    (isSchedulerPaused s) (currentTask s) (currentPriorityLevel s)
    (isPerformingWork s) (isHostCallbackScheduled s) (isHostTimeoutScheduled s)
    (isMessageLoopRunning s) (scheduledHostCallback s) (taskTimeoutID s)
    (frameInterval s) (frameStartTime s) (needsPaint s) (now s) (messages s)
    (timeouts s) (nextTimeoutID s) (inputPending s) (log s).

Definition set_taskQueue (v : list ref) (s : State) : State :=
  mkState (store s) (nextRef s) v (timerQueue s) (taskIdCounter s)
    (isSchedulerPaused s) (currentTask s) (currentPriorityLevel s)
    (isPerformingWork s) (isHostCallbackScheduled s) (isHostTimeoutScheduled s)
    (isMessageLoopRunning s) (scheduledHostCallback s) (taskTimeoutID s)
    (frameInterval s) (frameStartTime s) (needsPaint s) (now s) (messages s)
    (timeouts s) (nextTimeoutID s) (inputPending s) (log s).

Definition set_timerQueue (v : list ref) (s : State) : State :=
  mkState (store s) (nextRef s) (taskQueue s) v (taskIdCounter s)
    (isSchedulerPaused s) (currentTask s) (currentPriorityLevel s)
    (isPerformingWork s) (isHostCallbackScheduled s) (isHostTimeoutScheduled s)
    (isMessageLoopRunning s) (scheduledHostCallback s) (taskTimeoutID s)
    (frameInterval s) (frameStartTime s) (needsPaint s) (now s) (messages s)
    (timeouts s) (nextTimeoutID s) (inputPending s) (log s).

Definition set_taskIdCounter (v : Z) (s : State) : State :=
  mkState (store s) (nextRef s) (taskQueue s) (timerQueue s) v
    (isSchedulerPaused s) (currentTask s) (currentPriorityLevel s)
    (isPerformingWork s) (isHostCallbackScheduled s) (isHostTimeoutScheduled s)
    (isMessageLoopRunning s) (scheduledHostCallback s) (taskTimeoutID s)
    (frameInterval s) (frameStartTime s) (needsPaint s) (now s) (messages s)
    (timeouts s) (nextTimeoutID s) (inputPending s) (log s).

Definition set_isSchedulerPaused (v : bool) (s : State) : State :=
  mkState (store s) (nextRef s) (taskQueue s) (timerQueue s) (taskIdCounter s)
    v (currentTask s) (currentPriorityLevel s) (isPerformingWork s)
    (isHostCallbackScheduled s) (isHostTimeoutScheduled s) (isMessageLoopRunning
    s) (scheduledHostCallback s) (taskTimeoutID s) (frameInterval s)
    (frameStartTime s) (needsPaint s) (now s) (messages s) (timeouts s)
    (nextTimeoutID s) (inputPending s) (log s).

Definition set_currentTask (v : option ref) (s : State) : State :=
  mkState (store s) (nextRef s) (taskQueue s) (timerQueue s) (taskIdCounter s)
    (isSchedulerPaused s) v (currentPriorityLevel s) (isPerformingWork s)
    (isHostCallbackScheduled s) (isHostTimeoutScheduled s) (isMessageLoopRunning
    s) (scheduledHostCallback s) (taskTimeoutID s) (frameInterval s)
    (frameStartTime s) (needsPaint s) (now s) (messages s) (timeouts s)
    (nextTimeoutID s) (inputPending s) (log s).

Definition set_currentPriorityLevel (v : PriorityLevel) (s : State) : State :=
  mkState (store s) (nextRef s) (taskQueue s) (timerQueue s) (taskIdCounter s)
    (isSchedulerPaused s) (currentTask s) v (isPerformingWork s)
    (isHostCallbackScheduled s) (isHostTimeoutScheduled s) (isMessageLoopRunning
    s) (scheduledHostCallback s) (taskTimeoutID s) (frameInterval s)
    (frameStartTime s) (needsPaint s) (now s) (messages s) (timeouts s)
    (nextTimeoutID s) (inputPending s) (log s).

Definition set_isPerformingWork (v : bool) (s : State) : State :=
  mkState (store s) (nextRef s) (taskQueue s) (timerQueue s) (taskIdCounter s)
    (isSchedulerPaused s) (currentTask s) (currentPriorityLevel s) v
    (isHostCallbackScheduled s) (isHostTimeoutScheduled s) (isMessageLoopRunning
    s) (scheduledHostCallback s) (taskTimeoutID s) (frameInterval s)
    (frameStartTime s) (needsPaint s) (now s) (messages s) (timeouts s)
    (nextTimeoutID s) (inputPending s) (log s).

Definition set_isHostCallbackScheduled (v : bool) (s : State) : State :=
  mkState (store s) (nextRef s) (taskQueue s) (timerQueue s) (taskIdCounter s)
    (isSchedulerPaused s) (currentTask s) (currentPriorityLevel s)
    (isPerformingWork s) v (isHostTimeoutScheduled s) (isMessageLoopRunning s)
    (scheduledHostCallback s) (taskTimeoutID s) (frameInterval s)
    (frameStartTime s) (needsPaint s) (now s) (messages s) (timeouts s)
    (nextTimeoutID s) (inputPending s) (log s).

Definition set_isHostTimeoutScheduled (v : bool) (s : State) : State :=
  mkState (store s) (nextRef s) (taskQueue s) (timerQueue s) (taskIdCounter s)
    (isSchedulerPaused s) (currentTask s) (currentPriorityLevel s)
    (isPerformingWork s) (isHostCallbackScheduled s) v (isMessageLoopRunning s)
    (scheduledHostCallback s) (taskTimeoutID s) (frameInterval s)
    (frameStartTime s) (needsPaint s) (now s) (messages s) (timeouts s)
    (nextTimeoutID s) (inputPending s) (log s).

Definition set_isMessageLoopRunning (v : bool) (s : State) : State :=
  mkState (store s) (nextRef s) (taskQueue s) (timerQueue s) (taskIdCounter s)
    (isSchedulerPaused s) (currentTask s) (currentPriorityLevel s)
    (isPerformingWork s) (isHostCallbackScheduled s) (isHostTimeoutScheduled s)
    v (scheduledHostCallback s) (taskTimeoutID s) (frameInterval s)
    (frameStartTime s) (needsPaint s) (now s) (messages s) (timeouts s)
    (nextTimeoutID s) (inputPending s) (log s).

Definition set_scheduledHostCallback (v : bool) (s : State) : State :=
  mkState (store s) (nextRef s) (taskQueue s) (timerQueue s) (taskIdCounter s)
    (isSchedulerPaused s) (currentTask s) (currentPriorityLevel s)
    (isPerformingWork s) (isHostCallbackScheduled s) (isHostTimeoutScheduled s)
    (isMessageLoopRunning s) v (taskTimeoutID s) (frameInterval s)
    (frameStartTime s) (needsPaint s) (now s) (messages s) (timeouts s)
    (nextTimeoutID s) (inputPending s) (log s).

Definition set_taskTimeoutID (v : Z) (s : State) : State :=
  mkState (store s) (nextRef s) (taskQueue s) (timerQueue s) (taskIdCounter s)
    (isSchedulerPaused s) (currentTask s) (currentPriorityLevel s)
    (isPerformingWork s) (isHostCallbackScheduled s) (isHostTimeoutScheduled s)
    (isMessageLoopRunning s) (scheduledHostCallback s) v (frameInterval s)
    (frameStartTime s) (needsPaint s) (now s) (messages s) (timeouts s)
    (nextTimeoutID s) (inputPending s) (log s).

Definition set_frameInterval (v : Z) (s : State) : State :=
  mkState (store s) (nextRef s) (taskQueue s) (timerQueue s) (taskIdCounter s)
    (isSchedulerPaused s) (currentTask s) (currentPriorityLevel s)
    (isPerformingWork s) (isHostCallbackScheduled s) (isHostTimeoutScheduled s)
    (isMessageLoopRunning s) (scheduledHostCallback s) (taskTimeoutID s) v
    (frameStartTime s) (needsPaint s) (now s) (messages s) (timeouts s)
    (nextTimeoutID s) (inputPending s) (log s).

Definition set_frameStartTime (v : Z) (s : State) : State :=
  mkState (store s) (nextRef s) (taskQueue s) (timerQueue s) (taskIdCounter s)
    (isSchedulerPaused s) (currentTask s) (currentPriorityLevel s)
    (isPerformingWork s) (isHostCallbackScheduled s) (isHostTimeoutScheduled s)
    (isMessageLoopRunning s) (scheduledHostCallback s) (taskTimeoutID s)
    (frameInterval s) v (needsPaint s) (now s) (messages s) (timeouts s)
    (nextTimeoutID s) (inputPending s) (log s).

Definition set_needsPaint (v : bool) (s : State) : State :=
  mkState (store s) (nextRef s) (taskQueue s) (timerQueue s) (taskIdCounter s)
    (isSchedulerPaused s) (currentTask s) (currentPriorityLevel s)
    (isPerformingWork s) (isHostCallbackScheduled s) (isHostTimeoutScheduled s)
    (isMessageLoopRunning s) (scheduledHostCallback s) (taskTimeoutID s)
    (frameInterval s) (frameStartTime s) v (now s) (messages s) (timeouts s)
    (nextTimeoutID s) (inputPending s) (log s).

Definition set_now (v : Z) (s : State) : State :=
  mkState (store s) (nextRef s) (taskQueue s) (timerQueue s) (taskIdCounter s)
    (isSchedulerPaused s) (currentTask s) (currentPriorityLevel s)
    (isPerformingWork s) (isHostCallbackScheduled s) (isHostTimeoutScheduled s)
    (isMessageLoopRunning s) (scheduledHostCallback s) (taskTimeoutID s)
    (frameInterval s) (frameStartTime s) (needsPaint s) v (messages s) (timeouts
    s) (nextTimeoutID s) (inputPending s) (log s).

Definition set_messages (v : nat) (s : State) : State :=
  mkState (store s) (nextRef s) (taskQueue s) (timerQueue s) (taskIdCounter s)
    (isSchedulerPaused s) (currentTask s) (currentPriorityLevel s)
    (isPerformingWork s) (isHostCallbackScheduled s) (isHostTimeoutScheduled s)
    (isMessageLoopRunning s) (scheduledHostCallback s) (taskTimeoutID s)
    (frameInterval s) (frameStartTime s) (needsPaint s) (now s) v (timeouts s)
    (nextTimeoutID s) (inputPending s) (log s).

Definition set_timeouts (v : list (Z * Z)) (s : State) : State :=
  mkState (store s) (nextRef s) (taskQueue s) (timerQueue s) (taskIdCounter s)
    (isSchedulerPaused s) (currentTask s) (currentPriorityLevel s)
    (isPerformingWork s) (isHostCallbackScheduled s) (isHostTimeoutScheduled s)
    (isMessageLoopRunning s) (scheduledHostCallback s) (taskTimeoutID s)
    (frameInterval s) (frameStartTime s) (needsPaint s) (now s) (messages s) v
    (nextTimeoutID s) (inputPending s) (log s).

Definition set_nextTimeoutID (v : Z) (s : State) : State :=
  mkState (store s) (nextRef s) (taskQueue s) (timerQueue s) (taskIdCounter s)
    (isSchedulerPaused s) (currentTask s) (currentPriorityLevel s)
    (isPerformingWork s) (isHostCallbackScheduled s) (isHostTimeoutScheduled s)
    (isMessageLoopRunning s) (scheduledHostCallback s) (taskTimeoutID s)
    (frameInterval s) (frameStartTime s) (needsPaint s) (now s) (messages s)
    (timeouts s) v (inputPending s) (log s).

Definition set_inputPending (v : option (bool * bool)) (s : State) : State :=
  mkState (store s) (nextRef s) (taskQueue s) (timerQueue s) (taskIdCounter s)
    (isSchedulerPaused s) (currentTask s) (currentPriorityLevel s)
    (isPerformingWork s) (isHostCallbackScheduled s) (isHostTimeoutScheduled s)
    (isMessageLoopRunning s) (scheduledHostCallback s) (taskTimeoutID s)
    (frameInterval s) (frameStartTime s) (needsPaint s) (now s) (messages s)
    (timeouts s) (nextTimeoutID s) v (log s).

Definition set_log (v : list (Event * Snapshot)) (s : State) : State :=
  mkState (store s) (nextRef s) (taskQueue s) (timerQueue s) (taskIdCounter s)
    (isSchedulerPaused s) (currentTask s) (currentPriorityLevel s)
    (isPerformingWork s) (isHostCallbackScheduled s) (isHostTimeoutScheduled s)
    (isMessageLoopRunning s) (scheduledHostCallback s) (taskTimeoutID s)
    (frameInterval s) (frameStartTime s) (needsPaint s) (now s) (messages s)
    (timeouts s) (nextTimeoutID s) (inputPending s) v.

Definition snapshot (s : State) : Snapshot :=
  mkSnapshot (taskQueue s) (timerQueue s) (store s) (currentTask s) (nextRef s).

(** Records an event in the history. *)
Definition emit (e : Event) (s : State) : State :=
  set_log ((e, snapshot s) :: log s) s.

(** [task.callback = c] *)
Definition write_callback (task : ref) (c : CallbackSlot) (s : State) : State :=
  set_store (<[task := set_callback c (store s task)]> (store s)) s.

(** [task.sortIndex = v] *)
Definition write_sortIndex (task : ref) (v : Z) (s : State) : State :=
  set_store (<[task := set_sortIndex v (store s task)]> (store s)) s.

(** [push(taskQueue, task)], [pop(taskQueue)] and the same for
    [timerQueue]; the arrays are mutated in place. *)
Definition push_taskQueue (task : ref) (s : State) : State :=
  set_taskQueue (MinHeap.push (store s) (taskQueue s) task) s.

Definition pop_taskQueue (s : State) : State :=
  set_taskQueue (MinHeap.pop (store s) (taskQueue s)).2 s.

Definition push_timerQueue (task : ref) (s : State) : State :=
  set_timerQueue (MinHeap.push (store s) (timerQueue s) task) s.

Definition pop_timerQueue (s : State) : State :=
  set_timerQueue (MinHeap.pop (store s) (timerQueue s)).2 s.

(** [getCurrentTime()]: reads the clock of the host, the field [now]. *)
Definition getCurrentTime (s : State) : Z := now s.

(** ** Scheduler.js: the host adapter *)

(** [schedulePerformWorkUntilDeadline()]: whichever of [setImmediate],
    [MessageChannel] and [setTimeout(_, 0)] the environment has, the call
    asks the host to run [performWorkUntilDeadline] in a later task. *)
Definition schedulePerformWorkUntilDeadline (s : State) : State :=
  set_messages (S (messages s)) s.

(** [requestHostCallback(flushWork)] *)
Definition requestHostCallback (s : State) : State :=
  let s := emit EvRequestHostCallback s in
  let s := set_scheduledHostCallback true s in
  if negb (isMessageLoopRunning s) then
    let s := set_isMessageLoopRunning true s in
    schedulePerformWorkUntilDeadline s
  else s.

(** [requestHostTimeout(handleTimeout, ms)] *)
Definition requestHostTimeout (ms : Z) (s : State) : State :=
  let s := emit (EvRequestHostTimeout ms) s in
  let timeoutID := nextTimeoutID s in
  let s := set_timeouts (timeouts s ++ [(timeoutID, ms)]) s in
  let s := set_nextTimeoutID (timeoutID + 1) s in
  set_taskTimeoutID timeoutID s.

(** [cancelHostTimeout()] *)
Definition cancelHostTimeout (s : State) : State :=
  let s := emit EvCancelHostTimeout s in
  let s := set_timeouts
             (filter (fun t => t.1 <> taskTimeoutID s) (timeouts s)) s in
  set_taskTimeoutID (-1) s.

(** ** Scheduler.js: timers *)

(** [advanceTimers(currentTime)]. Each turn of the loop that does not
    return pops [timerQueue], so as many turns as the queue is long are
    enough ([advanceTimers_loop_fuel]). The branches under [enableProfiling]
    call into [SchedulerProfiling.js] and are dead in this build. *)
Fixpoint advanceTimers_loop (fuel : nat) (currentTime : Z) (s : State) : State :=
  match fuel with
  | O => s
  | S fuel' =>
      match MinHeap.peek (timerQueue s) with
      | None => s
      | Some timer =>
          match callback (store s timer) with
          | CNull =>
              (* Timer was cancelled. *)
              advanceTimers_loop fuel' currentTime (pop_timerQueue s)
          | _ =>
              if startTime (store s timer) <=? currentTime then
                (* Timer fired. Transfer to the task queue. *)
                let s := pop_timerQueue s in
                let s := write_sortIndex timer (expirationTime (store s timer)) s in
                let s := push_taskQueue timer s in
                advanceTimers_loop fuel' currentTime s
              else
                (* Remaining timers are pending. *)
                s
          end
      end
  end.

Definition advanceTimers (currentTime : Z) (s : State) : State :=
  advanceTimers_loop (length (timerQueue s)) currentTime s.

(** [handleTimeout(currentTime)] *)
Definition handleTimeout (currentTime : Z) (s : State) : State :=
  let s := set_isHostTimeoutScheduled false s in
  let s := advanceTimers currentTime s in
  if negb (isHostCallbackScheduled s) then
    match MinHeap.peek (taskQueue s) with
    | Some _ =>
        let s := set_isHostCallbackScheduled true s in
        requestHostCallback s
    | None =>
        match MinHeap.peek (timerQueue s) with
        | Some firstTimer =>
            requestHostTimeout (startTime (store s firstTimer) - currentTime) s
        | None => s
        end
    end
  else s.

(** ** Scheduler.js: yielding *)

(** [isInputPending()] and [isInputPending(continuousOptions)], for a state
    where the function exists. *)
Definition isInputPending (includeContinuous : bool) (answers : bool * bool) : bool :=
  answers.1 || (includeContinuous && answers.2).

(** [shouldYieldToHost()] *)
Definition shouldYieldToHost (s : State) : bool :=
  let timeElapsed := getCurrentTime s - frameStartTime s in
  if timeElapsed <? frameInterval s then false
  else if enableIsInputPending then
    if needsPaint s then true
    else if timeElapsed <? continuousInputInterval then
      match inputPending s with
      | Some answers => isInputPending false answers
      | None => true
      end
    else if timeElapsed <? maxInterval then
      match inputPending s with
      | Some answers => isInputPending enableIsInputPendingContinuous answers
      | None => true
      end
    else true
  else true.

(** [requestPaint()] *)
Definition requestPaint (s : State) : State :=
  if enableIsInputPending && bool_decide (is_Some (inputPending s))
  then set_needsPaint true s
  else s.

(** [forceFrameRate(fps)], for a whole number [fps] *)
Definition forceFrameRate (fps : Z) (s : State) : State :=
  if (fps <? 0) || (fps >? 125) then
    emit EvConsoleError s
  else if fps >? 0 then
    set_frameInterval (1000 / fps) s
  else
    set_frameInterval frameYieldMs s.

(** ** Scheduler.js: the public API *)

(** How a piece of user code completes. *)
Inductive Value : Type :=
| VFunction (f : bool -> Prog)
| VOther.

Inductive Completion : Type :=
| Normal (v : Value)
| Abrupt.

(** [unstable_scheduleCallback(priorityLevel, callback, options)], in the
    parts it is made of. First the computation of [startTime] from
    [options]. *)
Definition schedule_startTime (options : Options) (currentTime : Z) : Z :=
  match options with
  | OptionsObject (DelayNumber delay) =>
      if delay >? 0 then currentTime + delay else currentTime
  | OptionsObject DelayNotNumber => currentTime
  | _ => currentTime
  end.

(** The [switch] that computes [timeout]. *)
Definition schedule_timeout (priorityLevel : PriorityLevel) : Z :=
  match priorityLevel with
  | ImmediatePriority => IMMEDIATE_PRIORITY_TIMEOUT
  | UserBlockingPriority => USER_BLOCKING_PRIORITY_TIMEOUT
  | IdlePriority => IDLE_PRIORITY_TIMEOUT
  | LowPriority => LOW_PRIORITY_TIMEOUT
  | _ => NORMAL_PRIORITY_TIMEOUT
  end.

(** The object literal [newTask = {id: taskIdCounter++, ...}]: a new
    record in the store, at the next free reference. *)
Definition schedule_newTask (priorityLevel : PriorityLevel) (callback : CallbackSlot)
    (startTime expirationTime : Z) (s : State) : State :=
  let newTask := nextRef s in
  let s := set_store (<[newTask := mkTask (taskIdCounter s) callback priorityLevel
                                          startTime expirationTime (-1)]> (store s)) s in
  let s := set_nextRef (S newTask) s in
  set_taskIdCounter (taskIdCounter s + 1) s.

(** The branch [if (startTime > currentTime)]: this is a delayed task. *)
Definition schedule_delayed (newTask : ref) (startTime currentTime : Z) (s : State)
  : State :=
  let s := write_sortIndex newTask startTime s in
  let s := push_timerQueue newTask s in
  if bool_decide (MinHeap.peek (taskQueue s) = None)
     && bool_decide (MinHeap.peek (timerQueue s) = Some newTask) then
    (* All tasks are delayed, and this is the task with the earliest delay. *)
    let s := if isHostTimeoutScheduled s
             then (* Cancel an existing timeout. *) cancelHostTimeout s
             else set_isHostTimeoutScheduled true s in
    (* Schedule a timeout. *)
    requestHostTimeout (startTime - currentTime) s
  else s.

(** The [else] branch. *)
Definition schedule_immediate (newTask : ref) (expirationTime : Z) (s : State)
  : State :=
  let s := write_sortIndex newTask expirationTime s in
  let s := push_taskQueue newTask s in
  (* Schedule a host callback, if needed. If we're already performing work,
     wait until the next time we yield. *)
  if negb (isHostCallbackScheduled s) && negb (isPerformingWork s) then
    let s := set_isHostCallbackScheduled true s in
    requestHostCallback s
  else s.

(** The whole function: the reference to the new task record, which is
    what it returns, and the state afterwards. *)
Definition unstable_scheduleCallback (priorityLevel : PriorityLevel)
    (callback : CallbackSlot) (options : Options) (s : State) : ref * State :=
  let currentTime := getCurrentTime s in
  let startTime := schedule_startTime options currentTime in
  let timeout := schedule_timeout priorityLevel in
  let expirationTime := startTime + timeout in
  let s := emit (EvSchedule (nextRef s)) s in
  let newTask := nextRef s in
  let s := schedule_newTask priorityLevel callback startTime expirationTime s in
  if startTime >? currentTime then
    (newTask, schedule_delayed newTask startTime currentTime s)
  else
    (newTask, schedule_immediate newTask expirationTime s).

(** [unstable_cancelCallback(task)] *)
Definition unstable_cancelCallback (task : ref) (s : State) : State :=
  let s := emit (EvCancel task) s in
  write_callback task CNull s.

(** [unstable_pauseExecution()] *)
Definition unstable_pauseExecution (s : State) : State :=
  set_isSchedulerPaused true s.

(** [unstable_continueExecution()] *)
Definition unstable_continueExecution (s : State) : State :=
  let s := set_isSchedulerPaused false s in
  if negb (isHostCallbackScheduled s) && negb (isPerformingWork s) then
    let s := set_isHostCallbackScheduled true s in
    requestHostCallback s
  else s.

(** [unstable_getFirstCallbackNode()] *)
Definition unstable_getFirstCallbackNode (s : State) : option ref :=
  MinHeap.peek (taskQueue s).

(** [unstable_getCurrentPriorityLevel()] *)
Definition unstable_getCurrentPriorityLevel (s : State) : PriorityLevel :=
  currentPriorityLevel s.

(** [try { return eventHandler(); } finally { currentPriorityLevel =
    previousPriorityLevel; }], shared by the three functions below. *)
Definition try_finally_restore (previousPriorityLevel : PriorityLevel)
    (eventHandler : State -> Completion * State) (s : State) : Completion * State :=
  let '(c, s) := eventHandler s in
  (c, set_currentPriorityLevel previousPriorityLevel s).

(** [unstable_runWithPriority(priorityLevel, eventHandler)] *)
Definition unstable_runWithPriority (priorityLevel : PriorityLevel)
    (eventHandler : State -> Completion * State) (s : State) : Completion * State :=
  let priorityLevel :=
    match priorityLevel with
    | ImmediatePriority | UserBlockingPriority | NormalPriority
    | LowPriority | IdlePriority => priorityLevel
    | _ => NormalPriority
    end in
  let previousPriorityLevel := currentPriorityLevel s in
  let s := set_currentPriorityLevel priorityLevel s in
  try_finally_restore previousPriorityLevel eventHandler s.

(** [unstable_next(eventHandler)] *)
Definition unstable_next (eventHandler : State -> Completion * State) (s : State)
  : Completion * State :=
  let priorityLevel :=
    match currentPriorityLevel s with
    | ImmediatePriority | UserBlockingPriority | NormalPriority =>
        (* Shift down to normal priority *)
        NormalPriority
    | _ =>
        (* Anything lower than normal priority should remain at the current level. *)
        currentPriorityLevel s
    end in
  let previousPriorityLevel := currentPriorityLevel s in
  let s := set_currentPriorityLevel priorityLevel s in
  try_finally_restore previousPriorityLevel eventHandler s.

(** [unstable_wrapCallback(callback)]: the function it returns. *)
Definition unstable_wrapCallback (callback : State -> Completion * State) (s : State)
  : State -> Completion * State :=
  let parentPriorityLevel := currentPriorityLevel s in
  fun s' =>
    let previousPriorityLevel := currentPriorityLevel s' in
    let s' := set_currentPriorityLevel parentPriorityLevel s' in
    try_finally_restore previousPriorityLevel callback s'.

(** ** Running user code *)

(** [run p s] executes user code from state [s]. [CallWrapped parent
    callback] calls a function that [unstable_wrapCallback(callback)]
    returned when the priority level was [parent]. When an event handler
    throws, so does the API call that ran it, and the code after the call
    is skipped. *)
Fixpoint run (p : Prog) (s : State) : Completion * State :=
  match p with
  | Return => (Normal VOther, s)
  | ReturnFunction f => (Normal (VFunction f), s)
  | Throw => (Abrupt, s)
  | Work ms k => run k (set_now (now s + Z.of_nat ms) s)
  | ScheduleCallback priorityLevel callback options k =>
      let '(task, s) :=
        unstable_scheduleCallback priorityLevel (CFunction callback) options s in
      run (k task) s
  | ScheduleNonFunction priorityLevel isNull options k =>
      let '(task, s) :=
        unstable_scheduleCallback priorityLevel (if isNull then CNull else COther)
                                  options s in
      run (k task) s
  | CancelCallback task k => run k (unstable_cancelCallback task s)
  | RunWithPriority priorityLevel eventHandler k =>
      match unstable_runWithPriority priorityLevel (run eventHandler) s with
      | (Normal _, s) => run k s
      | (Abrupt, s) => (Abrupt, s)
      end
  | Next eventHandler k =>
      match unstable_next (run eventHandler) s with
      | (Normal _, s) => run k s
      | (Abrupt, s) => (Abrupt, s)
      end
  | CallWrapped parentPriorityLevel callback k =>
      match unstable_wrapCallback (run callback)
              (set_currentPriorityLevel parentPriorityLevel s) s with
      | (Normal _, s) => run k s
      | (Abrupt, s) => (Abrupt, s)
      end
  | PauseExecution k => run k (unstable_pauseExecution s)
  | ContinueExecution k => run k (unstable_continueExecution s)
  | GetFirstCallbackNode k => run (k (unstable_getFirstCallbackNode s)) s
  | GetCurrentPriorityLevel k => run (k (unstable_getCurrentPriorityLevel s)) s
  | ShouldYield k => run (k (shouldYieldToHost s)) s
  | RequestPaint k => run k (requestPaint s)
  | Now k => run (k (getCurrentTime s)) s
  | ForceFrameRate fps k => run k (forceFrameRate fps s)
  end.

(** ** Scheduler.js: the work loop *)

(** The test that makes the loop [break]: this task has not expired, and
    we have reached the deadline. *)
Definition reachedDeadline (task : ref) (hasTimeRemaining : bool)
    (currentTime : Z) (s : State) : bool :=
  (expirationTime (store s task) >? currentTime)
  && (negb hasTimeRemaining || shouldYieldToHost s).

(** One turn of the loop past that test. *)
Inductive Turn : Type :=
| TurnDone (currentTime : Z) (s : State)   (* the end of the loop body *)
| TurnThrow (s : State).                   (* the callback threw *)

(** The body of the [while] loop of [workLoop], after the deadline test,
    with [currentTask] holding [task]. User code cannot assign the module
    variable [currentTask], so it still holds [task] after the callback
    ([run_currentTask]). The last statement of the body,
    [currentTask = peek(taskQueue)], is included. *)
Definition workLoop_turn (task : ref) (currentTime : Z) (s : State) : Turn :=
  match callback (store s task) with
  | CFunction callback =>
      let s := emit (EvCallback task (expirationTime (store s task) <=? currentTime)) s in
      let s := write_callback task CNull s in
      let s := set_currentPriorityLevel (priorityLevel (store s task)) s in
      let didUserCallbackTimeout := expirationTime (store s task) <=? currentTime in
      match run (callback didUserCallbackTimeout) s with
      | (Abrupt, s) => TurnThrow s
      | (Normal continuationCallback, s) =>
          let currentTime := getCurrentTime s in
          let s :=
            match continuationCallback with
            | VFunction f => write_callback task (CFunction f) s
            | VOther =>
                if bool_decide (Some task = MinHeap.peek (taskQueue s))
                then pop_taskQueue s
                else s
            end in
          let s := advanceTimers currentTime s in
          TurnDone currentTime (set_currentTask (MinHeap.peek (taskQueue s)) s)
      end
  | _ =>
      let s := pop_taskQueue s in
      TurnDone currentTime (set_currentTask (MinHeap.peek (taskQueue s)) s)
  end.

(** How a call of [workLoop] or [flushWork] ends. *)
Inductive Outcome : Type :=
| Returned (hasMoreWork : bool) (s : State)
| Threw (s : State).

(** The code after the loop: return whether there's additional work. *)
Definition workLoop_exit (currentTime : Z) (s : State) : Outcome :=
  match currentTask s with
  | Some _ => Returned true s
  | None =>
      match MinHeap.peek (timerQueue s) with
      | Some firstTimer =>
          Returned false
            (requestHostTimeout (startTime (store s firstTimer) - currentTime) s)
      | None => Returned false s
      end
  end.

(** The [while] loop of [workLoop] and the code after it. The loop need not
    end (a callback may return a continuation every time), so the model
    counts the turns: [None] means that [fuel] turns were not enough. *)
Fixpoint workLoop_while (fuel : nat) (hasTimeRemaining : bool) (currentTime : Z)
    (s : State) : option Outcome :=
  match currentTask s with
  | Some task =>
      if negb (enableSchedulerDebugging && isSchedulerPaused s) then
        if reachedDeadline task hasTimeRemaining currentTime s then
          Some (workLoop_exit currentTime s)
        else
          match fuel with
          | O => None
          | S fuel' =>
              match workLoop_turn task currentTime s with
              | TurnDone currentTime s =>
                  workLoop_while fuel' hasTimeRemaining currentTime s
              | TurnThrow s => Some (Threw s)
              end
          end
      else Some (workLoop_exit currentTime s)
  | None => Some (workLoop_exit currentTime s)
  end.

(** [workLoop(hasTimeRemaining, initialTime)] *)
Definition workLoop (fuel : nat) (hasTimeRemaining : bool) (initialTime : Z)
    (s : State) : option Outcome :=
  let currentTime := initialTime in
  let s := advanceTimers currentTime s in
  let s := set_currentTask (MinHeap.peek (taskQueue s)) s in
  workLoop_while fuel hasTimeRemaining currentTime s.

(** The [finally] block of [flushWork]. *)
Definition flushWork_finally (previousPriorityLevel : PriorityLevel) (s : State)
  : State :=
  let s := set_currentTask None s in
  let s := set_currentPriorityLevel previousPriorityLevel s in
  set_isPerformingWork false s.

(** [flushWork(hasTimeRemaining, initialTime)], on the path without
    profiling. *)
Definition flushWork (fuel : nat) (hasTimeRemaining : bool) (initialTime : Z)
    (s : State) : option Outcome :=
  (* We'll need a host callback the next time work is scheduled. *)
  let s := set_isHostCallbackScheduled false s in
  let s :=
    if isHostTimeoutScheduled s then
      (* We scheduled a timeout but it's no longer needed. Cancel it. *)
      let s := set_isHostTimeoutScheduled false s in
      cancelHostTimeout s
    else s in
  let s := set_isPerformingWork true s in
  let previousPriorityLevel := currentPriorityLevel s in
  match workLoop fuel hasTimeRemaining initialTime s with
  | Some (Returned hasMoreWork s) =>
      Some (Returned hasMoreWork (flushWork_finally previousPriorityLevel s))
  | Some (Threw s) => Some (Threw (flushWork_finally previousPriorityLevel s))
  | None => None
  end.

(** [performWorkUntilDeadline()]. When [flushWork] throws, [hasMoreWork] is
    still [true], the [finally] block posts the next message, and the
    statement after the [try] is not reached. *)
Definition performWorkUntilDeadline (fuel : nat) (s : State) : option State :=
  if scheduledHostCallback s then
    let currentTime := getCurrentTime s in
    let s := set_frameStartTime currentTime s in
    let hasTimeRemaining := true in
    match flushWork fuel hasTimeRemaining currentTime s with
    | Some (Returned hasMoreWork s) =>
        let s :=
          if hasMoreWork then schedulePerformWorkUntilDeadline s
          else set_scheduledHostCallback false (set_isMessageLoopRunning false s) in
        Some (set_needsPaint false s)
    | Some (Threw s) => Some (schedulePerformWorkUntilDeadline s)
    | None => None
    end
  else
    let s := set_isMessageLoopRunning false s in
    Some (set_needsPaint false s).

(** ** The host *)

(** What the host does between two tasks of its event loop. *)
Inductive HostEvent : Type :=
| Message                  (* delivers a posted message *)
| Timeout (timeoutID : Z)  (* fires the timer with this id *)
| Elapse (ms : nat)        (* lets time pass *)
| UserCode (p : Prog).     (* runs user code that is not a scheduler callback *)

(** One host event; an event that is not possible in [s] (no message
    posted, no such timer) changes nothing. An exception that user code
    lets escape ends the host task. *)
Definition host_step (fuel : nat) (e : HostEvent) (s : State) : option State :=
  match e with
  | Message =>
      match messages s with
      | O => Some s
      | S n => performWorkUntilDeadline fuel (set_messages n s)
      end
  | Timeout timeoutID =>
      if bool_decide (timeoutID ∈ (timeouts s).*1) then
        let s := set_timeouts (filter (fun t => t.1 <> timeoutID) (timeouts s)) s in
        Some (handleTimeout (getCurrentTime s) s)
      else Some s
  | Elapse ms => Some (set_now (now s + Z.of_nat ms) s)
  | UserCode p => Some (run p s).2
  end.

Fixpoint host_run (fuel : nat) (es : list HostEvent) (s : State) : option State :=
  match es with
  | [] => Some s
  | e :: es =>
      match host_step fuel e s with
      | Some s => host_run fuel es s
      | None => None
      end
  end.

(** The state when the module has been loaded, with the clock at
    [time]. *)
Definition initial (time : Z) : State :=
  {| store := fun _ => mkTask 0 CNull NormalPriority 0 0 0;
     nextRef := 0%nat;
     taskQueue := [];
     timerQueue := [];
     taskIdCounter := 1;
     isSchedulerPaused := false;
     currentTask := None;
     currentPriorityLevel := NormalPriority;
     isPerformingWork := false;
     isHostCallbackScheduled := false;
     isHostTimeoutScheduled := false;
     isMessageLoopRunning := false;
     scheduledHostCallback := false;
     taskTimeoutID := -1;
     frameInterval := frameYieldMs;
     frameStartTime := -1;
     needsPaint := false;
     now := time;
     messages := 0%nat;
     timeouts := [];
     nextTimeoutID := 1;
     inputPending := None;
     log := [] |}.

(** The events of the history, oldest first. *)
Definition trace (s : State) : list Event := reverse (log s).*1.

(** * Specification *)

(** ** Well-formed states *)

(** What holds of the queues between any two steps of the scheduler: both
    arrays are heaps, no task record is in a queue twice or in both queues,
    and every entry is an allocated task record. *)
Record Inv (s : State) : Prop := mkInv {
  inv_taskQueue : MinHeap.heap_ordered (store s) (taskQueue s);
  inv_timerQueue : MinHeap.heap_ordered (store s) (timerQueue s);
  inv_nodup : NoDup (taskQueue s ++ timerQueue s);
  inv_alloc : forall r, r ∈ taskQueue s ++ timerQueue s -> (r < nextRef s)%nat
}.

(** ** Properties of a history *)

(** The event is a call of the callback of task [a], or a cancellation of
    task [a]. *)
Definition about (a : ref) (e : Event) : bool :=
  match e with
  | EvCallback task _ => bool_decide (task = a)
  | EvCancel task => bool_decide (task = a)
  | _ => false
  end.

(** The event is a call of the callback of task [a]. *)
Definition calls (a : ref) (e : Event) : bool :=
  match e with
  | EvCallback task _ => bool_decide (task = a)
  | _ => false
  end.

(** The entry is a call [unstable_cancelCallback(r)] made on a task record
    that exists, by code other than the callback of [r] itself: while the
    work loop runs the callback of a task, [currentTask] holds that task;
    at every other call into the API it holds another task or [null]. *)
Definition cancels_idle (r : ref) (entry : Event * Snapshot) : Prop :=
  entry.1 = EvCancel r
  /\ (r < snap_nextRef entry.2)%nat
  /\ snap_currentTask entry.2 <> Some r.

(** The task is in the ready queue at this entry and its callback is a
    function. *)
Definition ready_uncancelled (a : ref) (entry : Event * Snapshot) : Prop :=
  a ∈ snap_taskQueue entry.2
  /\ isFunction (callback (snap_store entry.2 a)) = true.

(** The history, oldest entry first. *)
Definition history (s : State) : list (Event * Snapshot) := reverse (log s).

(** On a log (newest entry first): when [a] and [b] are in the ready queue
    at an entry [p], [a] uncancelled and before [b], and the callback of
    [b] is called at a later entry [d], then an entry from [p] on and
    before [d] is a call of the callback of [a] or a cancellation of
    [a]. *)
Definition order_log (l : list (Event * Snapshot)) : Prop :=
  forall newer d mid p older a b didTimeout,
    l = newer ++ d :: mid ++ p :: older ->
    d.1 = EvCallback b didTimeout ->
    ready_uncancelled a p -> b ∈ snap_taskQueue p.2 ->
    MinHeap.before (snap_store p.2) a b ->
    exists x, x ∈ mid ++ [p] /\ about a x.1 = true.

(** On a log: no task of the ready queue is before the task whose
    callback is called. *)
Definition least_log (l : list (Event * Snapshot)) : Prop :=
  forall newer d older a b didTimeout,
    l = newer ++ d :: older ->
    d.1 = EvCallback b didTimeout ->
    a ∈ snap_taskQueue d.2 ->
    ~ MinHeap.before (snap_store d.2) a b.

(** On a log: no call of the callback of a task comes after a cancellation
    of that task from outside its callback. *)
Definition cancel_log (l : list (Event * Snapshot)) : Prop :=
  forall newer d mid c older r didTimeout,
    l = newer ++ d :: mid ++ c :: older ->
    d.1 = EvCallback r didTimeout ->
    ~ cancels_idle r c.

(** On a log: an entry made while [currentTask] held a task is a call of
    the callback of that task, or comes after one. *)
Definition current_log (l : list (Event * Snapshot)) : Prop :=
  forall newer x older r,
    l = newer ++ x :: older -> snap_currentTask x.2 = Some r ->
    exists y, y ∈ x :: older /\ calls r y.1 = true.

(** What links the history to the present state. *)
Record Hist (s : State) : Prop := mkHist {
  (* the sort index and id of a task that was ever ready do not change *)
  hist_frozen : forall x r, x ∈ log s -> r ∈ snap_taskQueue x.2 ->
    sortIndex (store s r) = sortIndex (snap_store x.2 r)
    /\ id (store s r) = id (snap_store x.2 r);
  hist_alloc : forall x r, x ∈ log s -> r ∈ snap_taskQueue x.2 ->
    (r < nextRef s)%nat;
  hist_nextRef : forall x, x ∈ log s -> (snap_nextRef x.2 <= nextRef s)%nat;
  (* a task that was ever ready does not go back to the pending queue *)
  hist_timers : forall x r, x ∈ log s -> r ∈ snap_taskQueue x.2 ->
    r ∉ timerQueue s;
  (* a ready, uncancelled task stays so until it is called or cancelled *)
  hist_waiting : forall newer p older a,
    log s = newer ++ p :: older -> ready_uncancelled a p ->
    (forall x, x ∈ newer ++ [p] -> about a x.1 = false) ->
    a ∈ taskQueue s /\ isFunction (callback (store s a)) = true;
  (* a task cancelled from outside its callback has no function to call *)
  hist_cancelled : forall c r, c ∈ log s -> cancels_idle r c ->
    isFunction (callback (store s r)) = false;
  hist_order : order_log (log s);
  hist_least : least_log (log s);
  hist_cancel : cancel_log (log s)
}.

(** A state the scheduler can be in. *)
Definition Good (s : State) : Prop := Inv s /\ Hist s.

(** No entry of the log cancels [task] from outside its callback: what
    holds of the task whose callback is running. *)
Definition not_cancelled_idle (cur : option ref) (l : list (Event * Snapshot)) : Prop :=
  forall task c, cur = Some task -> c ∈ l -> ~ cancels_idle task c.

(** What holds while user code runs: the state is good, [currentTask] is
    [cur], and the task whose callback is running, if any, has not been
    cancelled from outside its callback. *)
Definition Running (cur : option ref) (s : State) : Prop :=
  Good s /\ currentTask s = cur /\ not_cancelled_idle cur (log s).

(** What also holds while user code runs: the callback of the task that
    [currentTask] holds, if any, has been called. *)
Definition Called (cur : option ref) (s : State) : Prop :=
  current_log (log s) /\ currentTask s = cur
  /\ forall r, cur = Some r -> exists y, y ∈ log s /\ calls r y.1 = true.

(** From [s] to [s'] the log has only grown, and the new entries were
    made while [currentTask] was what it is in [s] and in [s']. *)
Definition extends (s s' : State) : Prop :=
  currentTask s' = currentTask s
  /\ exists new, log s' = new ++ log s
       /\ forall x, x ∈ new -> snap_currentTask x.2 = currentTask s.

(** The state in which a call ended. *)
Definition outcome_state (o : Outcome) : State :=
  match o with
  | Returned _ s => s
  | Threw s => s
  end.

(** What holds between two host events: the state is good and no task is
    current. *)
Definition Idle (s : State) : Prop := Good s /\ currentTask s = None.

(** ** The statements about histories *)

(** The ready tasks are called in order: when [a] and [b] are in the ready
    queue and uncancelled at entry [i], [a] before [b], and the callback of
    [b] is called at entry [j], then the callback of [a] is called at an
    entry from [i] on and before [j]. *)
Definition called_in_order (h : list (Event * Snapshot)) : Prop :=
  forall (i j : nat) p d a b didTimeout,
    (i <= j)%nat -> h !! i = Some p -> h !! j = Some d ->
    ready_uncancelled a p -> ready_uncancelled b p ->
    MinHeap.before (snap_store p.2) a b ->
    d.1 = EvCallback b didTimeout ->
    exists (k : nat) x, (i <= k < j)%nat /\ h !! k = Some x /\ calls a x.1 = true.

(** The same, unless [a] is cancelled first. *)
Definition called_in_order_unless_cancelled (h : list (Event * Snapshot)) : Prop :=
  forall (i j : nat) p d a b didTimeout,
    (i <= j)%nat -> h !! i = Some p -> h !! j = Some d ->
    ready_uncancelled a p -> ready_uncancelled b p ->
    MinHeap.before (snap_store p.2) a b ->
    d.1 = EvCallback b didTimeout ->
    exists (k : nat) x, (i <= k < j)%nat /\ h !! k = Some x /\ about a x.1 = true.

(** No callback is called after its task was cancelled from outside the
    callback. *)
Definition never_called_once_cancelled (h : list (Event * Snapshot)) : Prop :=
  forall (i j : nat) c d r,
    (i < j)%nat -> h !! i = Some c -> h !! j = Some d ->
    cancels_idle r c -> calls r d.1 = false.

(** No callback is ever called of a task that exists and was cancelled
    before any call of its callback. *)
Definition never_called_if_cancelled_first (h : list (Event * Snapshot)) : Prop :=
  forall (i j : nat) c d r,
    h !! i = Some c -> c.1 = EvCancel r -> (r < snap_nextRef c.2)%nat ->
    (forall (k : nat) x, (k < i)%nat -> h !! k = Some x -> calls r x.1 = false) ->
    h !! j = Some d -> calls r d.1 = false.

(** How many events of a trace satisfy [f]. *)
Fixpoint count_events (f : Event -> bool) (l : list Event) : nat :=
  match l with
  | [] => O
  | e :: l => if f e then S (count_events f l) else count_events f l
  end.

Definition is_timer_request (e : Event) : bool :=
  match e with EvRequestHostTimeout _ => true | _ => false end.

Definition is_callback (e : Event) : bool :=
  match e with EvCallback _ _ => true | _ => false end.

(** From [s] to [s'] the trace has grown by events that are not requests
    for a host timer, and the ready queue is not empty in [s']. *)
Definition quiet (s s' : State) : Prop :=
  taskQueue s' <> []
  /\ exists added, trace s' = trace s ++ added
       /\ count_events is_timer_request added = O.

(** Two states are the same but for the pause flag. *)
Definition same_but_paused (s1 s2 : State) : Prop :=
  set_isSchedulerPaused false s1 = set_isSchedulerPaused false s2.

(** ** Other notions the statements use *)

(** The level [unstable_runWithPriority] runs the handler at. *)
Definition known_priority (priorityLevel : PriorityLevel) : PriorityLevel :=
  match priorityLevel with
  | UnknownPriority _ => NormalPriority
  | _ => priorityLevel
  end.

(** The timeout the specification gives for each priority level. *)
Definition spec_timeout (priorityLevel : PriorityLevel) : Z :=
  match priorityLevel with
  | ImmediatePriority => -1
  | UserBlockingPriority => 250
  | NormalPriority => 5000
  | LowPriority => 10000
  | IdlePriority => 1073741823
  | UnknownPriority _ => 5000
  end.

(** The state with the pause flag forgotten. *)
Definition forget_paused (s : State) : State := set_isSchedulerPaused false s.

Definition forget_paused_outcome (o : option Outcome) : option Outcome :=
  match o with
  | Some (Returned b s) => Some (Returned b (forget_paused s))
  | Some (Threw s) => Some (Threw (forget_paused s))
  | None => None
  end.

(** ** Examples *)

(** Three task records with the sort indices 5, 3 and 8, and a heap of
    them. *)
Definition example_store : Store :=
  fun r => mkTask (Z.of_nat r + 1) CNull NormalPriority 0 0
             (match r with O => 5 | S O => 3 | _ => 8 end).

Definition example_heap : list ref := [1; 0; 2]%nat.

(** The state that a run of host events reaches from the initial state at
    time 0 (the initial state itself if the fuel does not suffice). *)
Definition reach (fuel : nat) (es : list HostEvent) : State :=
  default (initial 0) (host_run fuel es (initial 0)).

(** A callback that returns at once. *)
Definition example_callback : bool -> Prog := fun _ => Return.

(** Two tasks of normal priority are scheduled, the first one is
    cancelled, and the host delivers the message. *)
Definition example_cancel : list HostEvent :=
  [ UserCode (ScheduleCallback NormalPriority example_callback OptionsUndefined (fun a =>
              ScheduleCallback NormalPriority example_callback OptionsUndefined (fun b =>
              Return)));
    UserCode (CancelCallback 0%nat Return);
    Message ].

(** A task is scheduled with a delay of 100 ms and another without delay;
    one millisecond later the host delivers the message. The work loop runs
    the second task and, on its way out, requests a timer for the first. *)
Definition example_rearm : list HostEvent :=
  [ UserCode (ScheduleCallback NormalPriority example_callback
                (OptionsObject (DelayNumber 100)) (fun a =>
              ScheduleCallback NormalPriority example_callback OptionsUndefined (fun b =>
              Return)));
    Elapse 1;
    Message ].

(** A callback that schedules a task of immediate priority and returns a
    continuation. *)
Definition example_yielding : bool -> Prog := fun _ =>
  ScheduleCallback ImmediatePriority example_callback OptionsUndefined (fun _ =>
  ReturnFunction example_callback).

(** The state at the head of the loop of [workLoop] when one task with
    that callback has been scheduled and the host delivers the message. *)
Definition example_loop_head : State :=
  let s := reach 1 [UserCode (ScheduleCallback NormalPriority example_yielding
                                 OptionsUndefined (fun _ => Return))] in
  let s := set_frameStartTime (getCurrentTime s) (set_messages 0 s) in
  let s := set_isPerformingWork true (set_isHostCallbackScheduled false s) in
  let s := advanceTimers 0 s in
  set_currentTask (MinHeap.peek (taskQueue s)) s.

(** ** Notions for the properties of the whole scheduler *)

(** [s'] has the task records, the queues, the counters, the clock, the
    frame interval and the log of [s]. *)
Definition same_data (s s' : State) : Prop :=
  store s' = store s /\ nextRef s' = nextRef s
  /\ taskQueue s' = taskQueue s /\ timerQueue s' = timerQueue s
  /\ taskIdCounter s' = taskIdCounter s /\ now s' = now s
  /\ frameInterval s' = frameInterval s /\ log s' = log s.

(** What the task records and the queues look like: the ids count up from
    1 in the order of creation; [expirationTime] is [startTime] plus the
    timeout of the priority level; the ready queue is sorted by
    [expirationTime] and holds tasks that have started; the pending queue
    is sorted by [startTime]. *)
Record Shape (s : State) : Prop := mkShape {
  shape_counter : taskIdCounter s = Z.of_nat (nextRef s) + 1;
  shape_id : forall r, (r < nextRef s)%nat -> id (store s r) = Z.of_nat r + 1;
  shape_expiration : forall r, (r < nextRef s)%nat ->
    expirationTime (store s r)
    = startTime (store s r) + schedule_timeout (priorityLevel (store s r));
  shape_ready : forall r, r ∈ taskQueue s ->
    sortIndex (store s r) = expirationTime (store s r)
    /\ startTime (store s r) <= now s;
  shape_pending : forall r, r ∈ timerQueue s ->
    sortIndex (store s r) = startTime (store s r)
}.

(** On a log: the callback of a task of immediate priority was called with
    [didTimeout = true]. *)
Definition immediate_timed_out (l : list (Event * Snapshot)) : Prop :=
  forall x task didTimeout,
    x ∈ l -> x.1 = EvCallback task didTimeout ->
    priorityLevel (snap_store x.2 task) = ImmediatePriority ->
    didTimeout = true.

(** The queues are well formed, the records and queues have their shape,
    and the log is as [immediate_timed_out] says. *)
Definition WellFormed (s : State) : Prop :=
  Inv s /\ Shape s /\ immediate_timed_out (log s).




(** From [s] to [s'] nothing has changed on the side of the host: the
    flags, the message posted or not, the timers. *)
Definition host_untouched (s s' : State) : Prop :=
  isPerformingWork s' = isPerformingWork s
  /\ isHostCallbackScheduled s' = isHostCallbackScheduled s
  /\ isHostTimeoutScheduled s' = isHostTimeoutScheduled s
  /\ isMessageLoopRunning s' = isMessageLoopRunning s
  /\ scheduledHostCallback s' = scheduledHostCallback s
  /\ messages s' = messages s
  /\ timeouts s' = timeouts s
  /\ taskTimeoutID s' = taskTimeoutID s
  /\ nextTimeoutID s' = nextTimeoutID s.

(** What holds of the flags and the host between two host events: no work
    is being performed; at most one message is posted, and one is exactly
    when the message loop is marked as running; a host callback that is
    marked as scheduled is set and will be run; when a task is ready, the
    host callback is set and a message is posted; when a task is pending,
    so it is, or a host timer is set. *)
Record Awake (s : State) : Prop := mkAwake {
  awake_idle : isPerformingWork s = false;
  awake_messages : (messages s <= 1)%nat;
  awake_loop : isMessageLoopRunning s = true <-> messages s = 1%nat;
  awake_scheduled : isHostCallbackScheduled s = true ->
    scheduledHostCallback s = true /\ isMessageLoopRunning s = true;
  awake_ready : taskQueue s <> [] ->
    scheduledHostCallback s = true /\ isMessageLoopRunning s = true;
  awake_pending : timerQueue s <> [] ->
    (scheduledHostCallback s = true /\ isMessageLoopRunning s = true)
    \/ timeouts s <> []
}.

(** What a piece of user code can have done to the data of the scheduler
    between [s] and [s']: tasks were created and time has passed; no task
    has left a queue; of the records that were there, only the [callback]
    field can have changed, and only to [null]. *)
Definition api_frame (s s' : State) : Prop :=
  (nextRef s <= nextRef s')%nat
  /\ now s <= now s'
  /\ currentTask s' = currentTask s
  /\ isPerformingWork s' = isPerformingWork s
  /\ (forall r, r ∈ taskQueue s -> r ∈ taskQueue s')
  /\ (forall r, r ∈ timerQueue s -> r ∈ timerQueue s')
  /\ forall r, (r < nextRef s)%nat ->
       id (store s' r) = id (store s r)
       /\ priorityLevel (store s' r) = priorityLevel (store s r)
       /\ startTime (store s' r) = startTime (store s r)
       /\ expirationTime (store s' r) = expirationTime (store s r)
       /\ sortIndex (store s' r) = sortIndex (store s r)
       /\ (callback (store s' r) = callback (store s r)
           \/ callback (store s' r) = CNull).

(** From [s] to [s'] the log has grown by entries that are not calls of
    callbacks. *)
Definition grows_quietly (s s' : State) : Prop :=
  exists added, log s' = added ++ log s
    /\ forall x, x ∈ added -> is_callback x.1 = false.

(** From [s] to [s'] the log has grown by entries of which the calls of
    callbacks have [didTimeout = true]. *)
Definition grows_timed_out (s s' : State) : Prop :=
  exists added, log s' = added ++ log s
    /\ forall x task didTimeout,
         x ∈ added -> x.1 = EvCallback task didTimeout -> didTimeout = true.

(** On a log: every host timer was requested with a delay greater than 0. *)
Definition positive_timers (l : list (Event * Snapshot)) : Prop :=
  forall x ms, x ∈ l -> x.1 = EvRequestHostTimeout ms -> 0 < ms.

(** ** More examples *)

(** One task of normal priority has been scheduled. *)
Definition example_one_task : State :=
  reach 1 [UserCode (ScheduleCallback NormalPriority example_callback
                       OptionsUndefined (fun _ => Return))].

(** The same at the start of a frame. *)
Definition example_frame : State :=
  set_frameStartTime (now example_one_task) example_one_task.

(** A task of immediate priority is scheduled and the host delivers the
    message. *)
Definition example_immediate : list HostEvent :=
  [ UserCode (ScheduleCallback ImmediatePriority example_callback
                OptionsUndefined (fun _ => Return));
    Message ].


(** When the latch [isHostTimeoutScheduled] is set, the host timer whose
    id is [taskTimeoutID] is set. *)
Definition Latched (s : State) : Prop :=
  isHostTimeoutScheduled s = true -> taskTimeoutID s ∈ (timeouts s).*1.

(** * Facts about the min-heap *)

Module MinHeapFacts.
Import MinHeap.
Section WithStore.
Variable sigma : Store.

Local Abbreviation compare := (compare sigma).
Local Abbreviation notAfter := (notAfter sigma).
Local Abbreviation before := (before sigma).
Local Abbreviation heap_ordered := (heap_ordered sigma).
Local Abbreviation up_ordered := (up_ordered sigma).
Local Abbreviation down_ordered := (down_ordered sigma).

Lemma shiftr_1 (n : nat) : Nat.shiftr n 1 = (n / 2)%nat.
Proof. by rewrite Nat.shiftr_div_pow2. Qed.

Lemma compare_before a b : compare a b < 0 <-> before a b.
Proof. unfold MinHeap.compare, MinHeap.before. case_match; lia. Qed.

Lemma compare_antisym a b : 0 < compare a b <-> compare b a < 0.
Proof. unfold MinHeap.compare. repeat case_match; lia. Qed.

Lemma notAfter_refl a : notAfter a a.
Proof. unfold MinHeap.notAfter, MinHeap.compare. case_match; lia. Qed.

Lemma notAfter_trans a b c : notAfter a b -> notAfter b c -> notAfter a c.
Proof. unfold MinHeap.notAfter, MinHeap.compare. repeat case_match; lia. Qed.

Lemma before_notAfter a b : compare a b < 0 -> notAfter a b.
Proof. unfold MinHeap.notAfter. lia. Qed.

Lemma not_before_notAfter a b : ¬ compare a b < 0 -> notAfter b a.
Proof. unfold MinHeap.notAfter, MinHeap.compare. repeat case_match; lia. Qed.

Lemma after_notAfter a b : 0 < compare a b -> notAfter b a.
Proof. unfold MinHeap.notAfter, MinHeap.compare. repeat case_match; lia. Qed.

Lemma not_after_notAfter a b : ¬ 0 < compare a b -> notAfter a b.
Proof. unfold MinHeap.notAfter. lia. Qed.

(** Reading an array after two writes. *)
Lemma lookup_total_insert2 (heap : list ref) (i j : nat) (x y : ref) (k : nat) :
  (i < length heap)%nat -> (j < length heap)%nat ->
  <[j := y]> (<[i := x]> heap) !!! k =
    if decide (k = j) then y else if decide (k = i) then x else heap !!! k.
Proof.
  intros Hi Hj. rewrite !list_lookup_total_insert, !length_insert.
  repeat case_decide; try done; lia.
Qed.

Lemma up_ordered_done heap k :
  up_ordered heap k ->
  (k = 0%nat \/ notAfter (heap !!! ((k - 1) / 2)%nat) (heap !!! k)) ->
  heap_ordered heap.
Proof.
  intros [H1 H2] Hk i Hi. destruct (decide (i = k)) as [->|Hne]; [|by apply H1].
  destruct Hk as [->|Hk]; [lia|done].
Qed.

Lemma up_ordered_swap heap node k :
  (0 < k < length heap)%nat -> heap !!! k = node ->
  0 < compare (heap !!! ((k - 1) / 2)%nat) node ->
  up_ordered heap k ->
  up_ordered (<[k := heap !!! ((k - 1) / 2)%nat]> (<[((k - 1) / 2)%nat := node]> heap))
             ((k - 1) / 2)%nat.
Proof.
  intros Hk <- Hcmp [H1 H2].
  remember ((k - 1) / 2)%nat as p eqn:Hpdef.
  assert (Hp : (p < k)%nat) by lia.
  apply after_notAfter in Hcmp.
  split; intros i Hi; rewrite !length_insert in Hi;
    rewrite !lookup_total_insert2 by lia.
  - intros Hip.
    destruct (decide (i = k)) as [->|Hik].
    + rewrite <- Hpdef. rewrite decide_False by lia. by rewrite decide_True.
    + rewrite (decide_False (P := i = p)) by done.
      destruct (decide (((i - 1) / 2)%nat = k)) as [Hpk|Hpk].
      * apply H2; [lia|done|lia].
      * destruct (decide (((i - 1) / 2)%nat = p)) as [Hpp|Hpp].
        -- eapply notAfter_trans; [exact Hcmp|]. rewrite <- Hpp. apply H1; [lia|done].
        -- apply H1; [lia|done].
  - intros Hip Hp0.
    rewrite (decide_False (P := ((p - 1) / 2)%nat = k)) by lia.
    rewrite (decide_False (P := ((p - 1) / 2)%nat = p)) by lia.
    destruct (decide (i = k)) as [->|Hik].
    + apply H1; lia.
    + rewrite (decide_False (P := i = p)) by lia.
      eapply notAfter_trans; [apply (H1 p); lia|]. rewrite <- Hip. apply H1; [lia|done].
Qed.

Lemma siftUp_loop_correct fuel : forall heap node index,
  (index <= fuel)%nat -> (index < length heap)%nat -> heap !!! index = node ->
  up_ordered heap index ->
  heap_ordered (siftUp_loop sigma fuel heap node index)
  /\ siftUp_loop sigma fuel heap node index ≡ₚ heap.
Proof.
  induction fuel as [|fuel IH]; intros heap node index Hfuel Hlen Hnode Hord;
    cbn [siftUp_loop].
  - split; [|done]. eapply up_ordered_done; [done|left; lia].
  - destruct (0 <? index)%nat eqn:Hpos.
    2:{ apply Nat.ltb_ge in Hpos. split; [|done].
        eapply up_ordered_done; [done|left; lia]. }
    apply Nat.ltb_lt in Hpos. rewrite shiftr_1.
    destruct (0 <? compare (heap !!! ((index - 1) / 2)%nat) node) eqn:Hcmp.
    + apply Z.ltb_lt in Hcmp.
      destruct (IH (<[index := heap !!! ((index - 1) / 2)%nat]>
                      (<[((index - 1) / 2)%nat := node]> heap))
                   node ((index - 1) / 2)%nat) as [IH1 IH2].
      * lia.
      * rewrite !length_insert. lia.
      * rewrite lookup_total_insert2 by lia. repeat case_decide; try done; lia.
      * by apply up_ordered_swap.
      * split; [done|]. rewrite IH2.
        apply Permutation_insert_swap; rewrite list_lookup_lookup_total_lt by lia;
          congruence.
    + apply Z.ltb_ge in Hcmp. split; [|done].
      eapply up_ordered_done; [done|right]. rewrite Hnode. unfold MinHeap.notAfter. lia.
Qed.

Lemma siftUp_loop_fuel fuel1 : forall fuel2 heap node index,
  (index <= fuel1)%nat -> (index <= fuel2)%nat ->
  siftUp_loop sigma fuel1 heap node index = siftUp_loop sigma fuel2 heap node index.
Proof.
  induction fuel1 as [|fuel1 IH]; intros [|fuel2] heap node index H1 H2;
    cbn [siftUp_loop]; try done.
  - by replace index with 0%nat by lia.
  - by replace index with 0%nat by lia.
  - destruct (0 <? index)%nat eqn:Hpos; [|done]. apply Nat.ltb_lt in Hpos.
    case_match; [|done]. apply IH; rewrite shiftr_1; lia.
Qed.

Lemma heap_ordered_app heap node :
  heap_ordered heap -> up_ordered (heap ++ [node]) (length heap).
Proof.
  intros Hord. split; intros i Hi; rewrite length_app in Hi; simpl in Hi.
  - intros Hne. rewrite !lookup_total_app_l by lia. apply Hord. lia.
  - lia.
Qed.

Lemma push_correct heap node :
  heap_ordered heap ->
  heap_ordered (push sigma heap node) /\ push sigma heap node ≡ₚ node :: heap.
Proof.
  intros Hord. unfold push, siftUp.
  destruct (siftUp_loop_correct (length heap) (heap ++ [node]) node (length heap))
    as [H1 H2].
  - done.
  - rewrite length_app. simpl. lia.
  - by apply list_lookup_total_middle.
  - by apply heap_ordered_app.
  - split; [done|]. rewrite H2. symmetry. apply Permutation_cons_append.
Qed.

Lemma heap_ordered_root heap :
  heap_ordered heap ->
  forall i, (i < length heap)%nat -> notAfter (heap !!! 0%nat) (heap !!! i).
Proof.
  intros Hord i. induction i as [i IH] using lt_wf_ind. intros Hi.
  destruct (decide (i = 0%nat)) as [->|Hne]; [apply notAfter_refl|].
  eapply notAfter_trans; [apply (IH ((i - 1) / 2)%nat); lia|]. apply Hord. lia.
Qed.

Lemma down_ordered_done heap k :
  down_ordered heap k ->
  (forall i, (0 < i < length heap)%nat -> ((i - 1) / 2)%nat = k ->
     notAfter (heap !!! k) (heap !!! i)) ->
  heap_ordered heap.
Proof.
  intros [H1 H2] Hk i Hi.
  destruct (decide (((i - 1) / 2)%nat = k)) as [Heq|Hne]; [|by apply H1].
  rewrite Heq. by apply Hk.
Qed.

Lemma down_ordered_swap heap k c :
  (c < length heap)%nat -> ((c - 1) / 2)%nat = k -> (0 < c)%nat ->
  compare (heap !!! c) (heap !!! k) < 0 ->
  (forall c', (0 < c' < length heap)%nat -> ((c' - 1) / 2)%nat = k ->
     notAfter (heap !!! c) (heap !!! c')) ->
  down_ordered heap k ->
  down_ordered (<[c := heap !!! k]> (<[k := heap !!! c]> heap)) c.
Proof.
  intros Hc Hck Hc0 Hcmp Hsib [H1 H2].
  assert (Hkc : (k < c)%nat) by lia.
  apply before_notAfter in Hcmp.
  split; intros i Hi; rewrite !length_insert in Hi;
    rewrite !lookup_total_insert2 by lia.
  - intros Hic.
    rewrite (decide_False (P := ((i - 1) / 2)%nat = c)) by done.
    destruct (decide (i = c)) as [->|Hne].
    + rewrite Hck. by rewrite decide_True.
    + destruct (decide (i = k)) as [->|Hik].
      * rewrite decide_False by lia. apply H2; [lia|done|lia].
      * destruct (decide (((i - 1) / 2)%nat = k)) as [Hpk|Hpk].
        -- apply Hsib; [lia|done].
        -- apply H1; [lia|done].
  - intros Hic _. rewrite Hck.
    rewrite (decide_False (P := k = c)) by lia. rewrite decide_True by done.
    rewrite (decide_False (P := i = c)) by lia.
    rewrite (decide_False (P := i = k)) by lia.
    rewrite <- Hic. apply H1; [lia|]. lia.
Qed.

Lemma siftDown_loop_correct fuel : forall heap node index,
  (length heap <= fuel + index)%nat -> heap !!! index = node ->
  down_ordered heap index ->
  heap_ordered (siftDown_loop sigma fuel heap node index)
  /\ siftDown_loop sigma fuel heap node index ≡ₚ heap.
Proof.
  induction fuel as [|fuel IH]; intros heap node index Hfuel Hnode Hord;
    cbn [siftDown_loop].
  - split; [|done]. eapply down_ordered_done; [done|]. intros i Hi Hp. lia.
  - rewrite shiftr_1.
    destruct (index <? length heap / 2)%nat eqn:Hhalf.
    2:{ apply Nat.ltb_ge in Hhalf. split; [|done].
        eapply down_ordered_done; [done|]. intros i Hi Hp. lia. }
    apply Nat.ltb_lt in Hhalf.
    set (l := ((index + 1) * 2 - 1)%nat).
    assert (Hl : (l < length heap)%nat) by (subst l; lia).
    assert (Hlp : ((l - 1) / 2)%nat = index) by (subst l; lia).
    assert (Hrp : ((l + 1 - 1) / 2)%nat = index) by (subst l; lia).
    assert (Hch : forall i, (0 < i)%nat -> ((i - 1) / 2)%nat = index ->
                    i = l \/ i = (l + 1)%nat) by (subst l; lia).
    assert (Hswap : forall c, (c < length heap)%nat -> ((c - 1) / 2)%nat = index ->
              (0 < c)%nat -> compare (heap !!! c) node < 0 ->
              (forall c', (0 < c' < length heap)%nat -> ((c' - 1) / 2)%nat = index ->
                 notAfter (heap !!! c) (heap !!! c')) ->
              heap_ordered (siftDown_loop sigma fuel
                 (<[c := node]> (<[index := heap !!! c]> heap)) node c)
              /\ siftDown_loop sigma fuel
                 (<[c := node]> (<[index := heap !!! c]> heap)) node c ≡ₚ heap).
    { intros c Hc Hcp Hc0 Hcmp Hsib. subst node.
      destruct (IH (<[c := heap !!! index]> (<[index := heap !!! c]> heap))
                   (heap !!! index) c) as [IH1 IH2].
      - rewrite !length_insert. lia.
      - rewrite lookup_total_insert2 by lia. by rewrite decide_True.
      - by apply down_ordered_swap.
      - split; [done|]. rewrite IH2.
        apply Permutation_insert_swap; rewrite list_lookup_lookup_total_lt by lia;
          congruence. }
    destruct (compare (heap !!! l) node <? 0) eqn:Hleft.
    + apply Z.ltb_lt in Hleft.
      destruct ((l + 1 <? length heap)%nat && (compare (heap !!! (l + 1)%nat) (heap !!! l) <? 0))
        eqn:Hright.
      * apply andb_true_iff in Hright as [Hr1 Hr2].
        apply Nat.ltb_lt in Hr1. apply Z.ltb_lt in Hr2.
        apply Hswap; [done|done|lia| |].
        -- revert Hleft Hr2. unfold MinHeap.compare. repeat case_match; lia.
        -- intros c' Hc' Hp'. destruct (Hch c') as [->| ->]; [lia|done| |].
           ++ by apply before_notAfter.
           ++ apply notAfter_refl.
      * apply Hswap; [done|done|subst l; lia|done|].
        intros c' Hc' Hp'. destruct (Hch c') as [->| ->]; [lia|done| |].
        -- apply notAfter_refl.
        -- apply andb_false_iff in Hright as [Hr|Hr].
           ++ apply Nat.ltb_ge in Hr. lia.
           ++ apply Z.ltb_ge in Hr. apply not_before_notAfter. lia.
    + apply Z.ltb_ge in Hleft.
      destruct ((l + 1 <? length heap)%nat && (compare (heap !!! (l + 1)%nat) node <? 0))
        eqn:Hright.
      * apply andb_true_iff in Hright as [Hr1 Hr2].
        apply Nat.ltb_lt in Hr1. apply Z.ltb_lt in Hr2.
        apply Hswap; [done|done|lia|done|].
        intros c' Hc' Hp'. destruct (Hch c') as [->| ->]; [lia|done| |].
        -- eapply notAfter_trans; [apply before_notAfter; exact Hr2|].
           apply not_before_notAfter. lia.
        -- apply notAfter_refl.
      * split; [|done]. eapply down_ordered_done; [done|].
        intros i Hi Hp. rewrite Hnode. destruct (Hch i) as [->| ->]; [lia|done| |].
        -- apply not_before_notAfter. lia.
        -- apply andb_false_iff in Hright as [Hr|Hr].
           ++ apply Nat.ltb_ge in Hr. lia.
           ++ apply Z.ltb_ge in Hr. apply not_before_notAfter. lia.
Qed.

Lemma siftDown_loop_fuel fuel1 : forall fuel2 heap node index,
  (length heap <= fuel1 + index)%nat -> (length heap <= fuel2 + index)%nat ->
  siftDown_loop sigma fuel1 heap node index = siftDown_loop sigma fuel2 heap node index.
Proof.
  induction fuel1 as [|fuel1 IH]; intros [|fuel2] heap node index H1 H2;
    cbn [siftDown_loop]; rewrite ?shiftr_1; try done.
  - destruct (index <? length heap / 2)%nat eqn:Hhalf; [|done].
    apply Nat.ltb_lt in Hhalf. lia.
  - destruct (index <? length heap / 2)%nat eqn:Hhalf; [|done].
    apply Nat.ltb_lt in Hhalf. lia.
  - destruct (index <? length heap / 2)%nat eqn:Hhalf; [|done].
    apply Nat.ltb_lt in Hhalf.
    repeat case_match; try done; apply IH; rewrite !length_insert; lia.
Qed.

Lemma heap_ordered_prefix heap node : heap_ordered (heap ++ [node]) -> heap_ordered heap.
Proof.
  intros Hord i Hi. specialize (Hord i). rewrite length_app in Hord.
  cbn [length] in Hord.
  rewrite !lookup_total_app_l in Hord by lia. apply Hord. lia.
Qed.

Lemma peek_min heap m x :
  heap_ordered heap -> peek heap = Some m -> x ∈ heap -> notAfter m x.
Proof.
  intros Hord Hpeek Hx. destruct heap as [|first rest]; [done|].
  injection Hpeek as <-.
  apply list_elem_of_lookup_total_1 in Hx as (i & Hi & <-).
  by apply (heap_ordered_root (first :: rest) Hord i).
Qed.

Lemma pop_correct heap :
  heap_ordered heap ->
  match pop sigma heap with
  | (None, heap') => heap = [] /\ heap' = []
  | (Some m, heap') =>
      peek heap = Some m /\ heap_ordered heap' /\ m :: heap' ≡ₚ heap
  end.
Proof.
  intros Hord. destruct heap as [|first rest]; [done|].
  unfold pop.
  destruct rest as [|last rest _] using rev_ind.
  { simpl. rewrite Nat.eqb_refl. simpl. split; [done|]. split; [|done].
    intros i Hi. simpl in Hi. lia. }
  rewrite app_comm_cons, last_last, removelast_last.
  destruct (negb (last =? first)%nat) eqn:Hne.
  - split; [done|]. unfold siftDown.
    destruct (siftDown_loop_correct (length (<[0%nat := last]> (first :: rest)))
                (<[0%nat := last]> (first :: rest)) last 0) as [H1 H2].
    + lia.
    + done.
    + split; intros i Hi; [|lia]. intros Hp. simpl in Hi.
      specialize (Hord i). rewrite app_comm_cons, length_app in Hord.
      cbn [length] in Hord.
      rewrite !lookup_total_app_l in Hord by (cbn [length]; lia).
      destruct i as [|i]; [lia|].
      destruct ((S i - 1) / 2)%nat as [|j] eqn:Hj; [done|].
      apply Hord. lia.
    + split; [done|]. rewrite H2. simpl.
      apply perm_skip, Permutation_cons_append.
  - split; [done|]. apply negb_false_iff, Nat.eqb_eq in Hne. subst last. split.
    + by apply (heap_ordered_prefix _ first).
    + apply perm_skip, Permutation_cons_append.
Qed.

(** Facts that hold of any array, heap or not. *)

Lemma siftUp_loop_perm fuel : forall heap node index,
  (index < length heap)%nat -> heap !!! index = node ->
  siftUp_loop sigma fuel heap node index ≡ₚ heap.
Proof.
  induction fuel as [|fuel IH]; intros heap node index Hlen Hnode;
    cbn [siftUp_loop]; [done|].
  destruct (0 <? index)%nat eqn:Hpos; [|done]. apply Nat.ltb_lt in Hpos.
  rewrite shiftr_1. case_match; [|done].
  rewrite IH.
  - apply Permutation_insert_swap; rewrite list_lookup_lookup_total_lt by lia;
      congruence.
  - rewrite !length_insert. lia.
  - rewrite lookup_total_insert2 by lia. repeat case_decide; try done; lia.
Qed.

Lemma push_perm heap node : push sigma heap node ≡ₚ node :: heap.
Proof.
  unfold push, siftUp. rewrite siftUp_loop_perm.
  - symmetry. apply Permutation_cons_append.
  - rewrite length_app. simpl. lia.
  - by apply list_lookup_total_middle.
Qed.

Lemma siftDown_loop_perm fuel : forall heap node index,
  ((index < length heap)%nat -> heap !!! index = node) ->
  siftDown_loop sigma fuel heap node index ≡ₚ heap.
Proof.
  induction fuel as [|fuel IH]; intros heap node index Hnode;
    cbn [siftDown_loop]; [done|].
  rewrite shiftr_1.
  destruct (index <? length heap / 2)%nat eqn:Hhalf; [|done].
  apply Nat.ltb_lt in Hhalf.
  assert (Hswap : forall c, (c < length heap)%nat -> c <> index ->
            siftDown_loop sigma fuel (<[c := node]> (<[index := heap !!! c]> heap)) node c
            ≡ₚ heap).
  { intros c Hc Hne. rewrite IH.
    - apply Permutation_insert_swap; rewrite list_lookup_lookup_total_lt by lia;
        [rewrite Hnode by lia|]; done.
    - intros _. rewrite lookup_total_insert2 by lia. by rewrite decide_True. }
  destruct (compare (heap !!! ((index + 1) * 2 - 1)%nat) node <? 0).
  - destruct ((((index + 1) * 2 - 1 + 1 <? length heap)%nat
               && (compare (heap !!! ((index + 1) * 2 - 1 + 1)%nat)
                     (heap !!! ((index + 1) * 2 - 1)%nat) <? 0))) eqn:Hright.
    + apply andb_true_iff in Hright as [Hr _]. apply Nat.ltb_lt in Hr.
      apply Hswap; lia.
    + apply Hswap; lia.
  - destruct ((((index + 1) * 2 - 1 + 1 <? length heap)%nat
               && (compare (heap !!! ((index + 1) * 2 - 1 + 1)%nat) node <? 0)))
      eqn:Hright; [|done].
    apply andb_true_iff in Hright as [Hr _]. apply Nat.ltb_lt in Hr.
    apply Hswap; lia.
Qed.

Lemma pop_fst heap : (pop sigma heap).1 = peek heap.
Proof. destruct heap as [|first rest]; [done|]. unfold pop. by case_match. Qed.

Lemma pop_perm heap first :
  peek heap = Some first -> first :: (pop sigma heap).2 ≡ₚ heap.
Proof.
  destruct heap as [|first' rest]; [done|]. intros [= ->]. unfold pop.
  destruct rest as [|last rest _] using rev_ind.
  { simpl. by rewrite Nat.eqb_refl. }
  rewrite app_comm_cons, last_last, removelast_last.
  destruct (negb (last =? first)%nat) eqn:Hne; cbn [snd].
  - unfold siftDown. rewrite siftDown_loop_perm by done. simpl.
    apply perm_skip, Permutation_cons_append.
  - apply negb_false_iff, Nat.eqb_eq in Hne. subst last.
    apply perm_skip, Permutation_cons_append.
Qed.

Lemma pop_shorter heap first :
  peek heap = Some first -> length heap = S (length (pop sigma heap).2).
Proof.
  intros H. apply pop_perm in H. apply Permutation_length in H. by rewrite <- H.
Qed.

End WithStore.
End MinHeapFacts.

(** * Facts about well-formed states *)

Module InvFacts.
Import MinHeap MinHeapFacts.

(** The heap functions read the sort index and the id only. *)
Lemma compare_ext sigma sigma' a b :
  sortIndex (sigma' a) = sortIndex (sigma a) -> id (sigma' a) = id (sigma a) ->
  sortIndex (sigma' b) = sortIndex (sigma b) -> id (sigma' b) = id (sigma b) ->
  compare sigma' a b = compare sigma a b.
Proof. unfold compare. by intros -> -> -> ->. Qed.

Lemma heap_ordered_ext sigma sigma' heap :
  (forall r, r ∈ heap ->
     sortIndex (sigma' r) = sortIndex (sigma r) /\ id (sigma' r) = id (sigma r)) ->
  heap_ordered sigma heap -> heap_ordered sigma' heap.
Proof.
  intros Hext Hord i Hi. unfold notAfter.
  rewrite (compare_ext sigma sigma').
  - by apply Hord.
  - apply Hext, list_elem_of_lookup_total_2. lia.
  - apply Hext, list_elem_of_lookup_total_2. lia.
  - apply Hext, list_elem_of_lookup_total_2. lia.
  - apply Hext, list_elem_of_lookup_total_2. lia.
Qed.

Lemma peek_elem heap r : peek heap = Some r -> r ∈ heap.
Proof. destruct heap; [done|]. intros [= ->]. apply list_elem_of_here. Qed.

Lemma peek_None heap : peek heap = None -> heap = [].
Proof. by destruct heap. Qed.

(** What [pop] does to a heap that is not empty. *)
Lemma pop_peek sigma heap first :
  heap_ordered sigma heap -> peek heap = Some first ->
  (pop sigma heap).1 = Some first
  /\ heap_ordered sigma (pop sigma heap).2
  /\ first :: (pop sigma heap).2 ≡ₚ heap.
Proof.
  intros Hord Hpeek. pose proof (pop_correct sigma heap Hord) as Hpop.
  destruct (pop sigma heap) as [[m|] heap'].
  - destruct Hpop as (Hm & H1 & H2). rewrite Hpeek in Hm. by injection Hm as ->.
  - destruct Hpop as [-> _]. done.
Qed.

Lemma pop_length sigma heap first :
  heap_ordered sigma heap -> peek heap = Some first ->
  length heap = S (length (pop sigma heap).2).
Proof.
  intros Hord Hpeek. destruct (pop_peek sigma heap first Hord Hpeek) as (_ & _ & Hperm).
  apply Permutation_length in Hperm. by rewrite <- Hperm.
Qed.

(** States that differ in other variables only. *)
Lemma Inv_frame s s' :
  store s' = store s -> nextRef s' = nextRef s ->
  taskQueue s' = taskQueue s -> timerQueue s' = timerQueue s ->
  Inv s -> Inv s'.
Proof.
  intros H1 H2 H3 H4 [I1 I2 I3 I4].
  split; rewrite ?H1, ?H2, ?H3, ?H4; done.
Qed.

Lemma Inv_initial time : Inv (initial time).
Proof.
  split; simpl.
  - intros i Hi. simpl in Hi. lia.
  - intros i Hi. simpl in Hi. lia.
  - constructor.
  - intros r Hr. by apply elem_of_nil in Hr.
Qed.

Lemma Inv_write_callback task c s : Inv s -> Inv (write_callback task c s).
Proof.
  intros [I1 I2 I3 I4]. split; simpl; try done.
  - eapply heap_ordered_ext; [|exact I1]. intros r _. unfold insert, fn_insert.
    by case_decide; subst.
  - eapply heap_ordered_ext; [|exact I2]. intros r _. unfold insert, fn_insert.
    by case_decide; subst.
Qed.

Lemma Inv_pop_taskQueue s first :
  Inv s -> peek (taskQueue s) = Some first ->
  Inv (pop_taskQueue s) /\ first :: taskQueue (pop_taskQueue s) ≡ₚ taskQueue s.
Proof.
  intros [I1 I2 I3 I4] Hpeek.
  destruct (pop_peek _ _ _ I1 Hpeek) as (_ & H1 & H2).
  split; [|done]. split; simpl; try done.
  - apply list.NoDup_app in I3 as (N1 & N2 & N3). rewrite <- H2 in N1.
    apply list.NoDup_cons in N1 as [_ N1]. apply list.NoDup_app. split; [done|]. split; [|done].
    intros x Hx. apply N2. rewrite <- H2. by apply list_elem_of_further.
  - intros r Hr. apply I4. apply elem_of_app in Hr as [Hr|Hr]; apply elem_of_app.
    + left. rewrite <- H2. by apply list_elem_of_further.
    + by right.
Qed.

Lemma Inv_pop_timerQueue s first :
  Inv s -> peek (timerQueue s) = Some first ->
  Inv (pop_timerQueue s) /\ first :: timerQueue (pop_timerQueue s) ≡ₚ timerQueue s.
Proof.
  intros [I1 I2 I3 I4] Hpeek.
  destruct (pop_peek _ _ _ I2 Hpeek) as (_ & H1 & H2).
  split; [|done]. split; simpl; try done.
  - apply list.NoDup_app in I3 as (N1 & N2 & N3). rewrite <- H2 in N3.
    apply list.NoDup_cons in N3 as [_ N3]. apply list.NoDup_app. split; [done|]. split; [|done].
    intros x Hx Hx'. apply (N2 x Hx). rewrite <- H2. by apply list_elem_of_further.
  - intros r Hr. apply I4. apply elem_of_app in Hr as [Hr|Hr]; apply elem_of_app.
    + by left.
    + right. rewrite <- H2. by apply list_elem_of_further.
Qed.

(** A write to the sort index of a task that is in neither queue,
    followed by a push into the ready queue. *)
Lemma Inv_push_taskQueue task v s :
  Inv s -> task ∉ taskQueue s ++ timerQueue s -> (task < nextRef s)%nat ->
  Inv (push_taskQueue task (write_sortIndex task v s))
  /\ taskQueue (push_taskQueue task (write_sortIndex task v s)) ≡ₚ task :: taskQueue s.
Proof.
  intros [I1 I2 I3 I4] Hnot Hlt.
  assert (Hext : forall heap : list ref, task ∉ heap -> forall r, r ∈ heap ->
     sortIndex ((<[task := set_sortIndex v (store s task)]> (store s)) r)
       = sortIndex (store s r)
     /\ id ((<[task := set_sortIndex v (store s task)]> (store s)) r) = id (store s r)).
  { intros heap Hh r Hr. unfold insert, fn_insert. case_decide; [by subst|done]. }
  rewrite not_elem_of_app in Hnot. destruct Hnot as [Hn1 Hn2].
  destruct (push_correct (<[task := set_sortIndex v (store s task)]> (store s))
              (taskQueue s) task) as [P1 P2].
  { eapply heap_ordered_ext; [|exact I1]. by apply Hext. }
  split; [|done]. split; simpl; try done.
  - eapply heap_ordered_ext; [|exact I2]. by apply Hext.
  - rewrite P2. simpl. apply list.NoDup_cons. split; [|done].
    rewrite not_elem_of_app. done.
  - intros r Hr. rewrite P2 in Hr. simpl in Hr. apply elem_of_cons in Hr as [->|Hr]; [done|].
    by apply I4.
Qed.

Lemma Inv_push_timerQueue task v s :
  Inv s -> task ∉ taskQueue s ++ timerQueue s -> (task < nextRef s)%nat ->
  Inv (push_timerQueue task (write_sortIndex task v s))
  /\ timerQueue (push_timerQueue task (write_sortIndex task v s)) ≡ₚ task :: timerQueue s.
Proof.
  intros [I1 I2 I3 I4] Hnot Hlt.
  assert (Hext : forall heap : list ref, task ∉ heap -> forall r, r ∈ heap ->
     sortIndex ((<[task := set_sortIndex v (store s task)]> (store s)) r)
       = sortIndex (store s r)
     /\ id ((<[task := set_sortIndex v (store s task)]> (store s)) r) = id (store s r)).
  { intros heap Hh r Hr. unfold insert, fn_insert. case_decide; [by subst|done]. }
  rewrite not_elem_of_app in Hnot. destruct Hnot as [Hn1 Hn2].
  destruct (push_correct (<[task := set_sortIndex v (store s task)]> (store s))
              (timerQueue s) task) as [P1 P2].
  { eapply heap_ordered_ext; [|exact I2]. by apply Hext. }
  split; [|done]. split; simpl; try done.
  - eapply heap_ordered_ext; [|exact I1]. by apply Hext.
  - rewrite P2. apply list.NoDup_app in I3 as (N1 & N2 & N3).
    apply list.NoDup_app. split; [done|]. split.
    + intros x Hx Hx'. apply elem_of_cons in Hx' as [->|Hx']; [done|]. by apply (N2 x).
    + apply list.NoDup_cons. done.
  - intros r Hr. rewrite P2 in Hr. apply elem_of_app in Hr as [Hr|Hr].
    + apply I4, elem_of_app. by left.
    + apply elem_of_cons in Hr as [->|Hr]; [done|]. apply I4, elem_of_app. by right.
Qed.

End InvFacts.

(** * Facts about histories *)

Module HistFacts.
Import MinHeap MinHeapFacts InvFacts.

Lemma cons_split {A} (x : A) l newer p older :
  x :: l = newer ++ p :: older ->
  (newer = [] /\ p = x /\ older = l)
  \/ (exists newer', newer = x :: newer' /\ l = newer' ++ p :: older).
Proof.
  destruct newer as [|y newer]; simpl; intros [= -> ->]; [by left|right; eauto].
Qed.

Lemma some_or_none {A} (f : A -> bool) (l : list A) :
  (exists x, x ∈ l /\ f x = true) \/ (forall x, x ∈ l -> f x = false).
Proof.
  induction l as [|y l [(x & Hx & Hf)|IH]].
  - right. intros x Hx. by apply elem_of_nil in Hx.
  - left. exists x. split; [by apply list_elem_of_further|done].
  - destruct (f y) eqn:Hy.
    + left. exists y. split; [apply list_elem_of_here|done].
    + right. intros x Hx. apply elem_of_cons in Hx as [->|Hx]; [done|by apply IH].
Qed.

Lemma about_same a b e : about a e = true -> about b e = false -> a <> b.
Proof.
  intros Ha Hb ->. congruence.
Qed.

Lemma about_callback a b d : about a (EvCallback b d) = true -> a = b.
Proof. simpl. intros H. by apply bool_decide_eq_true in H. Qed.

Lemma before_not_notAfter sigma a b :
  before sigma a b -> notAfter sigma b a -> False.
Proof.
  rewrite <- compare_before. unfold notAfter, compare. repeat case_match; lia.
Qed.

(** States that differ in other variables only. *)
Lemma Hist_frame s s' :
  store s' = store s -> nextRef s' = nextRef s ->
  taskQueue s' = taskQueue s -> timerQueue s' = timerQueue s ->
  log s' = log s ->
  Hist s -> Hist s'.
Proof.
  intros H1 H2 H3 H4 H5 [].
  split; rewrite ?H1, ?H2, ?H3, ?H4, ?H5; done.
Qed.

Lemma Good_frame s s' :
  store s' = store s -> nextRef s' = nextRef s ->
  taskQueue s' = taskQueue s -> timerQueue s' = timerQueue s ->
  log s' = log s ->
  Good s -> Good s'.
Proof.
  intros H1 H2 H3 H4 H5 [HI HH]. split.
  - by apply (Inv_frame s).
  - by apply (Hist_frame s).
Qed.

Lemma Hist_initial time : Hist (initial time).
Proof.
  split; simpl.
  - intros x r Hx. by apply elem_of_nil in Hx.
  - intros x r Hx. by apply elem_of_nil in Hx.
  - intros x Hx. by apply elem_of_nil in Hx.
  - intros x r Hx. by apply elem_of_nil in Hx.
  - intros newer p older a H. by destruct newer.
  - intros c r Hc. by apply elem_of_nil in Hc.
  - intros newer d mid p older a b dt H. by destruct newer.
  - intros newer d older a b dt H. by destruct newer.
  - intros newer d mid c older r dt H. by destruct newer.
Qed.

Lemma Good_initial time : Good (initial time).
Proof. split; [apply Inv_initial|apply Hist_initial]. Qed.

(** A step that leaves the log alone. The sort index and id may change
    only for tasks of the pending queue or new ones; the pending queue
    gains only new tasks; a ready task with a function stays so, unless the
    newest entry of the log is about it; a task cancelled from outside its
    callback gets no function. *)
Lemma Hist_silent s s' :
  log s' = log s ->
  (nextRef s <= nextRef s')%nat ->
  (forall r, (r < nextRef s)%nat -> r ∉ timerQueue s ->
     sortIndex (store s' r) = sortIndex (store s r) /\ id (store s' r) = id (store s r)) ->
  (forall r, r ∈ timerQueue s' -> r ∈ timerQueue s \/ (nextRef s <= r)%nat) ->
  (forall a, a ∈ taskQueue s -> isFunction (callback (store s a)) = true ->
     (a ∈ taskQueue s' /\ isFunction (callback (store s' a)) = true)
     \/ (exists x rest, log s = x :: rest /\ about a x.1 = true)) ->
  (forall c r, c ∈ log s -> cancels_idle r c ->
     isFunction (callback (store s r)) = false ->
     isFunction (callback (store s' r)) = false) ->
  Hist s -> Hist s'.
Proof.
  intros Hlog Hnext Hkeys Htimers Hready Hcancel [F A N T W C O L K].
  split; rewrite ?Hlog.
  - intros x r Hx Hr. destruct (F x r Hx Hr) as [<- <-].
    apply Hkeys; [by apply (A x)|by apply (T x)].
  - intros x r Hx Hr. specialize (A x r Hx Hr). lia.
  - intros x Hx. specialize (N x Hx). lia.
  - intros x r Hx Hr Hin. destruct (Htimers r Hin) as [H|H].
    + by apply (T x r).
    + specialize (A x r Hx Hr). lia.
  - intros newer p older a Hsplit Hp Hnone.
    destruct (W newer p older a Hsplit Hp Hnone) as [W1 W2].
    destruct (Hready a W1 W2) as [H|(x & rest & Hx & Habout)]; [done|].
    rewrite Hx in Hsplit. rewrite (Hnone x) in Habout; [done|].
    destruct newer as [|y newer]; simpl in Hsplit; injection Hsplit as -> _.
    + apply list_elem_of_here.
    + apply list_elem_of_here.
  - intros c r Hc Hidle. apply (Hcancel c r Hc Hidle). by apply (C c).
  - done.
  - done.
  - done.
Qed.

(** A step that adds an entry to the log and, when the entry is about a
    task, clears the callback of that task. The callback of a task is only
    called when the task is the head of the ready queue and has a
    function. *)
Lemma Hist_event e s s' :
  Inv s -> Hist s ->
  log s' = (e, snapshot s) :: log s ->
  nextRef s' = nextRef s -> taskQueue s' = taskQueue s ->
  timerQueue s' = timerQueue s ->
  (forall a, sortIndex (store s' a) = sortIndex (store s a)
             /\ id (store s' a) = id (store s a)) ->
  (forall a, about a e = false -> callback (store s' a) = callback (store s a)) ->
  (forall a, about a e = true -> isFunction (callback (store s' a)) = false) ->
  (forall b d, e = EvCallback b d ->
     peek (taskQueue s) = Some b /\ isFunction (callback (store s b)) = true) ->
  Hist s'.
Proof.
  intros [I1 I2 I3 I4] [F A N T W C O L K] Hlog Hnext Htq Htm Hkeys Hother Hclear Hcall.
  split; rewrite ?Hlog, ?Hnext, ?Htq, ?Htm.
  - intros x r Hx Hr. destruct (Hkeys r) as [-> ->].
    apply elem_of_cons in Hx as [->|Hx]; [done|by apply (F x)].
  - intros x r Hx Hr. apply elem_of_cons in Hx as [->|Hx]; [|by apply (A x)].
    apply I4, elem_of_app. by left.
  - intros x Hx. apply elem_of_cons in Hx as [->|Hx]; [done|by apply N].
  - intros x r Hx Hr. apply elem_of_cons in Hx as [->|Hx]; [|by apply (T x)].
    apply list.NoDup_app in I3 as (_ & N2 & _). by apply N2.
  - intros newer p older a Hsplit [Hp1 Hp2] Hnone.
    assert (Hne : about a e = false).
    { apply (Hnone (e, snapshot s)).
      destruct newer as [|y newer]; simpl in Hsplit; injection Hsplit as <- _;
        apply list_elem_of_here. }
    rewrite (Hother a Hne).
    apply cons_split in Hsplit as [(-> & -> & ->)|(newer' & -> & Hsplit)].
    + done.
    + apply (W newer' p older a Hsplit); [done|].
      intros x Hx. apply Hnone. simpl. by apply list_elem_of_further.
  - intros c r Hc Hidle. destruct (about r e) eqn:Hab; [by apply Hclear|].
    rewrite (Hother r Hab).
    apply elem_of_cons in Hc as [->|Hc]; [|by apply (C c)].
    destruct Hidle as (He & _). simpl in He. subst e. simpl in Hab.
    by rewrite bool_decide_eq_false in Hab.
  - intros newer d mid p older a b dt Hsplit Hd Ha Hb Hbefore.
    apply cons_split in Hsplit as [(-> & -> & Hrest)|(newer' & -> & Hsplit)];
      [|by apply (O newer' d mid p older a b dt)].
    simpl in Hd. destruct (Hcall b dt Hd) as [Hpeek Hfun].
    destruct (some_or_none (fun x => about a x.1) (mid ++ [p]))
      as [Hsome|Hnone]; [done|].
    exfalso. symmetry in Hrest.
    destruct (W mid p older a Hrest Ha Hnone) as [W1 W2].
    assert (Hp : p ∈ log s) by (rewrite Hrest; apply elem_of_app; right; apply list_elem_of_here).
    destruct Ha as [Ha _].
    destruct (F p a Hp Ha) as [Fa1 Fa2]. destruct (F p b Hp Hb) as [Fb1 Fb2].
    apply (before_not_notAfter (store s) a b).
    + unfold before in *. rewrite Fa1, Fa2, Fb1, Fb2. done.
    + by apply (peek_min (store s) (taskQueue s)).
  - intros newer d older a b dt Hsplit Hd Ha Hbefore.
    apply cons_split in Hsplit as [(-> & -> & Hrest)|(newer' & -> & Hsplit)];
      [|by apply (L newer' d older a b dt)].
    simpl in *. destruct (Hcall b dt Hd) as [Hpeek Hfun].
    apply (before_not_notAfter (store s) a b); [done|].
    by apply (peek_min (store s) (taskQueue s)).
  - intros newer d mid c older r dt Hsplit Hd Hidle.
    apply cons_split in Hsplit as [(-> & -> & Hrest)|(newer' & -> & Hsplit)];
      [|by apply (K newer' d mid c older r dt)].
    simpl in Hd. destruct (Hcall r dt Hd) as [Hpeek Hfun].
    rewrite (C c r) in Hfun; [done| |done].
    rewrite <- Hrest. apply elem_of_app. right. apply list_elem_of_here.
Qed.

End HistFacts.

(** * The steps of the scheduler keep the state good *)

Module StepFacts.
Import MinHeap MinHeapFacts InvFacts HistFacts.

(** Reduces a goal about a state to the same goal about a state that
    differs in the variables the property does not read. *)
Ltac same_as s0 :=
  first [ apply (Good_frame s0); [reflexivity ..|]
        | apply (Inv_frame s0); [reflexivity ..|]
        | apply (Hist_frame s0); [reflexivity ..|] ].

Lemma Good_emit e s :
  (forall a, about a e = false) -> Good s -> Good (emit e s).
Proof.
  intros Hab [HI HH]. split.
  - by apply (Inv_frame s).
  - apply (Hist_event e s); try done.
    + intros a Ha. by rewrite Hab in Ha.
    + intros b d ->. specialize (Hab b). simpl in Hab.
      by rewrite bool_decide_eq_false in Hab.
Qed.

Lemma Good_requestHostCallback s : Good s -> Good (requestHostCallback s).
Proof.
  intros H. unfold requestHostCallback.
  case_match; same_as (emit EvRequestHostCallback s); by apply Good_emit.
Qed.

Lemma Good_requestHostTimeout ms s : Good s -> Good (requestHostTimeout ms s).
Proof.
  intros H. same_as (emit (EvRequestHostTimeout ms) s). by apply Good_emit.
Qed.

Lemma Good_cancelHostTimeout s : Good s -> Good (cancelHostTimeout s).
Proof.
  intros H. same_as (emit EvCancelHostTimeout s). by apply Good_emit.
Qed.

Lemma fn_insert_same (sigma : Store) (r : ref) (t : Task) : <[r := t]> sigma r = t.
Proof. unfold insert, fn_insert. by rewrite decide_True. Qed.

Lemma fn_insert_other (sigma : Store) (r r' : ref) (t : Task) :
  r <> r' -> <[r := t]> sigma r' = sigma r'.
Proof. intros H. unfold insert, fn_insert. by rewrite decide_False. Qed.

Lemma Good_cancel task s : Good s -> Good (unstable_cancelCallback task s).
Proof.
  intros [HI HH]. split.
  - apply Inv_write_callback. by apply (Inv_frame s).
  - apply (Hist_event (EvCancel task) s); try done.
    + intros a. simpl. destruct (decide (task = a)) as [->|Hne].
      * by rewrite fn_insert_same.
      * by rewrite fn_insert_other.
    + intros a Ha. simpl in *. apply bool_decide_eq_false in Ha.
      by rewrite fn_insert_other.
    + intros a Ha. simpl in *. apply bool_decide_eq_true in Ha. subst a.
      by rewrite fn_insert_same.
Qed.

(** The three statements of [workLoop] before the call of the callback. *)
Lemma Good_dispatch task d pl s :
  Good s -> peek (taskQueue s) = Some task ->
  isFunction (callback (store s task)) = true ->
  Good (set_currentPriorityLevel pl
          (write_callback task CNull (emit (EvCallback task d) s))).
Proof.
  intros [HI HH] Hpeek Hfun.
  same_as (write_callback task CNull (emit (EvCallback task d) s)). split.
  - apply Inv_write_callback. by apply (Inv_frame s).
  - apply (Hist_event (EvCallback task d) s); try done.
    + intros a. simpl. destruct (decide (task = a)) as [->|Hne].
      * by rewrite fn_insert_same.
      * by rewrite fn_insert_other.
    + intros a Ha. simpl in *. apply bool_decide_eq_false in Ha.
      by rewrite fn_insert_other.
    + intros a Ha. simpl in *. apply bool_decide_eq_true in Ha. subst a.
      by rewrite fn_insert_same.
    + by intros b d' [= <- <-].
Qed.

(** Popping a head of the ready queue that has no function to call. *)
Lemma Good_pop_taskQueue task s :
  Good s -> peek (taskQueue s) = Some task ->
  isFunction (callback (store s task)) = false ->
  Good (pop_taskQueue s).
Proof.
  intros [HI HH] Hpeek Hfun.
  destruct (Inv_pop_taskQueue s task HI Hpeek) as [HI' Hperm].
  split; [done|].
  apply (Hist_silent s); [done|done|done|by left| |done|done].
  intros a Ha Hfa. left. split; [|done].
  rewrite <- Hperm in Ha. apply elem_of_cons in Ha as [->|Ha]; [congruence|done].
Qed.

Lemma Good_pop_timerQueue task s :
  Good s -> peek (timerQueue s) = Some task -> Good (pop_timerQueue s).
Proof.
  intros [HI HH] Hpeek.
  destruct (Inv_pop_timerQueue s task HI Hpeek) as [HI' Hperm].
  split; [done|].
  apply (Hist_silent s); [done|done|done| |by left|done|done].
  intros r Hr. left. rewrite <- Hperm. by apply list_elem_of_further.
Qed.

(** A timer fires: it goes from the pending queue to the ready queue. *)
Lemma Good_promote timer v s :
  Good s -> peek (timerQueue s) = Some timer ->
  Good (push_taskQueue timer (write_sortIndex timer v (pop_timerQueue s))).
Proof.
  intros [HI HH] Hpeek.
  destruct (Inv_pop_timerQueue s timer HI Hpeek) as [HI' Hperm].
  assert (Hin : timer ∈ timerQueue s) by by apply peek_elem.
  assert (Hnot : timer ∉ taskQueue (pop_timerQueue s) ++ timerQueue (pop_timerQueue s)).
  { destruct HI as [_ _ I3 _]. apply list.NoDup_app in I3 as (N1 & N2 & N3).
    rewrite <- Hperm in N3. apply list.NoDup_cons in N3 as [N3 _].
    rewrite not_elem_of_app. split; [|done]. simpl. intros Ht. by apply (N2 timer). }
  assert (Hlt : (timer < nextRef (pop_timerQueue s))%nat).
  { simpl. apply (inv_alloc s HI), elem_of_app. by right. }
  destruct (Inv_push_taskQueue timer v _ HI' Hnot Hlt) as [HI'' Hperm'].
  split; [done|]. apply (Hist_silent s); [done|done| | | | |done].
  - intros r Hr Hne. simpl. rewrite fn_insert_other; [done|]. by intros <-.
  - intros r Hr. left. simpl in Hr. rewrite <- Hperm. by apply list_elem_of_further.
  - intros a Ha Hfa. left. split.
    + rewrite Hperm'. by apply list_elem_of_further.
    + simpl. destruct (decide (timer = a)) as [->|Hne].
      * by rewrite fn_insert_same.
      * by rewrite fn_insert_other.
  - intros c r Hc Hidle Hf. simpl. destruct (decide (timer = r)) as [->|Hne].
    + by rewrite fn_insert_same.
    + by rewrite fn_insert_other.
Qed.

(** A continuation is stored in a task that was not cancelled from
    outside its callback. *)
Lemma Good_continuation task f s :
  Good s -> not_cancelled_idle (Some task) (log s) ->
  Good (write_callback task (CFunction f) s).
Proof.
  intros [HI HH] Hnot. split; [by apply Inv_write_callback|].
  apply (Hist_silent s); [done|done| |by left| | |done].
  - intros r _ _. simpl. destruct (decide (task = r)) as [->|Hne].
    + by rewrite fn_insert_same.
    + by rewrite fn_insert_other.
  - intros a Ha Hfa. left. split; [done|]. simpl.
    destruct (decide (task = a)) as [->|Hne].
    + by rewrite fn_insert_same.
    + by rewrite fn_insert_other.
  - intros c r Hc Hidle Hf. simpl. destruct (decide (task = r)) as [->|Hne].
    + by destruct (Hnot r c).
    + by rewrite fn_insert_other.
Qed.

End StepFacts.

(** * The public API keeps the state good *)

Module ApiFacts.
Import MinHeap MinHeapFacts InvFacts HistFacts StepFacts.

Lemma extends_refl s : extends s s.
Proof. split; [done|]. exists []. split; [done|]. intros x Hx. by apply elem_of_nil in Hx. Qed.

Lemma extends_trans s1 s2 s3 : extends s1 s2 -> extends s2 s3 -> extends s1 s3.
Proof.
  intros [H1 (new1 & L1 & F1)] [H2 (new2 & L2 & F2)]. split; [congruence|].
  exists (new2 ++ new1). split.
  - by rewrite L2, L1, app_assoc.
  - intros x Hx. apply elem_of_app in Hx as [Hx|Hx].
    + rewrite <- H1. by apply F2.
    + by apply F1.
Qed.

Lemma extends_frame s s' :
  currentTask s' = currentTask s -> log s' = log s -> extends s s'.
Proof.
  intros H1 H2. split; [done|]. exists []. split; [done|].
  intros x Hx. by apply elem_of_nil in Hx.
Qed.

Lemma extends_emit e s : extends s (emit e s).
Proof.
  split; [done|]. exists [(e, snapshot s)]. split; [done|].
  intros x Hx. apply list_elem_of_singleton in Hx. by subst x.
Qed.

(** A step after an [emit] that changes neither the log nor
    [currentTask]. *)
Lemma extends_emit_frame e s s' :
  currentTask s' = currentTask s -> log s' = (e, snapshot s) :: log s ->
  extends s s'.
Proof.
  intros H1 H2. split; [done|]. exists [(e, snapshot s)]. split; [done|].
  intros x Hx. apply list_elem_of_singleton in Hx. by subst x.
Qed.

Lemma Running_extends cur s s' :
  Running cur s -> Good s' -> extends s s' -> Running cur s'.
Proof.
  intros (HG & Hcur & Hnot) HG' [Hc (new & Hlog & Hnew)].
  split; [done|]. split; [congruence|].
  intros task c -> Hin Hidle. rewrite Hlog in Hin.
  apply elem_of_app in Hin as [Hin|Hin].
  - destruct Hidle as (_ & _ & Hne). apply Hne. rewrite (Hnew c Hin). done.
  - by apply (Hnot task c).
Qed.

Lemma extends_requestHostCallback s : extends s (requestHostCallback s).
Proof.
  unfold requestHostCallback.
  case_match; by apply (extends_emit_frame EvRequestHostCallback).
Qed.

Lemma extends_requestHostTimeout ms s : extends s (requestHostTimeout ms s).
Proof. by apply (extends_emit_frame (EvRequestHostTimeout ms)). Qed.

Lemma extends_cancelHostTimeout s : extends s (cancelHostTimeout s).
Proof. by apply (extends_emit_frame EvCancelHostTimeout). Qed.

Lemma extends_cancel task s : extends s (unstable_cancelCallback task s).
Proof. by apply (extends_emit_frame (EvCancel task)). Qed.

Lemma Inv_newTask pl cb st ex s : Inv s -> Inv (schedule_newTask pl cb st ex s).
Proof.
  intros [I1 I2 I3 I4]. split; simpl; try done.
  - eapply heap_ordered_ext; [|exact I1]. intros r Hr.
    rewrite fn_insert_other; [done|]. intros <-.
    assert (nextRef s < nextRef s)%nat; [|lia]. apply I4, elem_of_app. by left.
  - eapply heap_ordered_ext; [|exact I2]. intros r Hr.
    rewrite fn_insert_other; [done|]. intros <-.
    assert (nextRef s < nextRef s)%nat; [|lia]. apply I4, elem_of_app. by right.
  - intros r Hr. specialize (I4 r Hr). lia.
Qed.

(** A new task record, and its push into the ready queue. *)
Lemma Good_new_ready pl cb st ex v s :
  Good s ->
  Good (push_taskQueue (nextRef s)
          (write_sortIndex (nextRef s) v (schedule_newTask pl cb st ex s))).
Proof.
  intros [HI HH].
  pose proof (Inv_newTask pl cb st ex s HI) as HI4.
  assert (Hfresh : nextRef s ∉ taskQueue (schedule_newTask pl cb st ex s)
                              ++ timerQueue (schedule_newTask pl cb st ex s)).
  { simpl. intros Hin. pose proof (inv_alloc s HI _ Hin). lia. }
  destruct (Inv_push_taskQueue (nextRef s) v _ HI4 Hfresh) as [HI' Hperm];
    [simpl; lia|].
  split; [done|]. apply (Hist_silent s); [done|simpl; lia| |by left| | |done].
  - intros r Hr _. simpl. rewrite !fn_insert_other by lia. done.
  - intros a Ha Hfa. left. split.
    + rewrite Hperm. by apply list_elem_of_further.
    + assert (a < nextRef s)%nat by (apply (inv_alloc s HI), elem_of_app; by left).
      simpl. rewrite !fn_insert_other by lia. done.
  - intros x r Hx (_ & Hlt & _) Hf. pose proof (hist_nextRef s HH x Hx).
    simpl. rewrite !fn_insert_other by lia. done.
Qed.

(** A new task record, and its push into the pending queue. *)
Lemma Good_new_pending pl cb st ex v s :
  Good s ->
  Good (push_timerQueue (nextRef s)
          (write_sortIndex (nextRef s) v (schedule_newTask pl cb st ex s))).
Proof.
  intros [HI HH].
  pose proof (Inv_newTask pl cb st ex s HI) as HI4.
  assert (Hfresh : nextRef s ∉ taskQueue (schedule_newTask pl cb st ex s)
                              ++ timerQueue (schedule_newTask pl cb st ex s)).
  { simpl. intros Hin. pose proof (inv_alloc s HI _ Hin). lia. }
  destruct (Inv_push_timerQueue (nextRef s) v _ HI4 Hfresh) as [HI' Hperm];
    [simpl; lia|].
  split; [done|]. apply (Hist_silent s); [done|simpl; lia| | | | |done].
  - intros r Hr _. simpl. rewrite !fn_insert_other by lia. done.
  - intros r Hr. rewrite Hperm in Hr.
    apply elem_of_cons in Hr as [->|Hr]; [right; lia|by left].
  - intros a Ha Hfa. left. split; [done|].
    assert (a < nextRef s)%nat by (apply (inv_alloc s HI), elem_of_app; by left).
    simpl. rewrite !fn_insert_other by lia. done.
  - intros x r Hx (_ & Hlt & _) Hf. pose proof (hist_nextRef s HH x Hx).
    simpl. rewrite !fn_insert_other by lia. done.
Qed.

Lemma Good_schedule pl cb o s :
  Good s -> Good (unstable_scheduleCallback pl cb o s).2.
Proof.
  intros HG. unfold unstable_scheduleCallback.
  set (st := schedule_startTime o (getCurrentTime s)).
  set (ex := st + schedule_timeout pl).
  set (s1 := emit (EvSchedule (nextRef s)) s).
  assert (HG1 : Good s1) by by apply Good_emit.
  destruct (st >? getCurrentTime s); cbn [snd].
  - unfold schedule_delayed.
    pose proof (Good_new_pending pl cb st ex st s1 HG1) as HG2.
    set (s2 := push_timerQueue (nextRef s1) _) in *.
    case_match; [|done]. apply Good_requestHostTimeout.
    case_match; [by apply Good_cancelHostTimeout|by same_as s2].
  - unfold schedule_immediate.
    pose proof (Good_new_ready pl cb st ex ex s1 HG1) as HG2.
    set (s2 := push_taskQueue (nextRef s1) _) in *.
    case_match; [|done]. apply Good_requestHostCallback. by same_as s2.
Qed.

Lemma extends_schedule pl cb o s : extends s (unstable_scheduleCallback pl cb o s).2.
Proof.
  unfold unstable_scheduleCallback.
  set (st := schedule_startTime o (getCurrentTime s)).
  set (ex := st + schedule_timeout pl).
  set (s1 := emit (EvSchedule (nextRef s)) s).
  apply (extends_trans s s1); [apply extends_emit|].
  destruct (st >? getCurrentTime s); cbn [snd].
  - unfold schedule_delayed.
    set (s2 := push_timerQueue (nextRef s1) _).
    assert (H2 : extends s1 s2) by by apply extends_frame.
    case_match; [|done].
    eapply extends_trans; [exact H2|].
    eapply extends_trans; [|apply extends_requestHostTimeout].
    case_match; [apply extends_cancelHostTimeout|by apply extends_frame].
  - unfold schedule_immediate.
    set (s2 := push_taskQueue (nextRef s1) _).
    assert (H2 : extends s1 s2) by by apply extends_frame.
    case_match; [|done].
    eapply extends_trans; [exact H2|].
    eapply extends_trans; [|apply extends_requestHostCallback].
    by apply extends_frame.
Qed.

(** What [unstable_scheduleCallback] leaves alone. *)
Lemma schedule_nextRef pl cb o s :
  (unstable_scheduleCallback pl cb o s).1 = nextRef s
  /\ nextRef (unstable_scheduleCallback pl cb o s).2 = S (nextRef s).
Proof.
  unfold unstable_scheduleCallback.
  case_match; cbn [fst snd]; unfold schedule_delayed, schedule_immediate;
    unfold requestHostCallback; repeat case_match; simpl; done.
Qed.

Lemma schedule_store_old pl cb o s r :
  r <> nextRef s -> store (unstable_scheduleCallback pl cb o s).2 r = store s r.
Proof.
  intros Hne. unfold unstable_scheduleCallback.
  case_match; cbn [snd]; unfold schedule_delayed, schedule_immediate;
    unfold requestHostCallback; repeat case_match; simpl; unfold insert, fn_insert;
    rewrite !decide_False by done; done.
Qed.

(** ** Every call into the API keeps [Running] *)

Lemma Running_frame cur s s' :
  store s' = store s -> nextRef s' = nextRef s ->
  taskQueue s' = taskQueue s -> timerQueue s' = timerQueue s ->
  log s' = log s -> currentTask s' = currentTask s ->
  Running cur s -> Running cur s'.
Proof.
  intros H1 H2 H3 H4 H5 H6 HR. apply (Running_extends cur s); [done| |].
  - apply (Good_frame s); try done. by destruct HR.
  - by apply extends_frame.
Qed.

Lemma Running_schedule cur pl cb o s :
  Running cur s -> Running cur (unstable_scheduleCallback pl cb o s).2.
Proof.
  intros HR. apply (Running_extends cur s); [done| |].
  - apply Good_schedule. by destruct HR.
  - apply extends_schedule.
Qed.

Lemma Running_cancel cur task s :
  Running cur s -> Running cur (unstable_cancelCallback task s).
Proof.
  intros HR. apply (Running_extends cur s); [done| |].
  - apply Good_cancel. by destruct HR.
  - apply extends_cancel.
Qed.

Lemma Running_continueExecution cur s :
  Running cur s -> Running cur (unstable_continueExecution s).
Proof.
  intros HR. unfold unstable_continueExecution.
  case_match; [|by apply (Running_frame cur s)].
  apply (Running_extends cur s); [done| |].
  - apply Good_requestHostCallback. apply (Good_frame s); try done. by destruct HR.
  - eapply extends_trans; [|apply extends_requestHostCallback].
    by apply extends_frame.
Qed.

Lemma Running_forceFrameRate cur fps s :
  Running cur s -> Running cur (forceFrameRate fps s).
Proof.
  intros HR. unfold forceFrameRate.
  repeat case_match; try by apply (Running_frame cur s).
  apply (Running_extends cur s); [done| |].
  - apply Good_emit; [done|]. by destruct HR.
  - apply extends_emit.
Qed.

Lemma Running_requestPaint cur s : Running cur s -> Running cur (requestPaint s).
Proof.
  intros HR. unfold requestPaint. case_match; [|done]. by apply (Running_frame cur s).
Qed.

(** A property of states that every step of user code keeps is kept by
    user code. *)
Lemma run_preserves (P : State -> Prop) :
  (forall s ms, P s -> P (set_now (now s + Z.of_nat ms) s)) ->
  (forall s pl cb o, P s -> P (unstable_scheduleCallback pl cb o s).2) ->
  (forall s task, P s -> P (unstable_cancelCallback task s)) ->
  (forall s pl, P s -> P (set_currentPriorityLevel pl s)) ->
  (forall s, P s -> P (unstable_pauseExecution s)) ->
  (forall s, P s -> P (unstable_continueExecution s)) ->
  (forall s, P s -> P (requestPaint s)) ->
  (forall s fps, P s -> P (forceFrameRate fps s)) ->
  forall p s, P s -> P (run p s).2.
Proof.
  intros Hnow Hsched Hcancel Hprio Hpause Hcont Hpaint Hforce.
  assert (Hhandler : forall (h k : Prog) pl pl',
    (forall s, P s -> P (run h s).2) -> (forall s, P s -> P (run k s).2) ->
    forall s, P s ->
    P (match try_finally_restore pl' (run h) (set_currentPriorityLevel pl s) with
       | (Normal _, s) => run k s
       | (Abrupt, s) => (Abrupt, s)
       end).2).
  { intros h k pl pl' IHh IHk s Hs. unfold try_finally_restore.
    specialize (IHh (set_currentPriorityLevel pl s) (Hprio _ _ Hs)).
    destruct (run h (set_currentPriorityLevel pl s)) as [[v|] s'];
      simpl in *; [apply IHk|]; by apply Hprio. }
  induction p as [| f IHf | | ms k IHk | pl cb IHcb o k IHk | pl isNull o k IHk | task k IHk
    | pl h IHh k IHk | h IHh k IHk | pl h IHh k IHk | k IHk | k IHk | k IHk | k IHk
    | k IHk | k IHk | k IHk | fps k IHk];
    intros s Hs; cbn [run]; try done.
  - apply IHk. by apply Hnow.
  - specialize (Hsched s pl (CFunction cb) o Hs).
    destruct (unstable_scheduleCallback _ _ _ s) as [task s']. by apply IHk.
  - specialize (Hsched s pl (if isNull then CNull else COther) o Hs).
    destruct (unstable_scheduleCallback _ _ _ s) as [task s']. by apply IHk.
  - apply IHk. by apply Hcancel.
  - by apply Hhandler.
  - by apply Hhandler.
  - unfold unstable_wrapCallback.
    change (currentPriorityLevel (set_currentPriorityLevel pl s)) with pl.
    by apply Hhandler.
  - apply IHk. by apply Hpause.
  - apply IHk. by apply Hcont.
  - by apply IHk.
  - by apply IHk.
  - by apply IHk.
  - apply IHk. by apply Hpaint.
  - by apply IHk.
  - apply IHk. by apply Hforce.
Qed.

Lemma run_Running cur p s : Running cur s -> Running cur (run p s).2.
Proof.
  apply run_preserves; clear s.
  - intros s ms HR. by apply (Running_frame cur s).
  - intros s pl cb o. apply Running_schedule.
  - intros s task. apply Running_cancel.
  - intros s pl HR. by apply (Running_frame cur s).
  - intros s HR. by apply (Running_frame cur s).
  - intros s. apply Running_continueExecution.
  - intros s. apply Running_requestPaint.
  - intros s fps. apply Running_forceFrameRate.
Qed.

End ApiFacts.

(** * The work loop keeps the state good *)

Module LoopFacts.
Import MinHeap MinHeapFacts InvFacts HistFacts StepFacts ApiFacts.

Lemma Good_advanceTimers_loop fuel currentTime : forall s,
  Good s -> Good (advanceTimers_loop fuel currentTime s).
Proof.
  induction fuel as [|fuel IH]; intros s HG; cbn [advanceTimers_loop]; [done|].
  destruct (peek (timerQueue s)) as [timer|] eqn:Hpeek; [|done].
  assert (Hpop : Good (pop_timerQueue s)) by by apply (Good_pop_timerQueue timer).
  assert (Hfire : Good (push_taskQueue timer
            (write_sortIndex timer (expirationTime (store (pop_timerQueue s) timer))
               (pop_timerQueue s)))) by by apply Good_promote.
  destruct (callback (store s timer)); [by apply IH| |];
    (case_match; [by apply IH|done]).
Qed.

Lemma advanceTimers_loop_frame fuel currentTime : forall s,
  log (advanceTimers_loop fuel currentTime s) = log s
  /\ currentTask (advanceTimers_loop fuel currentTime s) = currentTask s.
Proof.
  induction fuel as [|fuel IH]; intros s; cbn [advanceTimers_loop]; [done|].
  repeat case_match; try done.
  - by destruct (IH (pop_timerQueue s)).
  - match goal with |- context[advanceTimers_loop fuel currentTime ?s0] =>
      by destruct (IH s0) end.
  - match goal with |- context[advanceTimers_loop fuel currentTime ?s0] =>
      by destruct (IH s0) end.
Qed.

Lemma Good_advanceTimers currentTime s : Good s -> Good (advanceTimers currentTime s).
Proof. apply Good_advanceTimers_loop. Qed.

Lemma extends_advanceTimers currentTime s : extends s (advanceTimers currentTime s).
Proof.
  destruct (advanceTimers_loop_frame (length (timerQueue s)) currentTime s).
  by apply extends_frame.
Qed.

Lemma Good_handleTimeout currentTime s : Good s -> Good (handleTimeout currentTime s).
Proof.
  intros HG. unfold handleTimeout.
  set (s1 := advanceTimers currentTime (set_isHostTimeoutScheduled false s)).
  assert (HG1 : Good s1).
  { apply Good_advanceTimers. by same_as s. }
  repeat case_match; try done.
  - apply Good_requestHostCallback. by same_as s1.
  - by apply Good_requestHostTimeout.
Qed.

Lemma handleTimeout_currentTask currentTime s :
  currentTask (handleTimeout currentTime s) = currentTask s.
Proof.
  unfold handleTimeout.
  set (s1 := advanceTimers currentTime (set_isHostTimeoutScheduled false s)).
  assert (H1 : currentTask s1 = currentTask s).
  { unfold s1, advanceTimers. by rewrite (proj2 (advanceTimers_loop_frame _ _ _)). }
  repeat case_match; try done.
  - unfold requestHostCallback. by case_match.
Qed.

(** While user code runs, a task that has no function gets none. *)
Lemma run_no_function task p s :
  (task < nextRef s)%nat -> isFunction (callback (store s task)) = false ->
  isFunction (callback (store (run p s).2 task)) = false.
Proof.
  intros Hlt Hf.
  apply (run_preserves (fun s => (task < nextRef s)%nat
           /\ isFunction (callback (store s task)) = false)); [..|done]; clear.
  - by intros s ms.
  - intros s pl cb o [Hlt Hf]. destruct (schedule_nextRef pl cb o s) as [_ ->].
    split; [lia|]. rewrite schedule_store_old by lia. done.
  - intros s task' [Hlt Hf]. split; [done|]. simpl.
    destruct (decide (task' = task)) as [->|Hne].
    + by rewrite fn_insert_same.
    + by rewrite fn_insert_other.
  - by intros s pl.
  - by intros s.
  - intros s [Hlt Hf]. unfold unstable_continueExecution, requestHostCallback.
    by repeat case_match.
  - intros s [Hlt Hf]. unfold requestPaint. by case_match.
  - intros s fps [Hlt Hf]. unfold forceFrameRate. by repeat case_match.
Qed.

(** The turn of the loop for a task that has a function, spelled out. *)
Lemma workLoop_turn_function task currentTime s f :
  callback (store s task) = CFunction f ->
  workLoop_turn task currentTime s =
    let d := expirationTime (store s task) <=? currentTime in
    let s1 := set_currentPriorityLevel (priorityLevel (store s task))
                (write_callback task CNull (emit (EvCallback task d) s)) in
    match run (f d) s1 with
    | (Abrupt, s2) => TurnThrow s2
    | (Normal v, s2) =>
        let s3 :=
          match v with
          | VFunction g => write_callback task (CFunction g) s2
          | VOther =>
              if bool_decide (Some task = peek (taskQueue s2))
              then pop_taskQueue s2 else s2
          end in
        let s4 := advanceTimers (getCurrentTime s2) s3 in
        TurnDone (getCurrentTime s2) (set_currentTask (peek (taskQueue s4)) s4)
    end.
Proof.
  intros Hcb. unfold workLoop_turn. rewrite Hcb. simpl.
  rewrite fn_insert_same. simpl. reflexivity.
Qed.

Lemma workLoop_turn_other task currentTime s :
  isFunction (callback (store s task)) = false ->
  workLoop_turn task currentTime s =
    TurnDone currentTime
      (set_currentTask (peek (taskQueue (pop_taskQueue s))) (pop_taskQueue s)).
Proof. intros Hcb. unfold workLoop_turn. by destruct (callback (store s task)). Qed.

(** One turn of the loop. *)
Lemma Good_turn task currentTime s :
  Good s -> currentTask s = Some task -> peek (taskQueue s) = Some task ->
  match workLoop_turn task currentTime s with
  | TurnDone _ s' => Good s' /\ currentTask s' = peek (taskQueue s')
  | TurnThrow s' => Good s' /\ currentTask s' = Some task
  end.
Proof.
  intros HG Hcur Hpeek.
  destruct (isFunction (callback (store s task))) eqn:Hfun.
  2:{ rewrite workLoop_turn_other by done. split; [|done].
      same_as (pop_taskQueue s). by apply (Good_pop_taskQueue task). }
  destruct (callback (store s task)) as [|f|] eqn:Hcb; try done.
  rewrite (workLoop_turn_function task currentTime s f Hcb). cbv zeta.
  set (d := expirationTime (store s task) <=? currentTime).
  set (s1 := set_currentPriorityLevel _ (write_callback task CNull (emit (EvCallback task d) s))).
  assert (HG1 : Good s1).
  { apply Good_dispatch; [done|done|]. by rewrite Hcb. }
  assert (HR1 : Running (Some task) s1).
  { split; [done|]. split; [done|]. intros task' c [= <-] Hc Hidle.
    apply elem_of_cons in Hc as [->|Hc].
    - by destruct Hidle as (He & _).
    - destruct HG as [_ HH]. pose proof (hist_cancelled s HH c task Hc Hidle) as Hx.
      rewrite Hcb in Hx. done. }
  assert (Hlt : (task < nextRef s1)%nat).
  { destruct HG as [HI _]. apply (inv_alloc s HI), elem_of_app. left. by apply peek_elem. }
  assert (Hclear : isFunction (callback (store s1 task)) = false).
  { simpl. by rewrite fn_insert_same. }
  pose proof (run_Running (Some task) (f d) s1 HR1) as HR2.
  pose proof (run_no_function task (f d) s1 Hlt Hclear) as Hclear2.
  destruct (run (f d) s1) as [[v|] s2]; cbn [snd] in *.
  2:{ by destruct HR2 as (? & ? & ?). }
  destruct HR2 as (HG2 & Hcur2 & Hnot2).
  split; [|done].
  match goal with |- Good (set_currentTask _ ?s0) => same_as s0 end.
  apply Good_advanceTimers.
  destruct v as [g|].
  - by apply Good_continuation.
  - case_bool_decide as Hhead; [|done]. by apply (Good_pop_taskQueue task).
Qed.

Lemma Good_workLoop_exit currentTime s o :
  Good s -> workLoop_exit currentTime s = o -> Good (outcome_state o).
Proof.
  intros HG <-. unfold workLoop_exit. repeat case_match; try done.
  by apply Good_requestHostTimeout.
Qed.

(** In this build the test of the pause flag in the loop condition is
    always passed. *)
Lemma workLoop_while_unfold fuel hasTimeRemaining currentTime s :
  workLoop_while fuel hasTimeRemaining currentTime s =
    match currentTask s with
    | Some task =>
        if reachedDeadline task hasTimeRemaining currentTime s then
          Some (workLoop_exit currentTime s)
        else
          match fuel with
          | O => None
          | S fuel' =>
              match workLoop_turn task currentTime s with
              | TurnDone currentTime s =>
                  workLoop_while fuel' hasTimeRemaining currentTime s
              | TurnThrow s => Some (Threw s)
              end
          end
    | None => Some (workLoop_exit currentTime s)
    end.
Proof. by destruct fuel. Qed.

Lemma Good_workLoop_while fuel hasTimeRemaining : forall currentTime s o,
  Good s -> currentTask s = peek (taskQueue s) ->
  workLoop_while fuel hasTimeRemaining currentTime s = Some o ->
  Good (outcome_state o).
Proof.
  induction fuel as [|fuel IH]; intros currentTime s o HG Hcur;
    rewrite workLoop_while_unfold; destruct (currentTask s) as [task|] eqn:Htask.
  - case_match; [|done]. intros [= <-]. by eapply Good_workLoop_exit.
  - intros [= <-]. by eapply Good_workLoop_exit.
  - case_match; [intros [= <-]; by eapply Good_workLoop_exit|].
    pose proof (Good_turn task currentTime s HG Htask (eq_sym Hcur)) as Hturn.
    destruct (workLoop_turn task currentTime s) as [t' s'|s'].
    + destruct Hturn as [HG' Hcur']. by apply IH.
    + intros [= <-]. by destruct Hturn.
  - intros [= <-]. by eapply Good_workLoop_exit.
Qed.

Lemma Good_workLoop fuel hasTimeRemaining initialTime s o :
  Good s -> workLoop fuel hasTimeRemaining initialTime s = Some o ->
  Good (outcome_state o).
Proof.
  intros HG. unfold workLoop. apply Good_workLoop_while; [|done].
  match goal with |- Good (set_currentTask _ ?s0) => same_as s0 end.
  by apply Good_advanceTimers.
Qed.

Lemma Idle_flushWork fuel hasTimeRemaining initialTime s o :
  Good s -> flushWork fuel hasTimeRemaining initialTime s = Some o ->
  Idle (outcome_state o).
Proof.
  intros HG. unfold flushWork.
  set (s1 := set_isPerformingWork true _).
  assert (HG1 : Good s1).
  { unfold s1. case_match.
    - match goal with |- Good (set_isPerformingWork _ (cancelHostTimeout ?s0)) =>
        same_as (cancelHostTimeout s0); apply Good_cancelHostTimeout; by same_as s end.
    - by same_as s. }
  destruct (workLoop fuel hasTimeRemaining initialTime s1) as [[b s2|s2]|] eqn:Hloop;
    [| |done]; intros [= <-]; pose proof (Good_workLoop _ _ _ _ _ HG1 Hloop) as HG2;
    (split; [|done]); by same_as s2.
Qed.

Lemma Idle_performWorkUntilDeadline fuel s s' :
  Idle s -> performWorkUntilDeadline fuel s = Some s' -> Idle s'.
Proof.
  intros [HG Hcur]. unfold performWorkUntilDeadline.
  destruct (scheduledHostCallback s).
  2:{ intros [= <-]. split; [by same_as s|done]. }
  set (s1 := set_frameStartTime (getCurrentTime s) s).
  assert (HG1 : Good s1) by by same_as s.
  destruct (flushWork fuel true (getCurrentTime s) s1) as [[b s2|s2]|] eqn:Hflush;
    [| |done]; intros [= <-];
    destruct (Idle_flushWork _ _ _ _ _ HG1 Hflush) as [HG2 Hcur2]; simpl in *.
  - destruct b; (split; [by same_as s2|done]).
  - split; [by same_as s2|done].
Qed.

Lemma Idle_run p s : Idle s -> Idle (run p s).2.
Proof.
  intros [HG Hcur].
  destruct (run_Running None p s) as (HG' & Hcur' & _); [|done].
  split; [done|]. split; [done|]. by intros task c.
Qed.

Lemma Idle_host_step fuel e s s' : Idle s -> host_step fuel e s = Some s' -> Idle s'.
Proof.
  intros HI. destruct e as [|timeoutID|ms|p]; cbn [host_step].
  - destruct (messages s) as [|n]; [by intros [= <-]|].
    apply Idle_performWorkUntilDeadline. destruct HI as [HG Hcur].
    split; [by same_as s|done].
  - case_bool_decide; [|by intros [= <-]]. intros [= <-]. destruct HI as [HG Hcur].
    split.
    + apply Good_handleTimeout. by same_as s.
    + by rewrite handleTimeout_currentTask.
  - intros [= <-]. destruct HI as [HG Hcur]. split; [by same_as s|done].
  - intros [= <-]. by apply Idle_run.
Qed.

Lemma Idle_host_run fuel es : forall s s',
  Idle s -> host_run fuel es s = Some s' -> Idle s'.
Proof.
  induction es as [|e es IH]; intros s s' HI; cbn [host_run]; [by intros [= <-]|].
  destruct (host_step fuel e s) as [s1|] eqn:Hstep; [|done].
  apply IH. by eapply Idle_host_step.
Qed.

Lemma Idle_initial time : Idle (initial time).
Proof. split; [apply Good_initial|done]. Qed.

(** Every state the scheduler reaches is good. *)
Lemma reachable_Good time fuel es s :
  host_run fuel es (initial time) = Some s -> Good s.
Proof. intros H. by destruct (Idle_host_run fuel es _ _ (Idle_initial time) H). Qed.

End LoopFacts.

(** * The task that [currentTask] holds *)

Module CurrentFacts.
Import MinHeap HistFacts ApiFacts LoopFacts.

Lemma current_log_app new : forall l,
  current_log l ->
  (forall x r, x ∈ new -> snap_currentTask x.2 = Some r ->
     calls r x.1 = true \/ exists y, y ∈ l /\ calls r y.1 = true) ->
  current_log (new ++ l).
Proof.
  induction new as [|x0 new IH]; intros l HJ Hnew; [done|].
  intros newer x older r Hl Hx. simpl in Hl.
  apply cons_split in Hl as [(-> & -> & ->)|(newer' & -> & Hl)].
  - destruct (Hnew x0 r (list_elem_of_here _ _) Hx) as [Hc|(y & Hy & Hc)].
    + exists x0. split; [apply list_elem_of_here|done].
    + exists y. split; [|done]. apply list_elem_of_further, elem_of_app. by right.
  - eapply (IH l HJ); [|exact Hl|exact Hx].
    intros x' r' Hin. apply Hnew. by apply list_elem_of_further.
Qed.

Lemma Called_extends cur s s' : Called cur s -> extends s s' -> Called cur s'.
Proof.
  intros (HJ & Hcur & Hcalled) [Hc (new & Hlog & Hnew)].
  split; [|split; [congruence|]].
  - rewrite Hlog. apply current_log_app; [done|].
    intros x r Hin Hx. right. rewrite (Hnew x Hin), Hcur in Hx.
    by apply Hcalled.
  - intros r Hr. destruct (Hcalled r Hr) as (y & Hy & Hcall).
    exists y. split; [|done]. rewrite Hlog. apply elem_of_app. by right.
Qed.

Lemma current_log_idle s s' :
  current_log (log s) -> currentTask s = None -> extends s s' ->
  current_log (log s').
Proof.
  intros HJ Hcur Hext.
  assert (HC : Called None s) by done.
  by destruct (Called_extends None s s' HC Hext).
Qed.

Lemma extends_continueExecution s : extends s (unstable_continueExecution s).
Proof.
  unfold unstable_continueExecution. case_match; [|by apply extends_frame].
  eapply extends_trans; [|apply extends_requestHostCallback]. by apply extends_frame.
Qed.

Lemma extends_forceFrameRate fps s : extends s (forceFrameRate fps s).
Proof.
  unfold forceFrameRate. repeat case_match; try by apply extends_frame.
  apply extends_emit.
Qed.

Lemma extends_requestPaint s : extends s (requestPaint s).
Proof. unfold requestPaint. case_match; by apply extends_frame. Qed.

Lemma Called_run cur p s : Called cur s -> Called cur (run p s).2.
Proof.
  apply run_preserves; clear s.
  - intros s ms HC. apply (Called_extends cur s); [done|]. by apply extends_frame.
  - intros s pl cb o HC. apply (Called_extends cur s); [done|]. apply extends_schedule.
  - intros s task HC. apply (Called_extends cur s); [done|]. apply extends_cancel.
  - intros s pl HC. apply (Called_extends cur s); [done|]. by apply extends_frame.
  - intros s HC. apply (Called_extends cur s); [done|]. by apply extends_frame.
  - intros s HC. apply (Called_extends cur s); [done|]. apply extends_continueExecution.
  - intros s HC. apply (Called_extends cur s); [done|]. apply extends_requestPaint.
  - intros s fps HC. apply (Called_extends cur s); [done|]. apply extends_forceFrameRate.
Qed.

Lemma advanceTimers_log currentTime s : log (advanceTimers currentTime s) = log s.
Proof. unfold advanceTimers. by destruct (advanceTimers_loop_frame (length (timerQueue s)) currentTime s). Qed.

Lemma current_log_turn task currentTime s :
  current_log (log s) -> currentTask s = Some task ->
  match workLoop_turn task currentTime s with
  | TurnDone _ s' => current_log (log s')
  | TurnThrow s' => current_log (log s')
  end.
Proof.
  intros HJ Hcur.
  destruct (isFunction (callback (store s task))) eqn:Hfun.
  2:{ by rewrite workLoop_turn_other. }
  destruct (callback (store s task)) as [|f|] eqn:Hcb; try done.
  rewrite (workLoop_turn_function task currentTime s f Hcb). cbv zeta.
  set (d := expirationTime (store s task) <=? currentTime).
  set (s1 := set_currentPriorityLevel _ (write_callback task CNull (emit (EvCallback task d) s))).
  assert (HC1 : Called (Some task) s1).
  { split; [|split; [done|]].
    - change (log s1) with ([(EvCallback task d, snapshot s)] ++ log s).
      apply current_log_app; [done|]. intros x r Hin Hx.
      apply list_elem_of_singleton in Hin as ->. left.
      simpl in Hx. rewrite Hcur in Hx. injection Hx as <-.
      simpl. by apply bool_decide_eq_true.
    - intros r [= <-]. exists (EvCallback task d, snapshot s).
      split; [apply list_elem_of_here|]. simpl. by apply bool_decide_eq_true. }
  pose proof (Called_run (Some task) (f d) s1 HC1) as HC2.
  destruct (run (f d) s1) as [[v|] s2]; cbn [snd] in HC2; [|by destruct HC2].
  destruct HC2 as (HJ2 & _).
  change (log (set_currentTask ?x ?s0)) with (log s0).
  rewrite advanceTimers_log.
  destruct v as [g|]; [done|]. by case_bool_decide.
Qed.

Lemma current_log_exit currentTime s :
  current_log (log s) ->
  current_log (log (outcome_state (workLoop_exit currentTime s))).
Proof.
  intros HJ. unfold workLoop_exit.
  destruct (currentTask s) eqn:Hcur; [done|].
  destruct (peek (timerQueue s)); [|done].
  apply (current_log_idle s); [done|done|]. apply extends_requestHostTimeout.
Qed.

Lemma current_log_while fuel hasTimeRemaining : forall currentTime s o,
  current_log (log s) ->
  workLoop_while fuel hasTimeRemaining currentTime s = Some o ->
  current_log (log (outcome_state o)).
Proof.
  induction fuel as [|fuel IH]; intros currentTime s o HJ;
    rewrite workLoop_while_unfold; destruct (currentTask s) as [task|] eqn:Htask.
  - case_match; [|done]. intros [= <-]. by apply current_log_exit.
  - intros [= <-]. by apply current_log_exit.
  - case_match; [intros [= <-]; by apply current_log_exit|].
    pose proof (current_log_turn task currentTime s HJ Htask) as Hturn.
    destruct (workLoop_turn task currentTime s) as [t' s'|s'].
    + by apply IH.
    + by intros [= <-].
  - intros [= <-]. by apply current_log_exit.
Qed.

Lemma current_log_workLoop fuel hasTimeRemaining initialTime s o :
  current_log (log s) ->
  workLoop fuel hasTimeRemaining initialTime s = Some o ->
  current_log (log (outcome_state o)).
Proof.
  intros HJ. unfold workLoop. apply current_log_while.
  change (log (set_currentTask ?x ?s0)) with (log s0). by rewrite advanceTimers_log.
Qed.

Lemma current_log_flushWork fuel hasTimeRemaining initialTime s o :
  current_log (log s) -> currentTask s = None ->
  flushWork fuel hasTimeRemaining initialTime s = Some o ->
  current_log (log (outcome_state o)).
Proof.
  intros HJ Hcur. unfold flushWork.
  set (s1 := set_isPerformingWork true _).
  assert (HJ1 : current_log (log s1)).
  { unfold s1. case_match; [|done].
    change (log (set_isPerformingWork ?x ?s0)) with (log s0).
    match goal with |- current_log (log (cancelHostTimeout ?s0)) =>
      apply (current_log_idle s0); [done|done|apply extends_cancelHostTimeout] end. }
  destruct (workLoop fuel hasTimeRemaining initialTime s1) as [[b s2|s2]|] eqn:Hloop;
    [| |done]; intros [= <-];
    exact (current_log_workLoop _ _ _ _ _ HJ1 Hloop).
Qed.

Lemma current_log_performWorkUntilDeadline fuel s s' :
  current_log (log s) -> currentTask s = None ->
  performWorkUntilDeadline fuel s = Some s' -> current_log (log s').
Proof.
  intros HJ Hcur. unfold performWorkUntilDeadline.
  destruct (scheduledHostCallback s); [|by intros [= <-]].
  set (s1 := set_frameStartTime (getCurrentTime s) s).
  destruct (flushWork fuel true (getCurrentTime s) s1) as [[b s2|s2]|] eqn:Hflush;
    [| |done]; intros [= <-];
    pose proof (current_log_flushWork _ _ _ s1 _ HJ Hcur Hflush) as HJ2; simpl in HJ2.
  - by destruct b.
  - done.
Qed.

Lemma extends_handleTimeout currentTime s : extends s (handleTimeout currentTime s).
Proof.
  unfold handleTimeout.
  set (s1 := advanceTimers currentTime (set_isHostTimeoutScheduled false s)).
  assert (H1 : extends s s1).
  { eapply extends_trans; [|apply extends_advanceTimers]. by apply extends_frame. }
  repeat case_match; try done.
  - eapply extends_trans; [exact H1|].
    eapply extends_trans; [|apply extends_requestHostCallback]. by apply extends_frame.
  - eapply extends_trans; [exact H1|]. apply extends_requestHostTimeout.
Qed.

Lemma current_log_host_step fuel e s s' :
  Idle s -> current_log (log s) -> host_step fuel e s = Some s' ->
  current_log (log s').
Proof.
  intros [_ Hcur] HJ. destruct e as [|timeoutID|ms|p]; cbn [host_step].
  - destruct (messages s) as [|n]; [by intros [= <-]|].
    by apply current_log_performWorkUntilDeadline.
  - case_bool_decide; [|by intros [= <-]]. intros [= <-].
    match goal with |- current_log (log (handleTimeout _ ?s0)) =>
      apply (current_log_idle s0); [done|done|apply extends_handleTimeout] end.
  - by intros [= <-].
  - intros [= <-].
    assert (HC : Called None s) by done.
    by destruct (Called_run None p s HC).
Qed.

Lemma current_log_host_run fuel es : forall s s',
  Idle s -> current_log (log s) -> host_run fuel es s = Some s' ->
  current_log (log s').
Proof.
  induction es as [|e es IH]; intros s s' HI HJ; cbn [host_run]; [by intros [= <-]|].
  destruct (host_step fuel e s) as [s1|] eqn:Hstep; [|done].
  apply IH; [by eapply Idle_host_step|by eapply current_log_host_step].
Qed.

(** In every state the scheduler reaches, the log is as [current_log]
    says. *)
Lemma reachable_current_log time fuel es s :
  host_run fuel es (initial time) = Some s -> current_log (log s).
Proof.
  apply current_log_host_run; [apply Idle_initial|].
  intros newer x older r Hl. by destruct newer.
Qed.

End CurrentFacts.

(** * The min-heap, and the functions of the API one by one *)

Module ApiSpec.
Import MinHeap MinHeapFacts InvFacts HistFacts StepFacts ApiFacts LoopFacts.

Lemma example_heap_ordered : heap_ordered example_store example_heap.
Proof.
  intros i Hi. unfold example_heap in *. simpl in Hi.
  destruct i as [|[|[|i]]]; try lia; vm_compute; discriminate.
Defined.

(** The record that [unstable_scheduleCallback] creates. *)
Lemma schedule_record pl cb o s :
  let st := schedule_startTime o (getCurrentTime s) in
  store (unstable_scheduleCallback pl cb o s).2 (nextRef s) =
    mkTask (taskIdCounter s) cb pl st (st + schedule_timeout pl)
           (if st >? getCurrentTime s then st else st + schedule_timeout pl).
Proof.
  unfold unstable_scheduleCallback.
  case_match; cbn [snd]; unfold schedule_delayed, schedule_immediate,
    requestHostCallback; repeat case_match; simpl; by rewrite !fn_insert_same.
Qed.

Lemma schedule_priority pl cb o s :
  currentPriorityLevel (unstable_scheduleCallback pl cb o s).2 = currentPriorityLevel s.
Proof.
  unfold unstable_scheduleCallback.
  case_match; cbn [snd]; unfold schedule_delayed, schedule_immediate,
    requestHostCallback; repeat case_match; done.
Qed.

Lemma continueExecution_priority s :
  currentPriorityLevel (unstable_continueExecution s) = currentPriorityLevel s.
Proof. unfold unstable_continueExecution, requestHostCallback. by repeat case_match. Qed.

Lemma requestPaint_priority s :
  currentPriorityLevel (requestPaint s) = currentPriorityLevel s.
Proof. unfold requestPaint. by case_match. Qed.

Lemma forceFrameRate_priority fps s :
  currentPriorityLevel (forceFrameRate fps s) = currentPriorityLevel s.
Proof. unfold forceFrameRate. by repeat case_match. Qed.

Lemma try_finally_priority pl h s :
  currentPriorityLevel (try_finally_restore pl h s).2 = pl.
Proof. unfold try_finally_restore. by destruct (h s). Qed.

Lemma run_priority p : forall s,
  currentPriorityLevel (run p s).2 = currentPriorityLevel s.
Proof.
  assert (Hhandler : forall (h k : Prog) pl s0,
    (forall s, currentPriorityLevel (run k s).2 = currentPriorityLevel s) ->
    currentPriorityLevel
      (match try_finally_restore pl (run h) s0 with
       | (Normal _, s) => run k s
       | (Abrupt, s) => (Abrupt, s)
       end).2 = pl).
  { intros h k pl s0 IHk. pose proof (try_finally_priority pl (run h) s0) as Hp.
    destruct (try_finally_restore pl (run h) s0) as [[v|] s']; simpl in *;
      [by rewrite IHk|done]. }
  induction p as [| f IHf | | ms k IHk | pl cb IHcb o k IHk | pl isNull o k IHk | task k IHk
    | pl h IHh k IHk | h IHh k IHk | pl h IHh k IHk | k IHk | k IHk | k IHk | k IHk
    | k IHk | k IHk | k IHk | fps k IHk];
    intros s; cbn [run]; try done;
    try (unfold unstable_runWithPriority, unstable_next, unstable_wrapCallback;
         by apply Hhandler);
    try (rewrite IHk;
         solve [ reflexivity | apply continueExecution_priority
               | apply requestPaint_priority | apply forceFrameRate_priority ]).
  - pose proof (schedule_priority pl (CFunction cb) o s) as Hs.
    destruct (unstable_scheduleCallback _ _ _ s) as [task s']. by rewrite IHk.
  - pose proof (schedule_priority pl (if isNull then CNull else COther) o s) as Hs.
    destruct (unstable_scheduleCallback _ _ _ s) as [task s']. by rewrite IHk.
Qed.

End ApiSpec.

Import MinHeap MinHeapFacts InvFacts HistFacts StepFacts ApiFacts LoopFacts ApiSpec.

(** C3: under the order "[a] before [b] iff [a.sortIndex < b.sortIndex],
    or the sort indices are equal and [a.id < b.id]", which is a strict
    total order on the pairs (sortIndex, id), and for every array [heap]
    that has the heap property: [push] keeps the heap property and the
    entries of the result are those of [heap] plus the new one; [peek]
    returns [null] on the empty array and else an entry that no entry is
    before; [pop] returns what [peek] returns, leaves an array with the
    heap property, and the entries of [heap] are the one returned plus
    those left. *)
Theorem minheap_correct (sigma : Store) (heap : list ref) (t : ref) :
  heap_ordered sigma heap ->
  (forall a b, compare sigma a b < 0 <-> before sigma a b)
  /\ (forall a, ~ before sigma a a)
  /\ (forall a b c, before sigma a b -> before sigma b c -> before sigma a c)
  /\ (forall a b, before sigma a b \/ before sigma b a
                  \/ (sortIndex (sigma a) = sortIndex (sigma b)
                      /\ id (sigma a) = id (sigma b)))
  /\ heap_ordered sigma (push sigma heap t)
  /\ push sigma heap t ≡ₚ t :: heap
  /\ match peek heap with
     | None => heap = []
     | Some m => m ∈ heap /\ forall x, x ∈ heap -> ~ before sigma x m
     end
  /\ (pop sigma heap).1 = peek heap
  /\ heap_ordered sigma (pop sigma heap).2
  /\ match peek heap with
     | None => (pop sigma heap).2 = []
     | Some m => m :: (pop sigma heap).2 ≡ₚ heap
     end.
Proof.
  intros Hord.
  split; [apply compare_before|].
  split; [unfold before; lia|].
  split; [unfold before; lia|].
  split; [unfold before; lia|].
  destruct (push_correct sigma heap t Hord) as [P1 P2].
  split; [done|]. split; [done|]. split.
  { destruct (peek heap) as [m|] eqn:Hpeek; [|by apply peek_None].
    split; [by apply peek_elem|]. intros x Hx Hbefore.
    apply (before_not_notAfter sigma x m Hbefore). by apply (peek_min sigma heap). }
  split; [apply pop_fst|].
  destruct (peek heap) as [m|] eqn:Hpeek.
  - destruct (pop_peek sigma heap m Hord Hpeek) as (_ & H1 & H2). done.
  - apply peek_None in Hpeek. subst heap. split; [|done].
    intros i Hi. simpl in Hi. lia.
Qed.

Lemma minheap_correct_witness :
  heap_ordered example_store example_heap
  /\ push example_store example_heap 3%nat ≡ₚ 3%nat :: example_heap
  /\ (pop example_store example_heap).1 = Some 1%nat.
Proof.
  split; [exact example_heap_ordered|].
  destruct (minheap_correct example_store example_heap 3%nat example_heap_ordered)
    as (_ & _ & _ & _ & _ & Hpush & _ & Hpop & _).
  split; [exact Hpush|exact Hpop].
Defined.

(** C7: the task record that [unstable_scheduleCallback] creates has
    [expirationTime = startTime + timeout], where the timeout is -1 for
    Immediate, 250 for UserBlocking, 5000 for Normal, 10000 for Low,
    1073741823 for Idle, and 5000 for every other value of the priority
    level. *)
Theorem expiration_is_start_plus_timeout pl cb o s :
  let task := (unstable_scheduleCallback pl cb o s).1 in
  let s' := (unstable_scheduleCallback pl cb o s).2 in
  expirationTime (store s' task) = startTime (store s' task) + spec_timeout pl
  /\ priorityLevel (store s' task) = pl
  /\ schedule_timeout pl = spec_timeout pl.
Proof.
  cbv zeta. destruct (schedule_nextRef pl cb o s) as [-> _].
  rewrite schedule_record. cbv zeta. cbn [expirationTime startTime priorityLevel].
  assert (H : schedule_timeout pl = spec_timeout pl) by by destruct pl.
  by rewrite H.
Qed.

(** C9: [forceFrameRate(fps)] with [fps < 0] or [fps > 125] logs an error
    and changes nothing else; with [0 < fps <= 125] it sets [frameInterval]
    to [floor(1000 / fps)], the number [n] with
    [n * fps <= 1000 < (n + 1) * fps], and logs nothing; with [fps = 0] it
    sets [frameInterval] to 5 and logs nothing. *)
Theorem forceFrameRate_spec fps s :
  (fps < 0 \/ fps > 125 ->
     forceFrameRate fps s = emit EvConsoleError s
     /\ frameInterval (forceFrameRate fps s) = frameInterval s)
  /\ (0 < fps <= 125 ->
        forceFrameRate fps s = set_frameInterval (1000 / fps) s
        /\ frameInterval (forceFrameRate fps s) * fps <= 1000
             < (frameInterval (forceFrameRate fps s) + 1) * fps
        /\ log (forceFrameRate fps s) = log s)
  /\ (fps = 0 ->
        forceFrameRate fps s = set_frameInterval 5 s
        /\ frameInterval (forceFrameRate fps s) = 5
        /\ log (forceFrameRate fps s) = log s).
Proof.
  unfold forceFrameRate. split; [|split].
  - intros H. replace ((fps <? 0) || (fps >? 125)) with true; [done|].
    symmetry. apply orb_true_iff. lia.
  - intros H. replace ((fps <? 0) || (fps >? 125)) with false.
    2:{ symmetry. apply orb_false_iff. lia. }
    replace (fps >? 0) with true by lia. split; [done|]. split; [|done].
    cbn [frameInterval set_frameInterval]. nia.
  - intros ->. done.
Qed.

Lemma forceFrameRate_spec_witness :
  frameInterval (forceFrameRate 60 (initial 0)) = 16
  /\ frameInterval (forceFrameRate 0 (forceFrameRate 60 (initial 0))) = 5
  /\ frameInterval (forceFrameRate 126 (forceFrameRate 60 (initial 0))) = 16.
Proof.
  split; [|split].
  - destruct (forceFrameRate_spec 60 (initial 0)) as (_ & H & _).
    destruct H as (H & _); [lia|]. rewrite H. reflexivity.
  - destruct (forceFrameRate_spec 0 (forceFrameRate 60 (initial 0))) as (_ & _ & H).
    destruct H as (_ & H & _); [reflexivity|exact H].
  - destruct (forceFrameRate_spec 126 (forceFrameRate 60 (initial 0))) as (H & _).
    destruct H as (_ & H); [lia|]. rewrite H. reflexivity.
Defined.

(** C8: every call into the public API, and so every piece of user code
    [p], leaves [currentPriorityLevel] as it found it, whether it returns or
    throws; [unstable_runWithPriority(level, fn)] runs [fn] with the level
    set to [level], or to Normal when [level] is none of the five variants,
    completes as [fn] completes, and ends with the level it found;
    [flushWork] ends with the level it found, whether the work loop returns
    or throws. *)
Theorem ambient_priority_restored :
  (forall p s, currentPriorityLevel (run p s).2 = currentPriorityLevel s)
  /\ (forall pl cb o s,
        currentPriorityLevel (unstable_scheduleCallback pl cb o s).2
        = currentPriorityLevel s)
  /\ (forall task s,
        currentPriorityLevel (unstable_cancelCallback task s) = currentPriorityLevel s)
  /\ (forall s, currentPriorityLevel (unstable_pauseExecution s) = currentPriorityLevel s)
  /\ (forall s,
        currentPriorityLevel (unstable_continueExecution s) = currentPriorityLevel s)
  /\ (forall s, currentPriorityLevel (requestPaint s) = currentPriorityLevel s)
  /\ (forall fps s, currentPriorityLevel (forceFrameRate fps s) = currentPriorityLevel s)
  /\ (forall fn s, currentPriorityLevel (unstable_next fn s).2 = currentPriorityLevel s)
  /\ (forall fn s0 s,
        currentPriorityLevel (unstable_wrapCallback fn s0 s).2 = currentPriorityLevel s)
  /\ (forall level fn s,
        unstable_runWithPriority level fn s =
          ((fn (set_currentPriorityLevel (known_priority level) s)).1,
           set_currentPriorityLevel (currentPriorityLevel s)
             (fn (set_currentPriorityLevel (known_priority level) s)).2))
  /\ (forall fuel hasTimeRemaining initialTime s o,
        flushWork fuel hasTimeRemaining initialTime s = Some o ->
        currentPriorityLevel (outcome_state o) = currentPriorityLevel s).
Proof.
  split; [intros p s; apply run_priority|].
  split; [apply schedule_priority|].
  split; [done|]. split; [done|].
  split; [apply continueExecution_priority|].
  split; [apply requestPaint_priority|].
  split; [apply forceFrameRate_priority|].
  split; [intros fn s; apply try_finally_priority|].
  split; [intros fn s0 s; apply try_finally_priority|].
  split.
  - intros level fn s. unfold unstable_runWithPriority, try_finally_restore.
    replace (match level with
             | UnknownPriority _ => NormalPriority
             | _ => level
             end) with (known_priority level) by by destruct level.
    by destruct (fn _).
  - intros fuel b t s o. unfold flushWork.
    set (s1 := set_isPerformingWork true _).
    assert (H1 : currentPriorityLevel s1 = currentPriorityLevel s).
    { unfold s1. by case_match. }
    rewrite H1.
    destruct (workLoop fuel b t s1) as [[b' s2|s2]|]; [| |done]; by intros [= <-].
Qed.

Lemma ambient_priority_restored_witness :
  exists o,
    flushWork 5 true 0
      (reach 1 [UserCode (ScheduleCallback ImmediatePriority (fun _ => Throw)
                            OptionsUndefined (fun _ => Return))]) = Some o
    /\ currentPriorityLevel (outcome_state o) = NormalPriority.
Proof.
  destruct ambient_priority_restored as (_ & _ & _ & _ & _ & _ & _ & _ & _ & _ & H).
  destruct (flushWork 5 true 0
              (reach 1 [UserCode (ScheduleCallback ImmediatePriority (fun _ => Throw)
                                    OptionsUndefined (fun _ => Return))]))
    as [o|] eqn:Hrun.
  - exists o. split; [reflexivity|]. rewrite (H _ _ _ _ _ Hrun). reflexivity.
  - vm_compute in Hrun. discriminate Hrun.
Defined.

(** * Histories of runs *)

Module RunFacts.
Import MinHeap MinHeapFacts InvFacts HistFacts StepFacts ApiFacts LoopFacts CurrentFacts ApiSpec.

(** Two entries of a history, the older one first, cut the log in
    three. *)
Lemma history_split s (i j : nat) p d :
  (i < j)%nat -> history s !! i = Some p -> history s !! j = Some d ->
  exists past mid future,
    log s = reverse future ++ d :: reverse mid ++ p :: reverse past
    /\ length past = i /\ length mid = (j - i - 1)%nat
    /\ history s = past ++ p :: mid ++ d :: future.
Proof.
  intros Hij Hi Hj.
  apply list_elem_of_split_length in Hi as (past & rest & Hh & ->).
  rewrite Hh in Hj. rewrite lookup_app_r in Hj by lia.
  rewrite lookup_cons_ne_0 in Hj by lia.
  apply list_elem_of_split_length in Hj as (mid & future & -> & Hlen).
  exists past, mid, future. split; [|split; [done|split; [lia|done]]].
  unfold history in Hh. apply (f_equal reverse) in Hh.
  rewrite reverse_involutive in Hh. rewrite Hh.
  rewrite reverse_app, reverse_cons, reverse_app, reverse_cons.
  by rewrite <- !app_assoc.
Qed.

Lemma history_split1 s (j : nat) d :
  history s !! j = Some d ->
  exists past future, log s = reverse future ++ d :: reverse past.
Proof.
  intros Hj.
  apply list_elem_of_split_length in Hj as (past & future & Hh & ->).
  exists past, future.
  unfold history in Hh. apply (f_equal reverse) in Hh.
  rewrite reverse_involutive in Hh. rewrite Hh.
  rewrite reverse_app, reverse_cons. by rewrite <- !app_assoc.
Qed.

Lemma Good_called_in_order s : Good s -> called_in_order_unless_cancelled (history s).
Proof.
  intros [_ HH] i j p d a b dt Hij Hi Hj Ha [Hb _] Hbefore Hd.
  destruct (decide (i = j)) as [->|Hne].
  - rewrite Hi in Hj. injection Hj as <-.
    destruct (history_split1 s j p Hi) as (past & future & Hlog).
    destruct Ha as [Ha _].
    by destruct (hist_least s HH _ _ _ a b dt Hlog Hd Ha).
  - destruct (history_split s i j p d) as (past & mid & future & Hlog & Hlen1 & Hlen2 & Hh);
      [lia|done|done|].
    destruct (hist_order s HH _ _ _ _ _ a b dt Hlog Hd Ha Hb Hbefore) as (x & Hx & Habout).
    assert (Hin : x ∈ p :: mid).
    { apply elem_of_app in Hx as [Hx|Hx].
      - apply list_elem_of_further. by apply elem_of_reverse.
      - apply list_elem_of_singleton in Hx as ->. apply list_elem_of_here. }
    apply list_elem_of_lookup_1 in Hin as (k & Hk).
    pose proof (lookup_lt_Some _ _ _ Hk) as Hklen. simpl in Hklen.
    exists (i + k)%nat, x. split; [lia|]. split; [|done].
    rewrite Hh. rewrite lookup_app_r by lia.
    replace (i + k - length past)%nat with k by lia.
    change (p :: mid ++ d :: future) with ((p :: mid) ++ d :: future).
    rewrite lookup_app_l by (simpl; lia). done.
Qed.

Lemma calls_callback r e : calls r e = true -> exists d, e = EvCallback r d.
Proof.
  destruct e; simpl; try done. intros H. apply bool_decide_eq_true in H as ->. eauto.
Qed.

Lemma Good_never_called s : Good s -> never_called_once_cancelled (history s).
Proof.
  intros [_ HH] i j c d r Hij Hi Hj Hidle.
  destruct (calls r d.1) eqn:Hcalls; [|done]. exfalso.
  apply calls_callback in Hcalls as (dt & Hd).
  destruct (history_split s i j c d) as (past & mid & future & Hlog & _); [done..|].
  by apply (hist_cancel s HH _ _ _ _ _ r dt Hlog Hd).
Qed.

(** A cancellation that comes before every call of the callback of the
    task was made from outside that callback. *)
Lemma Good_never_called_first s :
  Good s -> current_log (log s) -> never_called_if_cancelled_first (history s).
Proof.
  intros HG HJ i j c d r Hi Hc Hlt Hfirst Hj.
  destruct (decide (j < i)%nat) as [Hlt'|Hge]; [by apply (Hfirst j d)|].
  destruct (decide (j = i)) as [->|Hne].
  { rewrite Hi in Hj. injection Hj as <-. by rewrite Hc. }
  apply (Good_never_called s HG i j c d r); [lia|done|done|].
  split; [done|]. split; [done|]. intros Hcur.
  pose proof Hi as Hsplit.
  apply list_elem_of_split_length in Hsplit as (past & future & Hh & ->).
  assert (Hlog : log s = reverse future ++ c :: reverse past).
  { unfold history in Hh. apply (f_equal reverse) in Hh.
    rewrite reverse_involutive in Hh. rewrite Hh.
    rewrite reverse_app, reverse_cons. by rewrite <- !app_assoc. }
  destruct (HJ _ _ _ r Hlog Hcur) as (y & Hy & Hcall).
  apply elem_of_cons in Hy as [->|Hy]; [by rewrite Hc in Hcall|].
  rewrite elem_of_reverse in Hy. apply list_elem_of_lookup_1 in Hy as (k & Hk).
  pose proof (lookup_lt_Some _ _ _ Hk) as Hklen.
  rewrite (Hfirst k y Hklen) in Hcall; [done|].
  rewrite Hh. by rewrite lookup_app_l.
Qed.

(** The trace after each step that logs. *)
Lemma trace_emit e s : trace (emit e s) = trace s ++ [e].
Proof. unfold trace. simpl. by rewrite reverse_cons. Qed.

Lemma trace_requestHostCallback s :
  trace (requestHostCallback s) = trace s ++ [EvRequestHostCallback].
Proof.
  unfold requestHostCallback. case_match; apply (trace_emit EvRequestHostCallback).
Qed.

Lemma trace_requestHostTimeout ms s :
  trace (requestHostTimeout ms s) = trace s ++ [EvRequestHostTimeout ms].
Proof. apply (trace_emit (EvRequestHostTimeout ms)). Qed.

Lemma trace_cancelHostTimeout s :
  trace (cancelHostTimeout s) = trace s ++ [EvCancelHostTimeout].
Proof. apply (trace_emit EvCancelHostTimeout). Qed.

End RunFacts.

Import MinHeap MinHeapFacts InvFacts HistFacts StepFacts ApiFacts LoopFacts CurrentFacts.
Import ApiSpec RunFacts.

(** C1, as amended: in every run, when two tasks [a] and [b] are both in
    the ready queue and uncancelled at some point, with
    [(a.sortIndex, a.id)] smaller than [(b.sortIndex, b.id)] at that point,
    and the work loop calls the callback of [b] later, then between that
    point and that call the work loop has called the callback of [a] or [a]
    has been cancelled. *)
Theorem ready_tasks_called_in_order time fuel es s :
  host_run fuel es (initial time) = Some s ->
  called_in_order_unless_cancelled (history s).
Proof. intros Hrun. apply Good_called_in_order. by eapply reachable_Good. Qed.

Lemma ready_tasks_called_in_order_witness :
  host_run 10 example_cancel (initial 0) = Some (reach 10 example_cancel)
  /\ called_in_order_unless_cancelled (history (reach 10 example_cancel)).
Proof.
  split; [vm_compute; reflexivity|].
  apply (ready_tasks_called_in_order 0 10 example_cancel).
  vm_compute. reflexivity.
Defined.

(** C1, as stated, fails: two tasks are ready and uncancelled, the first
    before the second; the first is cancelled; the work loop calls the
    callback of the second and never that of the first. *)
Lemma ready_tasks_called_in_order_counterexample :
  ~ called_in_order (history (reach 10 example_cancel)).
Proof.
  intros H.
  edestruct (H 3%nat 4%nat) as (k & x & Hk & Hx & Hcalls).
  - lia.
  - vm_compute. reflexivity.
  - vm_compute. reflexivity.
  - instantiate (1 := 0%nat). split.
    + apply (bool_decide_unpack _). vm_compute. reflexivity.
    + vm_compute. reflexivity.
  - instantiate (1 := 1%nat). split.
    + apply (bool_decide_unpack _). vm_compute. reflexivity.
    + vm_compute. reflexivity.
  - right. vm_compute. split; reflexivity.
  - vm_compute. reflexivity.
  - assert (k = 3%nat) by lia. subst k. vm_compute in Hx. injection Hx as <-.
    vm_compute in Hcalls. discriminate.
Qed.

(** C2: in every run, when [unstable_cancelCallback] is called on a task
    before any call of the callback of that task, the work loop never calls
    that callback; more generally, once [unstable_cancelCallback] has been
    called on a task from outside the callback of that task, the work loop
    calls the callback of that task no more. The call only logs and sets the [callback]
    field of the record to [null]: both queues and every other field and
    record stay as they are. A cancelled task that is the head of the
    pending queue is popped by [advanceTimers], and one that is the head of
    the ready queue is popped by the work loop without a call. *)
Theorem cancelled_callback_never_called time fuel es s :
  host_run fuel es (initial time) = Some s ->
  never_called_if_cancelled_first (history s)
  /\ never_called_once_cancelled (history s)
  /\ (forall task s0,
        unstable_cancelCallback task s0
          = write_callback task CNull (emit (EvCancel task) s0)
        /\ taskQueue (unstable_cancelCallback task s0) = taskQueue s0
        /\ timerQueue (unstable_cancelCallback task s0) = timerQueue s0
        /\ store (unstable_cancelCallback task s0) task
           = set_callback CNull (store s0 task)
        /\ (forall r, r <> task ->
              store (unstable_cancelCallback task s0) r = store s0 r))
  /\ (forall currentTime s0 task,
        peek (timerQueue s0) = Some task -> callback (store s0 task) = CNull ->
        advanceTimers currentTime s0 = advanceTimers currentTime (pop_timerQueue s0))
  /\ (forall currentTime s0 task,
        callback (store s0 task) = CNull ->
        workLoop_turn task currentTime s0
          = TurnDone currentTime
              (set_currentTask (peek (taskQueue (pop_taskQueue s0))) (pop_taskQueue s0))).
Proof.
  intros Hrun.
  split; [apply Good_never_called_first;
            [by eapply reachable_Good|by eapply reachable_current_log]|].
  split; [apply Good_never_called; by eapply reachable_Good|].
  split.
  { intros task s0. split; [done|]. split; [done|]. split; [done|]. split.
    - simpl. by rewrite fn_insert_same.
    - intros r Hr. simpl. by rewrite fn_insert_other. }
  split.
  - intros currentTime s0 task Hpeek Hcb. unfold advanceTimers.
    rewrite (pop_shorter (store s0) (timerQueue s0) task Hpeek).
    cbn [advanceTimers_loop]. rewrite Hpeek, Hcb. done.
  - intros currentTime s0 task Hcb. apply workLoop_turn_other. by rewrite Hcb.
Qed.

Lemma cancelled_callback_never_called_witness :
  host_run 10 example_cancel (initial 0) = Some (reach 10 example_cancel)
  /\ never_called_if_cancelled_first (history (reach 10 example_cancel))
  /\ trace (reach 10 example_cancel)
     = [EvSchedule 0%nat; EvRequestHostCallback; EvSchedule 1%nat; EvCancel 0%nat;
        EvCallback 1%nat false].
Proof.
  split; [vm_compute; reflexivity|]. split; [|vm_compute; reflexivity].
  apply (cancelled_callback_never_called 0 10 example_cancel).
  vm_compute. reflexivity.
Defined.

(** * Scheduling a callback *)

Module ScheduleFacts.
Import MinHeap MinHeapFacts InvFacts HistFacts StepFacts ApiFacts LoopFacts ApiSpec RunFacts.

Lemma schedule_startTime_spec o currentTime :
  schedule_startTime o currentTime =
    match o with
    | OptionsObject (DelayNumber delay) =>
        if 0 <? delay then currentTime + delay else currentTime
    | _ => currentTime
    end.
Proof.
  unfold schedule_startTime. destruct o as [| | |[delay|]]; try done.
  by rewrite Z.gtb_ltb.
Qed.

(** The branch for a delayed task. *)
Lemma schedule_delayed_spec task st currentTime s :
  let s' := schedule_delayed task st currentTime s in
  let sigma := <[task := set_sortIndex st (store s task)]> (store s) in
  let queue := push sigma (timerQueue s) task in
  store s' = sigma
  /\ timerQueue s' = queue
  /\ taskQueue s' = taskQueue s
  /\ messages s' = messages s
  /\ nextRef s' = nextRef s
  /\ if bool_decide (taskQueue s = []) && bool_decide (peek queue = Some task)
     then isHostTimeoutScheduled s' = true
          /\ trace s' = trace s
               ++ (if isHostTimeoutScheduled s then [EvCancelHostTimeout] else [])
               ++ [EvRequestHostTimeout (st - currentTime)]
          /\ timeouts s' =
               (if isHostTimeoutScheduled s
                then filter (fun t => t.1 <> taskTimeoutID s) (timeouts s)
                else timeouts s) ++ [(nextTimeoutID s, st - currentTime)]
     else trace s' = trace s /\ timeouts s' = timeouts s
          /\ isHostTimeoutScheduled s' = isHostTimeoutScheduled s.
Proof.
  cbv zeta. unfold schedule_delayed.
  set (sigma := <[task := set_sortIndex st (store s task)]> (store s)).
  set (queue := push sigma (timerQueue s) task).
  set (s2 := push_timerQueue task (write_sortIndex task st s)).
  assert (Hempty : bool_decide (peek (taskQueue s2) = None) = bool_decide (taskQueue s = [])).
  { apply bool_decide_ext. simpl. split; [apply peek_None|by intros ->]. }
  rewrite Hempty. change (timerQueue s2) with queue.
  change (isHostTimeoutScheduled s2) with (isHostTimeoutScheduled s).
  destruct (bool_decide (taskQueue s = []) && bool_decide (peek queue = Some task)).
  - destruct (isHostTimeoutScheduled s) eqn:Hlatch.
    + do 5 (split; [reflexivity|]). split; [exact Hlatch|]. split; [|reflexivity].
      by rewrite trace_requestHostTimeout, trace_cancelHostTimeout, <- app_assoc.
    + do 6 (split; [reflexivity|]). split; [|reflexivity].
      by rewrite trace_requestHostTimeout.
  - by do 7 (split; [reflexivity|]).
Qed.

(** The branch for a task that is not delayed. *)
Lemma schedule_immediate_spec task ex s :
  let s' := schedule_immediate task ex s in
  store s' = <[task := set_sortIndex ex (store s task)]> (store s)
  /\ taskQueue s' = push (store s') (taskQueue s) task
  /\ timerQueue s' = timerQueue s
  /\ timeouts s' = timeouts s
  /\ nextRef s' = nextRef s
  /\ if negb (isHostCallbackScheduled s) && negb (isPerformingWork s)
     then isHostCallbackScheduled s' = true /\ scheduledHostCallback s' = true
          /\ trace s' = trace s ++ [EvRequestHostCallback]
     else trace s' = trace s /\ messages s' = messages s
          /\ isHostCallbackScheduled s' = isHostCallbackScheduled s.
Proof.
  cbv zeta. unfold schedule_immediate.
  set (s2 := push_taskQueue task (write_sortIndex task ex s)).
  change (isHostCallbackScheduled s2) with (isHostCallbackScheduled s).
  change (isPerformingWork s2) with (isPerformingWork s).
  destruct (negb (isHostCallbackScheduled s) && negb (isPerformingWork s)).
  - unfold requestHostCallback. case_match; simpl; (repeat split; try done);
      unfold trace; simpl; by rewrite reverse_cons.
  - done.
Qed.

End ScheduleFacts.

Import MinHeap MinHeapFacts InvFacts HistFacts StepFacts ApiFacts LoopFacts ApiSpec RunFacts.
Import ScheduleFacts.

(** C6, as amended: [unstable_scheduleCallback(priorityLevel, callback,
    options)] returns the new task record. Its [startTime] is [now + delay]
    when [options.delay] is a number greater than 0 and [now] for every
    other value of [options]. If [startTime > now] the task goes into the
    pending queue with [sortIndex = startTime]; if then the ready queue is
    empty and the task is the head of the pending queue, a host timer is
    requested for [startTime - now], after the timer with the id in
    [taskTimeoutID] has been cancelled if the latch
    [isHostTimeoutScheduled] was set, and the latch is set. If
    [startTime <= now] the task goes into the ready queue with
    [sortIndex = expirationTime], and a host continuation is requested
    unless one is scheduled already or the work loop is running. *)
Theorem scheduleCallback_spec pl cb o s :
  let task := (unstable_scheduleCallback pl cb o s).1 in
  let s' := (unstable_scheduleCallback pl cb o s).2 in
  let currentTime := getCurrentTime s in
  let st := startTime (store s' task) in
  task = nextRef s /\ nextRef s' = S (nextRef s)
  /\ (forall r, r <> task -> store s' r = store s r)
  /\ callback (store s' task) = cb
  /\ st = match o with
          | OptionsObject (DelayNumber delay) =>
              if 0 <? delay then currentTime + delay else currentTime
          | _ => currentTime
          end
  /\ (st > currentTime ->
        sortIndex (store s' task) = st
        /\ timerQueue s' ≡ₚ task :: timerQueue s
        /\ taskQueue s' = taskQueue s
        /\ messages s' = messages s
        /\ if bool_decide (taskQueue s = [])
              && bool_decide (peek (timerQueue s') = Some task)
           then isHostTimeoutScheduled s' = true
                /\ trace s' = trace s ++ [EvSchedule task]
                     ++ (if isHostTimeoutScheduled s then [EvCancelHostTimeout] else [])
                     ++ [EvRequestHostTimeout (st - currentTime)]
                /\ timeouts s' =
                     (if isHostTimeoutScheduled s
                      then filter (fun t => t.1 <> taskTimeoutID s) (timeouts s)
                      else timeouts s) ++ [(nextTimeoutID s, st - currentTime)]
           else trace s' = trace s ++ [EvSchedule task]
                /\ timeouts s' = timeouts s
                /\ isHostTimeoutScheduled s' = isHostTimeoutScheduled s)
  /\ (st <= currentTime ->
        sortIndex (store s' task) = expirationTime (store s' task)
        /\ taskQueue s' ≡ₚ task :: taskQueue s
        /\ timerQueue s' = timerQueue s
        /\ timeouts s' = timeouts s
        /\ if negb (isHostCallbackScheduled s) && negb (isPerformingWork s)
           then isHostCallbackScheduled s' = true /\ scheduledHostCallback s' = true
                /\ trace s' = trace s ++ [EvSchedule task; EvRequestHostCallback]
           else trace s' = trace s ++ [EvSchedule task]
                /\ messages s' = messages s
                /\ isHostCallbackScheduled s' = isHostCallbackScheduled s).
Proof.
  cbv zeta.
  destruct (schedule_nextRef pl cb o s) as [E1 E2]. rewrite E1.
  pose proof (schedule_record pl cb o s) as Hrec. cbv zeta in Hrec. rewrite Hrec.
  cbn [startTime callback sortIndex expirationTime].
  split; [done|]. split; [done|].
  split; [intros r Hr; by apply schedule_store_old|].
  split; [done|]. split; [apply schedule_startTime_spec|].
  set (st := schedule_startTime o (getCurrentTime s)) in *.
  set (s1 := schedule_newTask pl cb st (st + schedule_timeout pl)
               (emit (EvSchedule (nextRef s)) s)).
  assert (Htrace1 : trace s1 = trace s ++ [EvSchedule (nextRef s)])
    by apply (trace_emit (EvSchedule (nextRef s))).
  split.
  - intros Hst. replace (st >? getCurrentTime s) with true by lia.
    unfold unstable_scheduleCallback. fold st.
    replace (st >? getCurrentTime s) with true by lia. cbn [snd]. fold s1.
    change (nextRef (emit (EvSchedule (nextRef s)) s)) with (nextRef s).
    pose proof (schedule_delayed_spec (nextRef s) st (getCurrentTime s) s1) as Hd.
    cbv zeta in Hd. destruct Hd as (D1 & D2 & D3 & D4 & D5 & D6).
    split; [done|]. split; [rewrite D2; apply push_perm|].
    split; [done|]. split; [done|].
    change (taskQueue s1) with (taskQueue s) in D6. rewrite <- D2 in D6.
    case_match.
    + destruct D6 as (D6 & D7 & D8). split; [done|]. split; [|done].
      rewrite D7, Htrace1. by rewrite <- app_assoc.
    + destruct D6 as (D6 & D7 & D8). split; [|done]. by rewrite D6.
  - intros Hst. replace (st >? getCurrentTime s) with false by lia.
    unfold unstable_scheduleCallback. fold st.
    replace (st >? getCurrentTime s) with false by lia. cbn [snd]. fold s1.
    change (nextRef (emit (EvSchedule (nextRef s)) s)) with (nextRef s).
    pose proof (schedule_immediate_spec (nextRef s) (st + schedule_timeout pl) s1) as Hd.
    cbv zeta in Hd. destruct Hd as (D1 & D2 & D3 & D4 & D5 & D6).
    split; [done|]. split; [rewrite D2; apply push_perm|].
    split; [done|]. split; [done|].
    change (isHostCallbackScheduled s1) with (isHostCallbackScheduled s) in D6.
    change (isPerformingWork s1) with (isPerformingWork s) in D6.
    case_match.
    + destruct D6 as (D6 & D7 & D8). split; [done|]. split; [done|].
      rewrite D8, Htrace1. by rewrite <- app_assoc.
    + destruct D6 as (D6 & D7 & D8). split; [|done]. by rewrite D6.
Qed.

(** C6, as stated, fails: when the work loop has requested a timer on its
    way out, the latch is not set; a task scheduled then with an earlier
    start time becomes the head of the pending queue while the ready queue
    is empty, and a second timer is requested without the first being
    cancelled. *)
Lemma scheduleCallback_keeps_timer_counterexample :
  let s := reach 10 example_rearm in
  let r := unstable_scheduleCallback NormalPriority (CFunction example_callback)
             (OptionsObject (DelayNumber 10)) s in
  timeouts s = [(2, 99)]
  /\ taskQueue r.2 = []
  /\ peek (timerQueue r.2) = Some r.1
  /\ timeouts r.2 = [(2, 99); (3, 10)]
  /\ trace r.2 = trace s ++ [EvSchedule 2%nat; EvRequestHostTimeout 10].
Proof. vm_compute. repeat split. Qed.

Lemma scheduleCallback_spec_witness :
  let s := reach 10 example_rearm in
  let r := unstable_scheduleCallback NormalPriority (CFunction example_callback)
             (OptionsObject (DelayNumber 10)) s in
  startTime (store r.2 r.1) > getCurrentTime s
  /\ timerQueue r.2 ≡ₚ r.1 :: timerQueue s.
Proof.
  cbv zeta.
  assert (H : startTime
                (store (unstable_scheduleCallback NormalPriority (CFunction example_callback)
                          (OptionsObject (DelayNumber 10)) (reach 10 example_rearm)).2
                   (unstable_scheduleCallback NormalPriority (CFunction example_callback)
                      (OptionsObject (DelayNumber 10)) (reach 10 example_rearm)).1)
              > getCurrentTime (reach 10 example_rearm)) by (vm_compute; reflexivity).
  split; [exact H|].
  destruct (scheduleCallback_spec NormalPriority (CFunction example_callback)
              (OptionsObject (DelayNumber 10)) (reach 10 example_rearm))
    as (_ & _ & _ & _ & _ & Hdelayed & _).
  destruct (Hdelayed H) as (_ & Hperm & _). exact Hperm.
Defined.

(** * The work loop *)

Module WorkLoopFacts.
Import MinHeap MinHeapFacts InvFacts HistFacts StepFacts ApiFacts LoopFacts ApiSpec RunFacts.
Import ScheduleFacts.

(** What [advanceTimers] leaves alone: the trace, the clock, the callback
    fields, and the tasks that are in the ready queue. *)
Lemma advanceTimers_loop_keeps fuel currentTime : forall s,
  trace (advanceTimers_loop fuel currentTime s) = trace s
  /\ now (advanceTimers_loop fuel currentTime s) = now s
  /\ (forall r, callback (store (advanceTimers_loop fuel currentTime s) r)
                = callback (store s r))
  /\ (forall r, r ∈ taskQueue s -> r ∈ taskQueue (advanceTimers_loop fuel currentTime s)).
Proof.
  induction fuel as [|fuel IH]; intros s; cbn [advanceTimers_loop]; [done|].
  destruct (peek (timerQueue s)) as [timer|] eqn:Hpeek; [|done].
  assert (Hpop : let s' := advanceTimers_loop fuel currentTime (pop_timerQueue s) in
    trace s' = trace s /\ now s' = now s
    /\ (forall r, callback (store s' r) = callback (store s r))
    /\ (forall r, r ∈ taskQueue s -> r ∈ taskQueue s')).
  { cbv zeta. destruct (IH (pop_timerQueue s)) as (H1 & H2 & H3 & H4). done. }
  assert (Hfire : let s' := advanceTimers_loop fuel currentTime
              (push_taskQueue timer
                 (write_sortIndex timer (expirationTime (store (pop_timerQueue s) timer))
                    (pop_timerQueue s))) in
    trace s' = trace s /\ now s' = now s
    /\ (forall r, callback (store s' r) = callback (store s r))
    /\ (forall r, r ∈ taskQueue s -> r ∈ taskQueue s')).
  { cbv zeta.
    match goal with |- context[advanceTimers_loop fuel currentTime ?s0] =>
      destruct (IH s0) as (H1 & H2 & H3 & H4) end.
    split; [done|]. split; [done|]. split.
    - intros r. rewrite H3. simpl. destruct (decide (timer = r)) as [->|Hne].
      + by rewrite fn_insert_same.
      + by rewrite fn_insert_other.
    - intros r Hr. apply H4. simpl. rewrite push_perm. by apply list_elem_of_further. }
  destruct (callback (store s timer)); [done| |]; (case_match; [done|done]).
Qed.

Lemma advanceTimers_keeps currentTime s :
  trace (advanceTimers currentTime s) = trace s
  /\ now (advanceTimers currentTime s) = now s
  /\ (forall r, callback (store (advanceTimers currentTime s) r) = callback (store s r))
  /\ (forall r, r ∈ taskQueue s -> r ∈ taskQueue (advanceTimers currentTime s)).
Proof. apply advanceTimers_loop_keeps. Qed.


(** After [advanceTimers] the head of the pending queue, if there is one,
    is not cancelled and has not matured. *)
Lemma advanceTimers_loop_stops fuel currentTime : forall s timer,
  (length (timerQueue s) <= fuel)%nat ->
  peek (timerQueue (advanceTimers_loop fuel currentTime s)) = Some timer ->
  callback (store (advanceTimers_loop fuel currentTime s) timer) <> CNull
  /\ currentTime < startTime (store (advanceTimers_loop fuel currentTime s) timer).
Proof.
  induction fuel as [|fuel IH]; intros s timer Hlen; cbn [advanceTimers_loop].
  - destruct (timerQueue s); [done|simpl in Hlen; lia].
  - destruct (peek (timerQueue s)) as [first|] eqn:Hpeek; [|by rewrite Hpeek].
    pose proof (pop_shorter (store s) (timerQueue s) first Hpeek) as Hshort.
    assert (Hpop : peek (timerQueue (advanceTimers_loop fuel currentTime (pop_timerQueue s)))
                     = Some timer ->
      callback (store (advanceTimers_loop fuel currentTime (pop_timerQueue s)) timer) <> CNull
      /\ currentTime
         < startTime (store (advanceTimers_loop fuel currentTime (pop_timerQueue s)) timer)).
    { apply IH. simpl. lia. }
    destruct (callback (store s first)) eqn:Hcb; [done| |];
      (destruct (startTime (store s first) <=? currentTime) eqn:Hst;
       [apply IH; simpl; lia
       |rewrite Hpeek; intros [= <-]; rewrite Hcb; split; [done|lia]]).
Qed.

(** User code that runs while the ready queue is not empty requests no
    host timer. *)
Lemma quiet_refl s : taskQueue s <> [] -> quiet s s.
Proof. intros H. split; [done|]. exists []. by rewrite app_nil_r. Qed.

Lemma count_events_app f l1 l2 :
  count_events f (l1 ++ l2) = (count_events f l1 + count_events f l2)%nat.
Proof. induction l1 as [|e l1 IH]; simpl; [done|]. case_match; lia. Qed.

Lemma quiet_step s0 s s' added :
  quiet s0 s -> taskQueue s' <> [] -> trace s' = trace s ++ added ->
  count_events is_timer_request added = O -> quiet s0 s'.
Proof.
  intros [_ (added0 & H1 & H2)] Hne Htr Hc. split; [done|].
  exists (added0 ++ added). split.
  - by rewrite Htr, H1, app_assoc.
  - rewrite count_events_app. lia.
Qed.

Lemma push_not_nil sigma heap node : push sigma heap node <> [].
Proof.
  intros H. pose proof (push_perm sigma heap node) as Hp. rewrite H in Hp.
  by apply Permutation_nil_cons in Hp.
Qed.

Lemma run_quiet s0 p s : quiet s0 s -> quiet s0 (run p s).2.
Proof.
  apply (run_preserves (quiet s0)); clear s.
  - intros s ms H. apply (quiet_step s0 s _ []); [done|by destruct H|by rewrite app_nil_r|done].
  - intros s pl cb o H. destruct H as [Hne H]. unfold unstable_scheduleCallback.
    set (st := schedule_startTime o (getCurrentTime s)).
    set (s1 := schedule_newTask pl cb st _ (emit (EvSchedule (nextRef s)) s)).
    assert (Htrace1 : trace s1 = trace s ++ [EvSchedule (nextRef s)])
      by apply (trace_emit (EvSchedule (nextRef s))).
    change (nextRef (emit (EvSchedule (nextRef s)) s)) with (nextRef s).
    destruct (st >? getCurrentTime s); cbn [snd].
    + pose proof (schedule_delayed_spec (nextRef s) st (getCurrentTime s) s1) as Hd.
      cbv zeta in Hd. destruct Hd as (D1 & D2 & D3 & D4 & D5 & D6).
      change (taskQueue s1) with (taskQueue s) in D3, D6.
      rewrite bool_decide_eq_false_2 in D6 by done. simpl in D6.
      destruct D6 as (D6 & _).
      apply (quiet_step s0 s _ [EvSchedule (nextRef s)]); [done|by rewrite D3| |done].
      by rewrite D6.
    + pose proof (schedule_immediate_spec (nextRef s) (st + schedule_timeout pl) s1) as Hd.
      cbv zeta in Hd. destruct Hd as (D1 & D2 & D3 & D4 & D5 & D6).
      destruct (negb (isHostCallbackScheduled s1) && negb (isPerformingWork s1)).
      * destruct D6 as (_ & _ & D6).
        apply (quiet_step s0 s _ [EvSchedule (nextRef s); EvRequestHostCallback]);
          [done|rewrite D2; apply push_not_nil| |done].
        rewrite D6, Htrace1. by rewrite <- app_assoc.
      * destruct D6 as (D6 & _).
        apply (quiet_step s0 s _ [EvSchedule (nextRef s)]);
          [done|rewrite D2; apply push_not_nil| |done].
        by rewrite D6.
  - intros s task H.
    apply (quiet_step s0 s _ [EvCancel task]); [done|by destruct H| |done].
    apply (trace_emit (EvCancel task)).
  - intros s pl H. apply (quiet_step s0 s _ []); [done|by destruct H|by rewrite app_nil_r|done].
  - intros s H. apply (quiet_step s0 s _ []); [done|by destruct H|by rewrite app_nil_r|done].
  - intros s H. unfold unstable_continueExecution. case_match.
    + apply (quiet_step s0 s _ [EvRequestHostCallback]); [done| | |done].
      * unfold requestHostCallback. case_match; by destruct H.
      * by rewrite trace_requestHostCallback.
    + apply (quiet_step s0 s _ []); [done|by destruct H|by rewrite app_nil_r|done].
  - intros s H. unfold requestPaint. case_match; [|done].
    apply (quiet_step s0 s _ []); [done|by destruct H|by rewrite app_nil_r|done].
  - intros s fps H. unfold forceFrameRate. repeat case_match.
    + apply (quiet_step s0 s _ [EvConsoleError]); [done|by destruct H| |done].
      apply (trace_emit EvConsoleError).
    + apply (quiet_step s0 s _ []); [done|by destruct H|by rewrite app_nil_r|done].
    + apply (quiet_step s0 s _ []); [done|by destruct H|by rewrite app_nil_r|done].
Qed.

(** User code leaves the tasks of the ready queue in it, and does not
    assign [currentTask]. *)
Lemma run_keeps_ready r p s : r ∈ taskQueue s -> r ∈ taskQueue (run p s).2.
Proof.
  apply (run_preserves (fun s => r ∈ taskQueue s)); clear s.
  - done.
  - intros s pl cb o H. unfold unstable_scheduleCallback.
    case_match; cbn [snd].
    + match goal with |- context[schedule_delayed ?t ?st ?c ?s1] =>
        pose proof (schedule_delayed_spec t st c s1) as Hd end.
      cbv zeta in Hd. destruct Hd as (_ & _ & -> & _). done.
    + match goal with |- context[schedule_immediate ?t ?ex ?s1] =>
        pose proof (schedule_immediate_spec t ex s1) as Hd end.
      cbv zeta in Hd. destruct Hd as (_ & -> & _). rewrite push_perm.
      by apply list_elem_of_further.
  - done.
  - done.
  - done.
  - intros s H. unfold unstable_continueExecution, requestHostCallback.
    by repeat case_match.
  - intros s H. unfold requestPaint. by case_match.
  - intros s fps H. unfold forceFrameRate. by repeat case_match.
Qed.

Lemma run_currentTask p s : currentTask (run p s).2 = currentTask s.
Proof.
  apply (run_preserves (fun s' => currentTask s' = currentTask s)); [..|done].
  - done.
  - intros s1 pl cb o H. rewrite <- H. by destruct (extends_schedule pl cb o s1).
  - done.
  - done.
  - done.
  - intros s1 H. rewrite <- H. unfold unstable_continueExecution, requestHostCallback.
    by repeat case_match.
  - intros s1 H. rewrite <- H. unfold requestPaint. by case_match.
  - intros s1 fps H. rewrite <- H. unfold forceFrameRate. by repeat case_match.
Qed.

(** One turn of the loop, seen from outside: the events it adds, and the
    time and the clock afterwards. *)
Lemma turn_trace task currentTime s :
  taskQueue s <> [] ->
  match workLoop_turn task currentTime s with
  | TurnDone currentTime' s' =>
      currentTask s' = peek (taskQueue s')
      /\ exists added, trace s' = trace s ++ added
           /\ count_events is_timer_request added = O
           /\ ((count_events is_callback added = O
                /\ currentTime' = currentTime /\ now s' = now s)
               \/ ((0 < count_events is_callback added)%nat /\ currentTime' = now s'))
  | TurnThrow _ => True
  end.
Proof.
  intros Hne.
  destruct (isFunction (callback (store s task))) eqn:Hfun.
  2:{ rewrite workLoop_turn_other by done. split; [done|].
      exists []. rewrite app_nil_r. split; [done|]. split; [done|]. by left. }
  destruct (callback (store s task)) as [|f|] eqn:Hcb; try done.
  rewrite (workLoop_turn_function task currentTime s f Hcb). cbv zeta.
  set (d := expirationTime (store s task) <=? currentTime).
  set (s1 := set_currentPriorityLevel _ (write_callback task CNull (emit (EvCallback task d) s))).
  assert (Htr1 : trace s1 = trace s ++ [EvCallback task d])
    by apply (trace_emit (EvCallback task d)).
  destruct (run_quiet s1 (f d) s1 (quiet_refl s1 Hne)) as [_ (added & Htr2 & Hcount)].
  destruct (run (f d) s1) as [[v|] s2]; cbn [snd] in *; [|done].
  split; [done|].
  exists (EvCallback task d :: added).
  match goal with |- context[advanceTimers ?t ?s3] =>
    destruct (advanceTimers_keeps t s3) as (A1 & A2 & _) end.
  split; [|split; [done|right; split; [simpl; lia|]]].
  - change (trace (set_currentTask ?x ?s0)) with (trace s0). rewrite A1.
    destruct v as [g|].
    + change (trace (write_callback task (CFunction g) s2)) with (trace s2).
      by rewrite Htr2, Htr1, <- app_assoc.
    + case_bool_decide.
      * change (trace (pop_taskQueue s2)) with (trace s2).
        by rewrite Htr2, Htr1, <- app_assoc.
      * by rewrite Htr2, Htr1, <- app_assoc.
  - change (now (set_currentTask ?x ?s0)) with (now s0). rewrite A2.
    destruct v as [g|]; [done|]. by case_bool_decide.
Qed.




End WorkLoopFacts.

Import MinHeap MinHeapFacts InvFacts HistFacts StepFacts ApiFacts LoopFacts ApiSpec RunFacts.
Import ScheduleFacts WorkLoopFacts.



(** C5, as amended: when the work loop dispatches a task, it first sets
    the callback field of the task to [null] and calls the saved callback
    with the one argument [didTimeout = (expirationTime <= currentTime)].
    If the call returns a function, the function is stored in the callback
    field and nothing is popped: the task stays in the ready queue, whose
    head is then the task itself or a task that is not after it. If the
    call returns something else, the task is popped if it is the head of
    the ready queue, and else nothing is popped. *)
Theorem workLoop_turn_spec task currentTime s f :
  callback (store s task) = CFunction f ->
  let didTimeout := expirationTime (store s task) <=? currentTime in
  let s1 := set_currentPriorityLevel (priorityLevel (store s task))
              (write_callback task CNull (emit (EvCallback task didTimeout) s)) in
  callback (store s1 task) = CNull
  /\ trace s1 = trace s ++ [EvCallback task didTimeout]
  /\ match run (f didTimeout) s1 with
     | (Abrupt, s2) => workLoop_turn task currentTime s = TurnThrow s2
     | (Normal (VFunction g), s2) =>
         exists s', workLoop_turn task currentTime s = TurnDone (getCurrentTime s2) s'
           /\ callback (store s' task) = CFunction g
           /\ (forall r, r ∈ taskQueue s2 -> r ∈ taskQueue s')
           /\ (task ∈ taskQueue s -> task ∈ taskQueue s')
           /\ (Good s -> currentTask s = Some task -> peek (taskQueue s) = Some task ->
               exists m, peek (taskQueue s') = Some m /\ ~ before (store s') task m)
     | (Normal VOther, s2) =>
         exists s', workLoop_turn task currentTime s = TurnDone (getCurrentTime s2) s'
           /\ s' = (let s3 := if bool_decide (Some task = peek (taskQueue s2))
                              then pop_taskQueue s2 else s2 in
                    let s4 := advanceTimers (getCurrentTime s2) s3 in
                    set_currentTask (peek (taskQueue s4)) s4)
           /\ (peek (taskQueue s2) = Some task ->
               task :: taskQueue (pop_taskQueue s2) ≡ₚ taskQueue s2)
     end.
Proof.
  intros Hcb. cbv zeta.
  split; [simpl; by rewrite fn_insert_same|].
  split; [apply (trace_emit (EvCallback task _))|].
  pose proof (Good_turn task currentTime s) as Hgood.
  rewrite (workLoop_turn_function task currentTime s f Hcb) in *. cbv zeta in *.
  set (d := expirationTime (store s task) <=? currentTime) in *.
  set (s1 := set_currentPriorityLevel _ (write_callback task CNull (emit (EvCallback task d) s)))
    in *.
  pose proof (run_keeps_ready task (f d) s1) as Hkeep.
  destruct (run (f d) s1) as [[[g|]|] s2]; cbn [snd] in *; [| |done].
  - eexists. split; [reflexivity|].
    destruct (advanceTimers_keeps (getCurrentTime s2) (write_callback task (CFunction g) s2))
      as (_ & _ & A3 & A4).
    assert (Hin : task ∈ taskQueue s -> task ∈
              taskQueue (advanceTimers (getCurrentTime s2) (write_callback task (CFunction g) s2))).
    { intros Hin. apply A4. simpl. by apply Hkeep. }
    split; [|split; [|split; [done|]]].
    + change (store (set_currentTask ?x ?s0)) with (store s0). rewrite A3. simpl.
      by rewrite fn_insert_same.
    + intros r Hr. by apply A4.
    + intros HG Hcur Hpeek. destruct (Hgood HG Hcur Hpeek) as [[HI _] _].
      change (taskQueue (set_currentTask ?x ?s0)) with (taskQueue s0) in *.
      change (store (set_currentTask ?x ?s0)) with (store s0) in *.
      specialize (Hin (peek_elem _ _ Hpeek)).
      destruct (peek (taskQueue (advanceTimers _ _))) as [m|] eqn:Hm.
      * exists m. split; [done|]. intros Hbefore.
        apply (before_not_notAfter _ _ _ Hbefore).
        eapply peek_min; [apply (inv_taskQueue _ HI)|exact Hm|exact Hin].
      * apply peek_None in Hm. rewrite Hm in Hin. by apply elem_of_nil in Hin.
  - eexists. split; [reflexivity|]. split; [reflexivity|].
    intros Hpeek. by apply pop_perm.
Qed.

Lemma workLoop_turn_spec_witness :
  callback (store example_loop_head 0%nat) = CFunction example_yielding
  /\ trace (set_currentPriorityLevel (priorityLevel (store example_loop_head 0%nat))
             (write_callback 0%nat CNull
                (emit (EvCallback 0%nat
                         (expirationTime (store example_loop_head 0%nat) <=? 0))
                   example_loop_head)))
     = trace example_loop_head
       ++ [EvCallback 0%nat (expirationTime (store example_loop_head 0%nat) <=? 0)].
Proof.
  assert (H : callback (store example_loop_head 0%nat) = CFunction example_yielding)
    by (vm_compute; reflexivity).
  split; [exact H|].
  destruct (workLoop_turn_spec 0%nat 0 example_loop_head example_yielding H)
    as (_ & Htrace & _).
  exact Htrace.
Defined.

(** C5, as stated, fails: the callback schedules a task of immediate
    priority and returns a continuation; the continuation is stored and the
    task is not popped, but it is not the head of the ready queue any
    more. *)
Lemma continuation_not_at_head_counterexample :
  callback (store example_loop_head 0%nat) = CFunction example_yielding
  /\ peek (taskQueue example_loop_head) = Some 0%nat
  /\ currentTask example_loop_head = Some 0%nat
  /\ match workLoop_turn 0%nat 0 example_loop_head with
     | TurnDone _ s' =>
         callback (store s' 0%nat) = CFunction example_callback
         /\ taskQueue s' = [1; 0]%nat
         /\ peek (taskQueue s') = Some 1%nat
     | TurnThrow _ => False
     end.
Proof. vm_compute. repeat split. Qed.

(** * The pause flag *)

Module PauseFacts.
Import MinHeap LoopFacts.

Lemma same_but_paused_refl s : same_but_paused s s.
Proof. done. Qed.

Lemma same_but_paused_sym s1 s2 : same_but_paused s1 s2 -> same_but_paused s2 s1.
Proof. unfold same_but_paused. congruence. Qed.

Lemma same_but_paused_trans s1 s2 s3 :
  same_but_paused s1 s2 -> same_but_paused s2 s3 -> same_but_paused s1 s3.
Proof. unfold same_but_paused. congruence. Qed.

Lemma same_but_paused_set b s : same_but_paused s (set_isSchedulerPaused b s).
Proof. by destruct s. Qed.

Lemma same_but_paused_split s1 s2 :
  same_but_paused s1 s2 -> exists b, s2 = set_isSchedulerPaused b s1.
Proof.
  destruct s1, s2. unfold same_but_paused, set_isSchedulerPaused. simpl.
  intros [= -> -> -> -> -> -> -> -> -> -> -> -> -> -> -> -> -> -> -> -> -> ->].
  by eexists.
Qed.

(** An operation that commutes with the assignment of the flag takes
    states that are the same but for the flag to such states. *)
Lemma same_but_paused_congr (op : State -> State) s1 s2 :
  (forall b s, op (set_isSchedulerPaused b s) = set_isSchedulerPaused b (op s)) ->
  same_but_paused s1 s2 -> same_but_paused (op s1) (op s2).
Proof.
  intros Hop [b ->]%same_but_paused_split. rewrite Hop. apply same_but_paused_set.
Qed.

Ltac commute :=
  intros; match goal with s : State |- _ => destruct s end;
  cbv beta delta [requestHostCallback requestHostTimeout cancelHostTimeout
                  schedulePerformWorkUntilDeadline emit snapshot
                  write_callback write_sortIndex push_taskQueue pop_taskQueue
                  push_timerQueue pop_timerQueue requestPaint forceFrameRate
                  unstable_cancelCallback schedule_newTask schedule_delayed
                  schedule_immediate flushWork_finally];
  cbn -[push pop peek Z.add Z.sub Z.div Z.ltb Z.gtb Z.leb];
  repeat case_match; reflexivity.

Lemma paused_set_now b t s :
  set_now t (set_isSchedulerPaused b s) = set_isSchedulerPaused b (set_now t s).
Proof. commute. Qed.

Lemma paused_emit b e s :
  emit e (set_isSchedulerPaused b s) = set_isSchedulerPaused b (emit e s).
Proof. commute. Qed.

Lemma paused_write_callback b task c s :
  write_callback task c (set_isSchedulerPaused b s)
  = set_isSchedulerPaused b (write_callback task c s).
Proof. commute. Qed.

Lemma paused_write_sortIndex b task v s :
  write_sortIndex task v (set_isSchedulerPaused b s)
  = set_isSchedulerPaused b (write_sortIndex task v s).
Proof. commute. Qed.

Lemma paused_push_taskQueue b task s :
  push_taskQueue task (set_isSchedulerPaused b s)
  = set_isSchedulerPaused b (push_taskQueue task s).
Proof. commute. Qed.

Lemma paused_pop_taskQueue b s :
  pop_taskQueue (set_isSchedulerPaused b s) = set_isSchedulerPaused b (pop_taskQueue s).
Proof. commute. Qed.

Lemma paused_pop_timerQueue b s :
  pop_timerQueue (set_isSchedulerPaused b s) = set_isSchedulerPaused b (pop_timerQueue s).
Proof. commute. Qed.

Lemma paused_set_currentTask b t s :
  set_currentTask t (set_isSchedulerPaused b s)
  = set_isSchedulerPaused b (set_currentTask t s).
Proof. commute. Qed.

Lemma paused_set_currentPriorityLevel b pl s :
  set_currentPriorityLevel pl (set_isSchedulerPaused b s)
  = set_isSchedulerPaused b (set_currentPriorityLevel pl s).
Proof. commute. Qed.

Lemma paused_requestHostCallback b s :
  requestHostCallback (set_isSchedulerPaused b s)
  = set_isSchedulerPaused b (requestHostCallback s).
Proof. commute. Qed.

Lemma paused_requestHostTimeout b ms s :
  requestHostTimeout ms (set_isSchedulerPaused b s)
  = set_isSchedulerPaused b (requestHostTimeout ms s).
Proof. commute. Qed.

Lemma paused_cancelHostTimeout b s :
  cancelHostTimeout (set_isSchedulerPaused b s)
  = set_isSchedulerPaused b (cancelHostTimeout s).
Proof. commute. Qed.

Lemma paused_requestPaint b s :
  requestPaint (set_isSchedulerPaused b s) = set_isSchedulerPaused b (requestPaint s).
Proof. commute. Qed.

Lemma paused_forceFrameRate b fps s :
  forceFrameRate fps (set_isSchedulerPaused b s)
  = set_isSchedulerPaused b (forceFrameRate fps s).
Proof. commute. Qed.

Lemma paused_cancelCallback b task s :
  unstable_cancelCallback task (set_isSchedulerPaused b s)
  = set_isSchedulerPaused b (unstable_cancelCallback task s).
Proof. commute. Qed.

Lemma paused_newTask b pl c st et s :
  schedule_newTask pl c st et (set_isSchedulerPaused b s)
  = set_isSchedulerPaused b (schedule_newTask pl c st et s).
Proof. commute. Qed.

Lemma paused_delayed b task st t s :
  schedule_delayed task st t (set_isSchedulerPaused b s)
  = set_isSchedulerPaused b (schedule_delayed task st t s).
Proof. commute. Qed.

Lemma paused_immediate b task et s :
  schedule_immediate task et (set_isSchedulerPaused b s)
  = set_isSchedulerPaused b (schedule_immediate task et s).
Proof. commute. Qed.

Lemma paused_flushWork_finally b pl s :
  flushWork_finally pl (set_isSchedulerPaused b s)
  = set_isSchedulerPaused b (flushWork_finally pl s).
Proof. commute. Qed.

Lemma paused_scheduleCallback b pl c o s :
  unstable_scheduleCallback pl c o (set_isSchedulerPaused b s)
  = ((unstable_scheduleCallback pl c o s).1,
     set_isSchedulerPaused b (unstable_scheduleCallback pl c o s).2).
Proof.
  unfold unstable_scheduleCallback. cbv zeta.
  rewrite paused_emit, paused_newTask.
  change (getCurrentTime (set_isSchedulerPaused b s)) with (getCurrentTime s).
  change (nextRef (set_isSchedulerPaused b s)) with (nextRef s).
  change (nextRef (set_isSchedulerPaused b ?x)) with (nextRef x).
  case_match; simpl; by rewrite ?paused_delayed, ?paused_immediate.
Qed.

(** [unstable_pauseExecution] and [unstable_continueExecution] assign the
    flag and do not read it. *)
Lemma paused_pauseExecution b s :
  unstable_pauseExecution (set_isSchedulerPaused b s) = unstable_pauseExecution s.
Proof. by destruct s. Qed.

Lemma paused_continueExecution b s :
  unstable_continueExecution (set_isSchedulerPaused b s) = unstable_continueExecution s.
Proof. by destruct s. Qed.

Lemma paused_advanceTimers_loop b fuel currentTime : forall s,
  advanceTimers_loop fuel currentTime (set_isSchedulerPaused b s)
  = set_isSchedulerPaused b (advanceTimers_loop fuel currentTime s).
Proof.
  induction fuel as [|fuel IH]; intros s; cbn [advanceTimers_loop]; [done|].
  change (timerQueue (set_isSchedulerPaused b s)) with (timerQueue s).
  change (store (set_isSchedulerPaused b s)) with (store s).
  destruct (peek (timerQueue s)) as [timer|]; [|done].
  assert (Hpop : advanceTimers_loop fuel currentTime
                   (pop_timerQueue (set_isSchedulerPaused b s))
                 = set_isSchedulerPaused b
                     (advanceTimers_loop fuel currentTime (pop_timerQueue s))).
  { by rewrite paused_pop_timerQueue, IH. }
  assert (Hpush : advanceTimers_loop fuel currentTime
            (push_taskQueue timer
               (write_sortIndex timer
                  (expirationTime (store (pop_timerQueue (set_isSchedulerPaused b s)) timer))
                  (pop_timerQueue (set_isSchedulerPaused b s))))
          = set_isSchedulerPaused b
              (advanceTimers_loop fuel currentTime
                 (push_taskQueue timer
                    (write_sortIndex timer
                       (expirationTime (store (pop_timerQueue s) timer))
                       (pop_timerQueue s))))).
  { by rewrite paused_pop_timerQueue, paused_write_sortIndex, paused_push_taskQueue, IH. }
  destruct (callback (store s timer)); [done| |];
    (destruct (startTime (store s timer) <=? currentTime); [exact Hpush|done]).
Qed.

Lemma paused_advanceTimers b currentTime s :
  advanceTimers currentTime (set_isSchedulerPaused b s)
  = set_isSchedulerPaused b (advanceTimers currentTime s).
Proof. apply paused_advanceTimers_loop. Qed.

(** User code: the same completion, and states that are the same but for
    the flag. *)
Lemma run_same_but_paused p : forall s1 s2,
  same_but_paused s1 s2 ->
  (run p s1).1 = (run p s2).1 /\ same_but_paused (run p s1).2 (run p s2).2.
Proof.
  induction p as [| f IHf | | ms k IHk | pl cb IHcb o k IHk | pl isNull o k IHk
                  | task k IHk | pl h IHh k IHk | h IHh k IHk | pl h IHh k IHk
                  | k IHk | k IHk | k IHk | k IHk | k IHk | k IHk | k IHk | fps k IHk];
    intros s1 s2 HR; cbn [run].
  - done.
  - done.
  - done.
  - apply IHk. destruct (same_but_paused_split _ _ HR) as [b ->].
    change (now (set_isSchedulerPaused b s1)) with (now s1).
    rewrite paused_set_now. apply same_but_paused_set.
  - destruct (same_but_paused_split _ _ HR) as [b ->].
    rewrite paused_scheduleCallback.
    destruct (unstable_scheduleCallback pl (CFunction cb) o s1) as [task s1'].
    apply IHk, same_but_paused_set.
  - destruct (same_but_paused_split _ _ HR) as [b ->].
    rewrite paused_scheduleCallback.
    destruct (unstable_scheduleCallback pl _ o s1) as [task s1'].
    apply IHk, same_but_paused_set.
  - apply IHk. apply same_but_paused_congr; [|done].
    intros; apply paused_cancelCallback.
  - unfold unstable_runWithPriority, try_finally_restore.
    destruct (same_but_paused_split _ _ HR) as [b ->].
    change (currentPriorityLevel (set_isSchedulerPaused b s1))
      with (currentPriorityLevel s1).
    rewrite paused_set_currentPriorityLevel.
    match goal with |- context [run h ?x] =>
      destruct (IHh x (set_isSchedulerPaused b x) (same_but_paused_set b x)) as [E1 E2]
    end.
    destruct (run h (set_currentPriorityLevel _ s1)) as [c1 t1],
             (run h (set_isSchedulerPaused b _)) as [c2 t2].
    simpl in E1, E2. subst c2.
    assert (same_but_paused (set_currentPriorityLevel (currentPriorityLevel s1) t1)
                            (set_currentPriorityLevel (currentPriorityLevel s1) t2)).
    { apply same_but_paused_congr; [|done]. intros; apply paused_set_currentPriorityLevel. }
    destruct c1; [by apply IHk|done].
  - unfold unstable_next, try_finally_restore.
    destruct (same_but_paused_split _ _ HR) as [b ->].
    change (currentPriorityLevel (set_isSchedulerPaused b s1))
      with (currentPriorityLevel s1).
    rewrite paused_set_currentPriorityLevel.
    match goal with |- context [run h ?x] =>
      destruct (IHh x (set_isSchedulerPaused b x) (same_but_paused_set b x)) as [E1 E2]
    end.
    destruct (run h (set_currentPriorityLevel _ s1)) as [c1 t1],
             (run h (set_isSchedulerPaused b _)) as [c2 t2].
    simpl in E1, E2. subst c2.
    assert (same_but_paused (set_currentPriorityLevel (currentPriorityLevel s1) t1)
                            (set_currentPriorityLevel (currentPriorityLevel s1) t2)).
    { apply same_but_paused_congr; [|done]. intros; apply paused_set_currentPriorityLevel. }
    destruct c1; [by apply IHk|done].
  - unfold unstable_wrapCallback, try_finally_restore.
    destruct (same_but_paused_split _ _ HR) as [b ->].
    change (currentPriorityLevel (set_isSchedulerPaused b s1))
      with (currentPriorityLevel s1).
    change (currentPriorityLevel (set_currentPriorityLevel pl ?x)) with pl.
    rewrite paused_set_currentPriorityLevel.
    match goal with |- context [run h ?x] =>
      destruct (IHh x (set_isSchedulerPaused b x) (same_but_paused_set b x)) as [E1 E2]
    end.
    destruct (run h (set_currentPriorityLevel _ s1)) as [c1 t1],
             (run h (set_isSchedulerPaused b _)) as [c2 t2].
    simpl in E1, E2. subst c2.
    assert (same_but_paused (set_currentPriorityLevel (currentPriorityLevel s1) t1)
                            (set_currentPriorityLevel (currentPriorityLevel s1) t2)).
    { apply same_but_paused_congr; [|done]. intros; apply paused_set_currentPriorityLevel. }
    destruct c1; [by apply IHk|done].
  - apply IHk. destruct (same_but_paused_split _ _ HR) as [b ->].
    rewrite paused_pauseExecution. apply same_but_paused_refl.
  - apply IHk. destruct (same_but_paused_split _ _ HR) as [b ->].
    rewrite paused_continueExecution. apply same_but_paused_refl.
  - destruct (same_but_paused_split _ _ HR) as [b ->]. by apply IHk.
  - destruct (same_but_paused_split _ _ HR) as [b ->]. by apply IHk.
  - destruct (same_but_paused_split _ _ HR) as [b ->]. by apply IHk.
  - apply IHk. apply same_but_paused_congr; [|done]. intros; apply paused_requestPaint.
  - destruct (same_but_paused_split _ _ HR) as [b ->]. by apply IHk.
  - apply IHk. apply same_but_paused_congr; [|done]. intros; apply paused_forceFrameRate.
Qed.

(** Two turns of the loop are the same but for the flag. *)
Lemma workLoop_turn_same_but_paused task currentTime s1 s2 :
  same_but_paused s1 s2 ->
  match workLoop_turn task currentTime s1, workLoop_turn task currentTime s2 with
  | TurnDone c1 s1', TurnDone c2 s2' => c1 = c2 /\ same_but_paused s1' s2'
  | TurnThrow s1', TurnThrow s2' => same_but_paused s1' s2'
  | _, _ => False
  end.
Proof.
  intros HR. destruct (same_but_paused_split _ _ HR) as [b ->].
  destruct (callback (store s1 task)) as [|f|] eqn:Hcb.
  - assert (Hf : isFunction (callback (store s1 task)) = false) by (by rewrite Hcb).
    rewrite (workLoop_turn_other task currentTime s1 Hf),
            (workLoop_turn_other task currentTime (set_isSchedulerPaused b s1) Hf).
    rewrite paused_pop_taskQueue.
    change (taskQueue (set_isSchedulerPaused b ?x)) with (taskQueue x).
    rewrite paused_set_currentTask. split; [done|apply same_but_paused_set].
  - rewrite (workLoop_turn_function task currentTime s1 f Hcb).
    rewrite (workLoop_turn_function task currentTime (set_isSchedulerPaused b s1) f Hcb).
    cbv zeta.
    change (store (set_isSchedulerPaused b s1)) with (store s1).
    rewrite paused_emit, paused_write_callback, paused_set_currentPriorityLevel.
    match goal with |- context [run ?p (set_isSchedulerPaused b ?x)] =>
      destruct (run_same_but_paused p x (set_isSchedulerPaused b x)
                  (same_but_paused_set b x)) as [E1 E2];
      destruct (run p x) as [c1 t1], (run p (set_isSchedulerPaused b x)) as [c2 t2]
    end.
    simpl in E1, E2. subst c2.
    destruct (same_but_paused_split _ _ E2) as [b' ->].
    destruct c1 as [v|]; [|apply same_but_paused_set].
    change (getCurrentTime (set_isSchedulerPaused b' t1)) with (getCurrentTime t1).
    change (taskQueue (set_isSchedulerPaused b' t1)) with (taskQueue t1).
    split; [done|].
    destruct v as [g|].
    + rewrite paused_write_callback, paused_advanceTimers.
      change (taskQueue (set_isSchedulerPaused b' ?x)) with (taskQueue x).
      rewrite paused_set_currentTask. apply same_but_paused_set.
    + case_bool_decide.
      * rewrite paused_pop_taskQueue, paused_advanceTimers.
        change (taskQueue (set_isSchedulerPaused b' ?x)) with (taskQueue x).
        rewrite paused_set_currentTask. apply same_but_paused_set.
      * rewrite paused_advanceTimers.
        change (taskQueue (set_isSchedulerPaused b' ?x)) with (taskQueue x).
        rewrite paused_set_currentTask. apply same_but_paused_set.
  - assert (Hf : isFunction (callback (store s1 task)) = false) by (by rewrite Hcb).
    rewrite (workLoop_turn_other task currentTime s1 Hf),
            (workLoop_turn_other task currentTime (set_isSchedulerPaused b s1) Hf).
    rewrite paused_pop_taskQueue.
    change (taskQueue (set_isSchedulerPaused b ?x)) with (taskQueue x).
    rewrite paused_set_currentTask. split; [done|apply same_but_paused_set].
Qed.

Lemma forget_paused_set b s :
  forget_paused (set_isSchedulerPaused b s) = forget_paused s.
Proof. by destruct s. Qed.

Lemma workLoop_exit_same_but_paused b currentTime s :
  forget_paused_outcome (Some (workLoop_exit currentTime (set_isSchedulerPaused b s)))
  = forget_paused_outcome (Some (workLoop_exit currentTime s)).
Proof.
  unfold workLoop_exit.
  change (currentTask (set_isSchedulerPaused b s)) with (currentTask s).
  change (timerQueue (set_isSchedulerPaused b s)) with (timerQueue s).
  change (store (set_isSchedulerPaused b s)) with (store s).
  destruct (currentTask s); simpl; [by rewrite forget_paused_set|].
  destruct (peek (timerQueue s)); simpl;
    by rewrite ?paused_requestHostTimeout, forget_paused_set.
Qed.

Lemma workLoop_while_same_but_paused fuel hasTimeRemaining : forall currentTime s1 s2,
  same_but_paused s1 s2 ->
  forget_paused_outcome (workLoop_while fuel hasTimeRemaining currentTime s1)
  = forget_paused_outcome (workLoop_while fuel hasTimeRemaining currentTime s2).
Proof.
  induction fuel as [|fuel IH]; intros currentTime s1 s2 HR;
    rewrite !workLoop_while_unfold;
    destruct (same_but_paused_split _ _ HR) as [b ->];
    change (currentTask (set_isSchedulerPaused b s1)) with (currentTask s1);
    (destruct (currentTask s1) as [task|];
       [|symmetry; apply workLoop_exit_same_but_paused]);
    change (reachedDeadline task hasTimeRemaining currentTime (set_isSchedulerPaused b s1))
      with (reachedDeadline task hasTimeRemaining currentTime s1);
    (destruct (reachedDeadline task hasTimeRemaining currentTime s1);
       [symmetry; apply workLoop_exit_same_but_paused|]); [done|].
  pose proof (workLoop_turn_same_but_paused task currentTime s1 _ HR) as Hturn.
  destruct (workLoop_turn task currentTime s1) as [c1 t1|t1],
           (workLoop_turn task currentTime (set_isSchedulerPaused b s1)) as [c2 t2|t2];
    simpl in Hturn; try done.
  - destruct Hturn as [<- Hturn]. by apply IH.
  - simpl. unfold forget_paused. by rewrite Hturn.
Qed.

Lemma workLoop_same_but_paused fuel hasTimeRemaining initialTime s1 s2 :
  same_but_paused s1 s2 ->
  forget_paused_outcome (workLoop fuel hasTimeRemaining initialTime s1)
  = forget_paused_outcome (workLoop fuel hasTimeRemaining initialTime s2).
Proof.
  intros HR. unfold workLoop. apply workLoop_while_same_but_paused.
  destruct (same_but_paused_split _ _ HR) as [b ->].
  rewrite paused_advanceTimers.
  change (taskQueue (set_isSchedulerPaused b ?x)) with (taskQueue x).
  rewrite paused_set_currentTask. apply same_but_paused_set.
Qed.

End PauseFacts.

Import PauseFacts.

(** C10: in this build [enableSchedulerDebugging] is [false], and
    [workLoop] on a state where [isSchedulerPaused] is [true] gives the same
    result as on the same state where it is [false]: both return, with the
    same value, both throw, or neither ends, and the two states afterwards
    differ in nothing but, at most, the flag itself; so the same callbacks
    are called with the same arguments in the same order.
    [unstable_pauseExecution] sets the flag and does nothing else. *)
Theorem pause_flag_is_inert :
  enableSchedulerDebugging = false
  /\ (forall s, unstable_pauseExecution s = set_isSchedulerPaused true s)
  /\ (forall fuel hasTimeRemaining initialTime s,
        forget_paused_outcome
          (workLoop fuel hasTimeRemaining initialTime (set_isSchedulerPaused true s))
        = forget_paused_outcome
            (workLoop fuel hasTimeRemaining initialTime (set_isSchedulerPaused false s)))
  /\ (forall fuel hasTimeRemaining initialTime s,
        match workLoop fuel hasTimeRemaining initialTime (unstable_pauseExecution s),
              workLoop fuel hasTimeRemaining initialTime s with
        | Some (Returned b1 s1), Some (Returned b2 s2) =>
            b1 = b2 /\ trace s1 = trace s2 /\ same_but_paused s1 s2
        | Some (Threw s1), Some (Threw s2) =>
            trace s1 = trace s2 /\ same_but_paused s1 s2
        | None, None => True
        | _, _ => False
        end).
Proof.
  split; [done|]. split; [done|]. split.
  - intros fuel hasTimeRemaining initialTime s. apply workLoop_same_but_paused.
    eapply same_but_paused_trans; [apply same_but_paused_sym|];
      apply same_but_paused_set.
  - intros fuel hasTimeRemaining initialTime s.
    pose proof (workLoop_same_but_paused fuel hasTimeRemaining initialTime
                  (unstable_pauseExecution s) s
                  (same_but_paused_sym _ _ (same_but_paused_set true s))) as H.
    destruct (workLoop fuel hasTimeRemaining initialTime (unstable_pauseExecution s))
      as [[b1 s1|s1]|],
      (workLoop fuel hasTimeRemaining initialTime s) as [[b2 s2|s2]|];
      cbn [forget_paused_outcome] in H; try discriminate H; [| |done].
    + assert (Hs : forget_paused s1 = forget_paused s2) by congruence.
      assert (Hlog : log s1 = log s2) by exact (f_equal log Hs).
      split; [congruence|]. split; [|exact Hs].
      unfold trace. by rewrite Hlog.
    + assert (Hs : forget_paused s1 = forget_paused s2) by congruence.
      assert (Hlog : log s1 = log s2) by exact (f_equal log Hs).
      split; [|exact Hs].
      unfold trace. by rewrite Hlog.
Qed.

(** * Induction over the runs of the scheduler *)

Module InductionFacts.
Import MinHeap MinHeapFacts InvFacts ApiFacts LoopFacts WorkLoopFacts.

Section Induction.

Variable P : State -> Prop.

(** The steps that change the data of the scheduler. *)
Hypothesis P_frame : forall s s', same_data s s' -> P s -> P s'.
Hypothesis P_now : forall s ms, P s -> P (set_now (now s + Z.of_nat ms) s).
Hypothesis P_emit : forall s e,
  is_callback e = false -> is_timer_request e = false -> P s -> P (emit e s).
Hypothesis P_timer : forall s firstTimer,
  P s -> peek (timerQueue s) = Some firstTimer ->
  now s < startTime (store s firstTimer) ->
  P (emit (EvRequestHostTimeout (startTime (store s firstTimer) - now s)) s).
Hypothesis P_schedule : forall s pl cb o, P s -> P (unstable_scheduleCallback pl cb o s).2.
Hypothesis P_cancel : forall s task, P s -> P (unstable_cancelCallback task s).
Hypothesis P_forceFrameRate : forall s fps, P s -> P (forceFrameRate fps s).
Hypothesis P_dispatch : forall s task f,
  P s -> peek (taskQueue s) = Some task -> callback (store s task) = CFunction f ->
  P (write_callback task CNull
       (emit (EvCallback task (expirationTime (store s task) <=? now s)) s)).
Hypothesis P_continuation : forall s task g, P s -> P (write_callback task (CFunction g) s).
Hypothesis P_pop_ready : forall s task,
  P s -> peek (taskQueue s) = Some task -> P (pop_taskQueue s).
Hypothesis P_pop_pending : forall s timer,
  P s -> peek (timerQueue s) = Some timer -> callback (store s timer) = CNull ->
  P (pop_timerQueue s).
Hypothesis P_promote : forall s timer,
  P s -> peek (timerQueue s) = Some timer -> startTime (store s timer) <= now s ->
  P (push_taskQueue timer
       (write_sortIndex timer (expirationTime (store s timer)) (pop_timerQueue s))).

Ltac framed s0 := apply (P_frame s0); [by repeat split|].

Lemma ind_requestHostCallback s : P s -> P (requestHostCallback s).
Proof.
  intros HP. unfold requestHostCallback.
  case_match; framed (emit EvRequestHostCallback s); by apply P_emit.
Qed.

Lemma ind_requestHostTimeout firstTimer s :
  P s -> peek (timerQueue s) = Some firstTimer ->
  now s < startTime (store s firstTimer) ->
  P (requestHostTimeout (startTime (store s firstTimer) - now s) s).
Proof.
  intros HP Hpeek Hst.
  framed (emit (EvRequestHostTimeout (startTime (store s firstTimer) - now s)) s).
  by apply P_timer.
Qed.

(** After [advanceTimers], the first pending task has not started. *)
Lemma advanceTimers_head s timer :
  peek (timerQueue (advanceTimers (now s) s)) = Some timer ->
  now (advanceTimers (now s) s) < startTime (store (advanceTimers (now s) s) timer).
Proof.
  intros Hpeek.
  destruct (advanceTimers_loop_stops (length (timerQueue s)) (now s) s timer) as [_ H];
    [done|exact Hpeek|].
  destruct (advanceTimers_keeps (now s) s) as (_ & -> & _). exact H.
Qed.

Lemma ind_cancelHostTimeout s : P s -> P (cancelHostTimeout s).
Proof. intros HP. framed (emit EvCancelHostTimeout s). by apply P_emit. Qed.

Lemma ind_run p s : P s -> P (run p s).2.
Proof.
  apply run_preserves; clear s.
  - intros s ms. apply P_now.
  - intros s pl cb o. apply P_schedule.
  - intros s task. apply P_cancel.
  - intros s pl HP. by framed s.
  - intros s HP. by framed s.
  - intros s HP. unfold unstable_continueExecution. case_match; [|by framed s].
    apply ind_requestHostCallback. by framed s.
  - intros s HP. unfold requestPaint. case_match; [by framed s|done].
  - intros s fps. apply P_forceFrameRate.
Qed.

Lemma ind_advanceTimers_loop fuel : forall s,
  P s -> P (advanceTimers_loop fuel (now s) s).
Proof.
  induction fuel as [|fuel IH]; intros s HP; cbn [advanceTimers_loop]; [done|].
  destruct (peek (timerQueue s)) as [timer|] eqn:Hpeek; [|done].
  assert (Hpromote : startTime (store s timer) <= now s ->
            P (advanceTimers_loop fuel (now s)
                 (push_taskQueue timer
                    (write_sortIndex timer (expirationTime (store (pop_timerQueue s) timer))
                       (pop_timerQueue s))))).
  { intros Hst.
    set (s3 := push_taskQueue timer _). change (now s) with (now s3).
    apply IH. exact (P_promote s timer HP Hpeek Hst). }
  destruct (callback (store s timer)) eqn:Hcb.
  - change (now s) with (now (pop_timerQueue s)).
    apply IH. by apply (P_pop_pending s timer).
  - destruct (startTime (store s timer) <=? now s) eqn:Hst; [apply Hpromote; lia|done].
  - destruct (startTime (store s timer) <=? now s) eqn:Hst; [apply Hpromote; lia|done].
Qed.

Lemma ind_advanceTimers s : P s -> P (advanceTimers (now s) s).
Proof. apply ind_advanceTimers_loop. Qed.

Lemma ind_handleTimeout s : P s -> P (handleTimeout (now s) s).
Proof.
  intros HP. unfold handleTimeout.
  set (s1 := set_isHostTimeoutScheduled false s).
  assert (HP1 : P (advanceTimers (now s) s1)).
  { apply (ind_advanceTimers s1). by framed s. }
  pose proof (advanceTimers_head s1) as Hhead.
  change (now s1) with (now s) in Hhead.
  cbv zeta. fold s1.
  assert (Hnow : now (advanceTimers (now s) s1) = now s).
  { by destruct (advanceTimers_keeps (now s) s1) as (_ & -> & _). }
  set (s2 := advanceTimers (now s) s1) in *.
  destruct (negb (isHostCallbackScheduled s2)); [|done].
  destruct (peek (taskQueue s2)).
  - apply ind_requestHostCallback. by framed s2.
  - destruct (peek (timerQueue s2)) as [firstTimer|] eqn:Hpeek; [|done].
    rewrite <- Hnow. apply ind_requestHostTimeout; [done|done|].
    by apply Hhead.
Qed.

Lemma ind_turn task s :
  P s -> peek (taskQueue s) = Some task ->
  (forall timer, peek (timerQueue s) = Some timer -> now s < startTime (store s timer)) ->
  match workLoop_turn task (now s) s with
  | TurnDone currentTime s' =>
      P s' /\ currentTime = now s'
      /\ forall timer, peek (timerQueue s') = Some timer ->
            now s' < startTime (store s' timer)
  | TurnThrow s' => P s'
  end.
Proof.
  intros HP Hpeek Hhead.
  destruct (isFunction (callback (store s task))) eqn:Hfun.
  2:{ rewrite workLoop_turn_other by done. split; [|by split].
      framed (pop_taskQueue s). by apply (P_pop_ready s task). }
  destruct (callback (store s task)) as [|f|] eqn:Hcb; try done.
  rewrite (workLoop_turn_function task (now s) s f Hcb). cbv zeta.
  set (d := expirationTime (store s task) <=? now s).
  set (s1 := set_currentPriorityLevel _ (write_callback task CNull (emit (EvCallback task d) s))).
  assert (HP1 : P s1).
  { framed (write_callback task CNull (emit (EvCallback task d) s)).
    by apply (P_dispatch s task f). }
  pose proof (ind_run (f d) s1 HP1) as HP2.
  destruct (run (f d) s1) as [[v|] s2]; cbn [snd] in HP2; [|done].
  unfold getCurrentTime.
  assert (Hend : forall s3, P s3 -> now s3 = now s2 ->
            P (set_currentTask (peek (taskQueue (advanceTimers (now s2) s3)))
                 (advanceTimers (now s2) s3))
            /\ now s2 = now (set_currentTask (peek (taskQueue (advanceTimers (now s2) s3)))
                               (advanceTimers (now s2) s3))
            /\ forall timer,
                 peek (timerQueue (set_currentTask
                                     (peek (taskQueue (advanceTimers (now s2) s3)))
                                     (advanceTimers (now s2) s3))) = Some timer ->
                 now (set_currentTask (peek (taskQueue (advanceTimers (now s2) s3)))
                        (advanceTimers (now s2) s3))
                 < startTime (store (set_currentTask
                                       (peek (taskQueue (advanceTimers (now s2) s3)))
                                       (advanceTimers (now s2) s3)) timer)).
  { intros s3 HP3 Hnow. split; [|split].
    - framed (advanceTimers (now s2) s3). rewrite <- Hnow. by apply ind_advanceTimers.
    - change (now (set_currentTask ?x ?s0)) with (now s0).
      destruct (advanceTimers_keeps (now s2) s3) as (_ & -> & _). done.
    - intros timer.
      change (timerQueue (set_currentTask ?x ?s0)) with (timerQueue s0).
      change (now (set_currentTask ?x ?s0)) with (now s0).
      change (store (set_currentTask ?x ?s0)) with (store s0).
      rewrite <- Hnow. apply advanceTimers_head. }
  destruct v as [g|].
  - apply Hend; [by apply P_continuation|done].
  - case_bool_decide as Hfirst; [|by apply Hend].
    apply Hend; [|done]. by apply (P_pop_ready s2 task).
Qed.

Lemma ind_workLoop_exit s :
  P s ->
  (forall timer, peek (timerQueue s) = Some timer -> now s < startTime (store s timer)) ->
  P (outcome_state (workLoop_exit (now s) s)).
Proof.
  intros HP Hhead. unfold workLoop_exit.
  destruct (currentTask s); [done|].
  destruct (peek (timerQueue s)) as [firstTimer|] eqn:Hpeek; [|done].
  apply ind_requestHostTimeout; [done|done|by apply Hhead].
Qed.

Lemma ind_workLoop_while fuel hasTimeRemaining : forall s o,
  P s -> currentTask s = peek (taskQueue s) ->
  (forall timer, peek (timerQueue s) = Some timer -> now s < startTime (store s timer)) ->
  workLoop_while fuel hasTimeRemaining (now s) s = Some o ->
  P (outcome_state o).
Proof.
  induction fuel as [|fuel IH]; intros s o HP Hcur Hhead;
    rewrite workLoop_while_unfold; destruct (currentTask s) as [task|] eqn:Htask.
  - case_match; [|done]. intros [= <-]. by apply ind_workLoop_exit.
  - intros [= <-]. by apply ind_workLoop_exit.
  - case_match; [intros [= <-]; by apply ind_workLoop_exit|].
    pose proof (ind_turn task s HP (eq_sym Hcur) Hhead) as Hturn.
    pose proof (turn_trace task (now s) s) as Htrace.
    destruct (workLoop_turn task (now s) s) as [t' s'|s'].
    + destruct Hturn as (HP' & -> & Hhead').
      destruct Htrace as [Hcur' _]; [by intros Hnil; rewrite Hnil in Hcur|].
      by apply IH.
    + by intros [= <-].
  - intros [= <-]. by apply ind_workLoop_exit.
Qed.

Lemma ind_workLoop fuel hasTimeRemaining s o :
  P s -> workLoop fuel hasTimeRemaining (now s) s = Some o -> P (outcome_state o).
Proof.
  intros HP. unfold workLoop.
  set (s1 := set_currentTask _ (advanceTimers (now s) s)).
  assert (Hnow : now s = now s1).
  { unfold s1. change (now (set_currentTask ?x ?s0)) with (now s0).
    by destruct (advanceTimers_keeps (now s) s) as (_ & -> & _). }
  rewrite Hnow. apply ind_workLoop_while; [|done|].
  - framed (advanceTimers (now s) s). by apply ind_advanceTimers.
  - intros timer. unfold s1.
    change (timerQueue (set_currentTask ?x ?s0)) with (timerQueue s0).
    change (now (set_currentTask ?x ?s0)) with (now s0).
    change (store (set_currentTask ?x ?s0)) with (store s0).
    apply advanceTimers_head.
Qed.

Lemma ind_flushWork fuel hasTimeRemaining s o :
  P s -> flushWork fuel hasTimeRemaining (now s) s = Some o -> P (outcome_state o).
Proof.
  intros HP. unfold flushWork.
  set (s1 := set_isPerformingWork true _).
  assert (HP1 : P s1 /\ now s1 = now s).
  { unfold s1. case_match; [|split; [by framed s|done]].
    split; [|done].
    match goal with |- P (set_isPerformingWork _ (cancelHostTimeout ?s0)) =>
      framed (cancelHostTimeout s0); apply ind_cancelHostTimeout; by framed s end. }
  destruct HP1 as [HP1 Hnow]. rewrite <- Hnow.
  destruct (workLoop fuel hasTimeRemaining (now s1) s1) as [[b s2|s2]|] eqn:Hloop;
    [| |done]; intros [= <-];
    pose proof (ind_workLoop _ _ _ _ HP1 Hloop) as HP2; simpl in *; by framed s2.
Qed.

Lemma ind_performWorkUntilDeadline fuel s s' :
  P s -> performWorkUntilDeadline fuel s = Some s' -> P s'.
Proof.
  intros HP. unfold performWorkUntilDeadline.
  destruct (scheduledHostCallback s); [|intros [= <-]; by framed s].
  set (s1 := set_frameStartTime (getCurrentTime s) s).
  assert (HP1 : P s1) by by framed s.
  change (getCurrentTime s) with (now s1).
  destruct (flushWork fuel true (now s1) s1) as [[b s2|s2]|] eqn:Hflush;
    [| |done]; intros [= <-];
    pose proof (ind_flushWork _ _ _ _ HP1 Hflush) as HP2; simpl in HP2.
  - destruct b; by framed s2.
  - by framed s2.
Qed.

Lemma ind_host_step fuel e s s' : P s -> host_step fuel e s = Some s' -> P s'.
Proof.
  intros HP. destruct e as [|timeoutID|ms|p]; cbn [host_step].
  - destruct (messages s) as [|n]; [by intros [= <-]|].
    apply ind_performWorkUntilDeadline. by framed s.
  - case_bool_decide; [|by intros [= <-]]. intros [= <-].
    match goal with |- P (handleTimeout ?t ?s0) =>
      change (P (handleTimeout (now s0) s0)); apply ind_handleTimeout end.
    by framed s.
  - intros [= <-]. by apply P_now.
  - intros [= <-]. by apply ind_run.
Qed.

Lemma ind_host_run fuel es : forall s s',
  P s -> host_run fuel es s = Some s' -> P s'.
Proof.
  induction es as [|e es IH]; intros s s' HP; cbn [host_run]; [by intros [= <-]|].
  destruct (host_step fuel e s) as [s1|] eqn:Hstep; [|done].
  apply IH. by eapply ind_host_step.
Qed.

End Induction.

End InductionFacts.

(** * The task records and the queues in every run *)

Module ShapeFacts.
Import MinHeap MinHeapFacts InvFacts HistFacts StepFacts ApiFacts LoopFacts WorkLoopFacts.
Import InductionFacts.

Lemma Shape_frame s s' :
  store s' = store s -> nextRef s' = nextRef s ->
  taskQueue s' = taskQueue s -> timerQueue s' = timerQueue s ->
  taskIdCounter s' = taskIdCounter s -> now s' = now s ->
  Shape s -> Shape s'.
Proof.
  intros H1 H2 H3 H4 H5 H6 [].
  split; rewrite ?H1, ?H2, ?H3, ?H4, ?H5, ?H6; done.
Qed.

Lemma WellFormed_frame s s' : same_data s s' -> WellFormed s -> WellFormed s'.
Proof.
  intros (H1 & H2 & H3 & H4 & H5 & H6 & H7 & H8) (HI & HS & HL).
  split; [by apply (Inv_frame s)|]. split; [by apply (Shape_frame s)|].
  by rewrite H8.
Qed.

(** What the two writes to a record leave alone. *)
Lemma write_callback_fields task c s r :
  id (store (write_callback task c s) r) = id (store s r)
  /\ priorityLevel (store (write_callback task c s) r) = priorityLevel (store s r)
  /\ startTime (store (write_callback task c s) r) = startTime (store s r)
  /\ expirationTime (store (write_callback task c s) r) = expirationTime (store s r)
  /\ sortIndex (store (write_callback task c s) r) = sortIndex (store s r).
Proof. simpl. unfold insert, fn_insert. case_decide; by subst. Qed.

Lemma write_sortIndex_fields task v s r :
  id (store (write_sortIndex task v s) r) = id (store s r)
  /\ priorityLevel (store (write_sortIndex task v s) r) = priorityLevel (store s r)
  /\ startTime (store (write_sortIndex task v s) r) = startTime (store s r)
  /\ expirationTime (store (write_sortIndex task v s) r) = expirationTime (store s r)
  /\ callback (store (write_sortIndex task v s) r) = callback (store s r)
  /\ sortIndex (store (write_sortIndex task v s) r)
     = if decide (task = r) then v else sortIndex (store s r).
Proof. simpl. unfold insert, fn_insert. case_decide; by subst. Qed.

Lemma Shape_write_callback task c s : Shape s -> Shape (write_callback task c s).
Proof.
  intros [A B C D E]. split.
  - done.
  - intros r Hr. destruct (write_callback_fields task c s r) as (-> & _). by apply B.
  - intros r Hr. destruct (write_callback_fields task c s r) as (_ & -> & -> & -> & _).
    by apply C.
  - intros r Hr. destruct (write_callback_fields task c s r) as (_ & _ & -> & -> & ->).
    by apply D.
  - intros r Hr. destruct (write_callback_fields task c s r) as (_ & _ & -> & _ & ->).
    by apply E.
Qed.

Lemma pop_subset sigma heap r : r ∈ (pop sigma heap).2 -> r ∈ heap.
Proof.
  destruct (peek heap) as [first|] eqn:Hpeek.
  - intros Hr. rewrite <- (pop_perm sigma heap first Hpeek). by apply list_elem_of_further.
  - apply peek_None in Hpeek as ->. done.
Qed.

Lemma Shape_pop_taskQueue s : Shape s -> Shape (pop_taskQueue s).
Proof.
  intros [A B C D E]. split; try done.
  intros r Hr. apply D. by apply (pop_subset (store s)).
Qed.

Lemma Shape_pop_timerQueue s : Shape s -> Shape (pop_timerQueue s).
Proof.
  intros [A B C D E]. split; try done.
  intros r Hr. apply E. by apply (pop_subset (store s)).
Qed.

Lemma Shape_now s ms : Shape s -> Shape (set_now (now s + Z.of_nat ms) s).
Proof.
  intros [A B C D E]. split; try done.
  intros r Hr. destruct (D r Hr) as [D1 D2]. split; [done|]. simpl. lia.
Qed.

(** A timer that fires. *)
Lemma WellFormed_promote s timer :
  WellFormed s -> peek (timerQueue s) = Some timer ->
  startTime (store s timer) <= now s ->
  WellFormed (push_taskQueue timer
                (write_sortIndex timer (expirationTime (store s timer))
                   (pop_timerQueue s))).
Proof.
  intros (HI & HS & HL) Hpeek Hst.
  destruct (Inv_pop_timerQueue s timer HI Hpeek) as [HI1 Hperm1].
  assert (Hnodup : NoDup (taskQueue s ++ timer :: timerQueue (pop_timerQueue s))).
  { rewrite Hperm1. apply (inv_nodup s HI). }
  apply list.NoDup_app in Hnodup as (N1 & N2 & N3).
  apply list.NoDup_cons in N3 as [N3 N4].
  assert (Hfresh : timer ∉ taskQueue (pop_timerQueue s) ++ timerQueue (pop_timerQueue s)).
  { intros Hin. apply elem_of_app in Hin as [Hin|Hin]; [|done].
    apply (N2 timer Hin), list_elem_of_here. }
  assert (Hlt : (timer < nextRef (pop_timerQueue s))%nat).
  { apply (inv_alloc s HI), elem_of_app. right. by apply peek_elem. }
  destruct (Inv_push_taskQueue timer (expirationTime (store s timer)) _ HI1 Hfresh Hlt)
    as [HI2 Hperm2].
  split; [done|]. split; [|done].
  destruct HS as [A B C D E]. split.
  - done.
  - intros r Hr.
    destruct (write_sortIndex_fields timer (expirationTime (store s timer))
                (pop_timerQueue s) r) as (H1 & _).
    change (store (push_taskQueue timer ?x) r) with (store x r).
    rewrite H1. by apply B.
  - intros r Hr.
    destruct (write_sortIndex_fields timer (expirationTime (store s timer))
                (pop_timerQueue s) r) as (_ & H2 & H3 & H4 & _).
    change (store (push_taskQueue timer ?x) r) with (store x r).
    rewrite H2, H3, H4. by apply C.
  - intros r Hr. rewrite Hperm2 in Hr.
    destruct (write_sortIndex_fields timer (expirationTime (store s timer))
                (pop_timerQueue s) r) as (_ & _ & H3 & H4 & _ & H6).
    change (store (push_taskQueue timer ?x) r) with (store x r).
    rewrite H3, H4, H6. change (now (push_taskQueue timer ?x)) with (now s).
    change (store (pop_timerQueue s)) with (store s).
    apply elem_of_cons in Hr as [->|Hr].
    + by rewrite decide_True.
    + case_decide as Heq; [by subst|]. by apply D.
  - intros r Hr.
    destruct (write_sortIndex_fields timer (expirationTime (store s timer))
                (pop_timerQueue s) r) as (_ & _ & H3 & _ & _ & H6).
    change (store (push_taskQueue timer ?x) r) with (store x r).
    rewrite H3, H6. change (store (pop_timerQueue s)) with (store s).
    change (timerQueue (push_taskQueue timer ?x)) with (timerQueue (pop_timerQueue s)) in Hr.
    case_decide as Heq; [by subst|].
    apply E. rewrite <- Hperm1. by apply list_elem_of_further.
Qed.

Ltac each_added :=
  intros;
  repeat match goal with
         | H : _ ∈ _ :: _ |- _ => apply elem_of_cons in H as [->|H]
         | H : _ ∈ [] |- _ => by apply elem_of_nil in H
         end;
  simplify_eq/=; try done; try lia.

(** The data of the state after [unstable_scheduleCallback]: those of the
    state with the new record pushed into one of the queues. *)
Lemma schedule_data pl cb o s :
  let st := schedule_startTime o (now s) in
  let ex := st + schedule_timeout pl in
  let s1 := schedule_newTask pl cb st ex s in
  let s2 := if st >? now s
            then push_timerQueue (nextRef s) (write_sortIndex (nextRef s) st s1)
            else push_taskQueue (nextRef s) (write_sortIndex (nextRef s) ex s1) in
  let s' := (unstable_scheduleCallback pl cb o s).2 in
  store s' = store s2 /\ nextRef s' = nextRef s2
  /\ taskQueue s' = taskQueue s2 /\ timerQueue s' = timerQueue s2
  /\ taskIdCounter s' = taskIdCounter s2 /\ now s' = now s2
  /\ frameInterval s' = frameInterval s2
  /\ exists added, log s' = added ++ log s
       /\ (forall x, x ∈ added -> is_callback x.1 = false)
       /\ (forall x ms, x ∈ added -> x.1 = EvRequestHostTimeout ms -> 0 < ms).
Proof.
  cbv zeta. unfold unstable_scheduleCallback, getCurrentTime.
  set (st := schedule_startTime o (now s)).
  destruct (st >? now s) eqn:Hst; cbn [snd].
  - unfold schedule_delayed.
    set (s2 := push_timerQueue _ _).
    case_match.
    2:{ repeat split; try done. eexists [_]. split; [reflexivity|].
        split; each_added. }
    case_match; (repeat split; try done).
    + eexists [_; _; _]. split; [reflexivity|]. split; each_added.
    + eexists [_; _]. split; [reflexivity|]. split; each_added.
  - unfold schedule_immediate.
    set (s2 := push_taskQueue _ _).
    case_match.
    + unfold requestHostCallback. case_match; (repeat split; try done);
        (eexists [_; _]; split; [reflexivity|]); split; each_added.
    + repeat split; try done. eexists [_]. split; [reflexivity|].
      split; each_added.
Qed.

Lemma Shape_newTask pl cb st s (ready : bool) :
  Inv s -> Shape s -> (ready = true -> st <= now s) ->
  let ex := st + schedule_timeout pl in
  let s1 := write_sortIndex (nextRef s) (if ready then ex else st)
              (schedule_newTask pl cb st ex s) in
  forall s2,
    store s2 = store s1 -> nextRef s2 = nextRef s1 ->
    taskIdCounter s2 = taskIdCounter s1 -> now s2 = now s1 ->
    taskQueue s2 ≡ₚ (if ready then nextRef s :: taskQueue s else taskQueue s) ->
    timerQueue s2 ≡ₚ (if ready then timerQueue s else nextRef s :: timerQueue s) ->
    Shape s2.
Proof.
  intros HI [A B C D E] Hst. cbv zeta. intros s2 H1 H2 H3 H4 H5 H6.
  assert (Hnew : store s2 (nextRef s)
                 = mkTask (taskIdCounter s) cb pl st (st + schedule_timeout pl)
                     (if ready then st + schedule_timeout pl else st)).
  { rewrite H1. simpl. by rewrite !fn_insert_same. }
  assert (Hold : forall r, r <> nextRef s -> store s2 r = store s r).
  { intros r Hr. rewrite H1. simpl. by rewrite !fn_insert_other. }
  assert (Halloc : forall r, r ∈ taskQueue s ++ timerQueue s -> r <> nextRef s).
  { intros r Hr. pose proof (inv_alloc s HI r Hr). lia. }
  split.
  - rewrite H3, H2. simpl. lia.
  - intros r Hr. rewrite H2 in Hr. simpl in Hr.
    destruct (decide (r = nextRef s)) as [->|Hne].
    + rewrite Hnew. simpl. lia.
    + rewrite Hold by done. apply B. lia.
  - intros r Hr. rewrite H2 in Hr. simpl in Hr.
    destruct (decide (r = nextRef s)) as [->|Hne].
    + by rewrite Hnew.
    + rewrite Hold by done. apply C. lia.
  - intros r Hr. rewrite H5 in Hr. rewrite H4. simpl.
    destruct ready.
    + apply elem_of_cons in Hr as [->|Hr].
      * rewrite Hnew. simpl. split; [done|]. by apply Hst.
      * rewrite Hold; [by apply D|]. apply Halloc, elem_of_app. by left.
    + rewrite Hold; [by apply D|]. apply Halloc, elem_of_app. by left.
  - intros r Hr. rewrite H6 in Hr.
    destruct ready.
    + rewrite Hold; [by apply E|]. apply Halloc, elem_of_app. by right.
    + apply elem_of_cons in Hr as [->|Hr].
      * by rewrite Hnew.
      * rewrite Hold; [by apply E|]. apply Halloc, elem_of_app. by right.
Qed.

Lemma WellFormed_schedule pl cb o s :
  WellFormed s -> WellFormed (unstable_scheduleCallback pl cb o s).2.
Proof.
  intros (HI & HS & HL).
  destruct (schedule_data pl cb o s)
    as (H1 & H2 & H3 & H4 & H5 & H6 & H7 & added & Hlog & Hadded & _).
  cbv zeta in *.
  set (st := schedule_startTime o (now s)) in *.
  set (ex := st + schedule_timeout pl) in *.
  set (s1 := schedule_newTask pl cb st ex s) in *.
  pose proof (Inv_newTask pl cb st ex s HI) as HI1. fold s1 in HI1.
  assert (Hfresh : nextRef s ∉ taskQueue s1 ++ timerQueue s1).
  { simpl. intros Hin. pose proof (inv_alloc s HI _ Hin). lia. }
  assert (Hlt : (nextRef s < nextRef s1)%nat) by (simpl; lia).
  split; [|split].
  - destruct (st >? now s).
    + destruct (Inv_push_timerQueue (nextRef s) st s1 HI1 Hfresh Hlt) as [HI2 _].
      by apply (Inv_frame (push_timerQueue (nextRef s) (write_sortIndex (nextRef s) st s1))).
    + destruct (Inv_push_taskQueue (nextRef s) ex s1 HI1 Hfresh Hlt) as [HI2 _].
      by apply (Inv_frame (push_taskQueue (nextRef s) (write_sortIndex (nextRef s) ex s1))).
  - destruct (st >? now s) eqn:Hst.
    + destruct (Inv_push_timerQueue (nextRef s) st s1 HI1 Hfresh Hlt) as [_ Hperm].
      apply (Shape_newTask pl cb st s false HI HS);
        [done|exact H1|exact H2|exact H5|exact H6|by rewrite H3|rewrite H4; exact Hperm].
    + destruct (Inv_push_taskQueue (nextRef s) ex s1 HI1 Hfresh Hlt) as [_ Hperm].
      apply (Shape_newTask pl cb st s true HI HS);
        [intros _; lia|exact H1|exact H2|exact H5|exact H6|rewrite H3; exact Hperm
        |by rewrite H4].
  - intros x task d Hx Hev Hprio. rewrite Hlog in Hx.
    apply elem_of_app in Hx as [Hx|Hx]; [|by eapply HL].
    specialize (Hadded x Hx). by rewrite Hev in Hadded.
Qed.

Lemma WellFormed_dispatch s task f :
  WellFormed s -> peek (taskQueue s) = Some task ->
  callback (store s task) = CFunction f ->
  WellFormed (write_callback task CNull
                (emit (EvCallback task (expirationTime (store s task) <=? now s)) s)).
Proof.
  intros (HI & HS & HL) Hpeek Hcb.
  set (d := expirationTime (store s task) <=? now s).
  split; [|split].
  - apply Inv_write_callback. by apply (Inv_frame s).
  - apply Shape_write_callback. by apply (Shape_frame s).
  - intros x task' d' Hx Hev Hprio. simpl in Hx.
    apply elem_of_cons in Hx as [->|Hx]; [|by eapply HL].
    simpl in Hev, Hprio. injection Hev as <- <-.
    assert (Hin : task ∈ taskQueue s) by by apply peek_elem.
    assert (Hlt : (task < nextRef s)%nat).
    { apply (inv_alloc s HI), elem_of_app. by left. }
    destruct (shape_ready s HS task Hin) as [_ Hst].
    pose proof (shape_expiration s HS task Hlt) as Hex.
    rewrite Hprio in Hex. unfold d. simpl in Hex. unfold IMMEDIATE_PRIORITY_TIMEOUT in Hex.
    lia.
Qed.

(** The steps of the scheduler keep [WellFormed]. *)
Lemma WellFormed_host_run fuel es s s' :
  WellFormed s -> host_run fuel es s = Some s' -> WellFormed s'.
Proof.
  apply (ind_host_run WellFormed).
  - apply WellFormed_frame.
  - intros s0 ms (HI & HS & HL). split; [by apply (Inv_frame s0)|].
    split; [by apply Shape_now|done].
  - intros s0 e He _ (HI & HS & HL). split; [by apply (Inv_frame s0)|].
    split; [by apply (Shape_frame s0)|].
    intros x task d Hx Hev Hprio. simpl in Hx.
    apply elem_of_cons in Hx as [->|Hx]; [|by eapply HL].
    simpl in Hev. by rewrite Hev in He.
  - intros s0 firstTimer (HI & HS & HL) _ _. split; [by apply (Inv_frame s0)|].
    split; [by apply (Shape_frame s0)|].
    intros x task d Hx Hev Hprio. simpl in Hx.
    apply elem_of_cons in Hx as [->|Hx]; [done|by eapply HL].
  - intros s0 pl cb o. apply WellFormed_schedule.
  - intros s0 task (HI & HS & HL). split; [|split].
    + apply Inv_write_callback. by apply (Inv_frame s0).
    + apply Shape_write_callback. by apply (Shape_frame s0).
    + intros x task' d Hx Hev Hprio. simpl in Hx.
      apply elem_of_cons in Hx as [->|Hx]; [done|by eapply HL].
  - intros s0 fps (HI & HS & HL). unfold forceFrameRate.
    repeat case_match; (split; [by apply (Inv_frame s0)|]);
      (split; [by apply (Shape_frame s0)|]); try done.
    intros x task d Hx Hev Hprio. simpl in Hx.
    apply elem_of_cons in Hx as [->|Hx]; [done|by eapply HL].
  - apply WellFormed_dispatch.
  - intros s0 task g (HI & HS & HL). split; [by apply Inv_write_callback|].
    split; [by apply Shape_write_callback|done].
  - intros s0 task (HI & HS & HL) Hpeek.
    destruct (Inv_pop_taskQueue s0 task HI Hpeek) as [HI' _].
    split; [done|]. split; [by apply Shape_pop_taskQueue|done].
  - intros s0 timer (HI & HS & HL) Hpeek _.
    destruct (Inv_pop_timerQueue s0 timer HI Hpeek) as [HI' _].
    split; [done|]. split; [by apply Shape_pop_timerQueue|done].
  - apply WellFormed_promote.
Qed.

Lemma WellFormed_initial time : WellFormed (initial time).
Proof.
  split; [apply Inv_initial|]. split.
  - split; simpl; try done; try (intros r Hr; lia);
      intros r Hr; by apply elem_of_nil in Hr.
  - intros x task d Hx. by apply elem_of_nil in Hx.
Qed.

Lemma reachable_WellFormed time fuel es s :
  host_run fuel es (initial time) = Some s -> WellFormed s.
Proof. apply WellFormed_host_run, WellFormed_initial. Qed.


(** The delays of the host timers. *)
Lemma positive_timers_cons e snap l :
  is_timer_request e = false -> positive_timers l -> positive_timers ((e, snap) :: l).
Proof.
  intros He Hl x ms Hx Hev. apply elem_of_cons in Hx as [->|Hx]; [|by eapply Hl].
  simpl in Hev. by rewrite Hev in He.
Qed.

Lemma reachable_positive_timers time fuel es s :
  host_run fuel es (initial time) = Some s -> positive_timers (log s).
Proof.
  apply (ind_host_run (fun s => positive_timers (log s))).
  - intros s0 s' (_ & _ & _ & _ & _ & _ & _ & H). by rewrite H.
  - done.
  - intros s0 e _ He. by apply positive_timers_cons.
  - intros s0 firstTimer Hl _ Hst x ms Hx Hev. simpl in Hx.
    apply elem_of_cons in Hx as [->|Hx]; [|by eapply Hl].
    simpl in Hev. injection Hev as <-. lia.
  - intros s0 pl cb o Hl.
    destruct (schedule_data pl cb o s0) as (_ & _ & _ & _ & _ & _ & _ & added & Hlog & _ & Hpos).
    cbv zeta in Hlog. rewrite Hlog. intros x ms Hx Hev.
    apply elem_of_app in Hx as [Hx|Hx]; [by eapply Hpos|by eapply Hl].
  - intros s0 task. by apply positive_timers_cons.
  - intros s0 fps Hl. unfold forceFrameRate. repeat case_match; try done.
    by apply positive_timers_cons.
  - intros s0 task f Hl _ _. by apply positive_timers_cons.
  - done.
  - done.
  - done.
  - done.
  - intros x ms Hx. by apply elem_of_nil in Hx.
Qed.

End ShapeFacts.

(** * The flags and the host *)

Module HostFacts.
Import MinHeap MinHeapFacts InvFacts ApiFacts LoopFacts WorkLoopFacts.

Lemma host_untouched_refl s : host_untouched s s.
Proof. by repeat split. Qed.

Lemma host_untouched_trans s1 s2 s3 :
  host_untouched s1 s2 -> host_untouched s2 s3 -> host_untouched s1 s3.
Proof.
  intros (A1 & A2 & A3 & A4 & A5 & A6 & A7 & A8 & A9)
         (B1 & B2 & B3 & B4 & B5 & B6 & B7 & B8 & B9).
  repeat split; congruence.
Qed.

Lemma peek_not_nil heap : heap <> [] -> peek heap <> None.
Proof. intros Hne Hpeek. by apply peek_None in Hpeek. Qed.

Lemma advanceTimers_loop_host fuel currentTime : forall s,
  host_untouched s (advanceTimers_loop fuel currentTime s).
Proof.
  induction fuel as [|fuel IH]; intros s; cbn [advanceTimers_loop];
    [apply host_untouched_refl|].
  repeat case_match; try apply host_untouched_refl.
  - eapply host_untouched_trans; [|apply IH]. by repeat split.
  - eapply host_untouched_trans; [|apply IH]. by repeat split.
  - eapply host_untouched_trans; [|apply IH]. by repeat split.
Qed.

Lemma advanceTimers_host currentTime s : host_untouched s (advanceTimers currentTime s).
Proof. apply advanceTimers_loop_host. Qed.

(** While work is performed and the ready queue is not empty, a call of
    [unstable_scheduleCallback] does not reach the host. *)
Lemma schedule_working pl cb o s :
  isPerformingWork s = true -> taskQueue s <> [] ->
  host_untouched s (unstable_scheduleCallback pl cb o s).2
  /\ taskQueue (unstable_scheduleCallback pl cb o s).2 <> [].
Proof.
  intros Hwork Hready. unfold unstable_scheduleCallback.
  case_match; cbn [snd].
  - unfold schedule_delayed.
    match goal with |- context [bool_decide (peek (taskQueue ?s2) = None)] =>
      change (taskQueue s2) with (taskQueue s) end.
    rewrite (bool_decide_eq_false_2 (peek (taskQueue s) = None)) by by apply peek_not_nil.
    cbn [andb]. split; [by repeat split|done].
  - unfold schedule_immediate.
    match goal with |- context [isPerformingWork ?s2] =>
      change (isPerformingWork s2) with (isPerformingWork s) end.
    rewrite Hwork, andb_false_r. split; [by repeat split|]. apply push_not_nil.
Qed.

(** While work is performed and the ready queue is not empty, user code
    does not reach the host. *)
Lemma run_working p s :
  isPerformingWork s = true -> taskQueue s <> [] ->
  host_untouched s (run p s).2 /\ taskQueue (run p s).2 <> [].
Proof.
  intros Hwork Hready.
  apply (run_preserves (fun s' => host_untouched s s' /\ taskQueue s' <> []));
    [| | | | | | | |split; [apply host_untouched_refl|done]].
  - intros s1 ms [H1 H2]. split; [|done].
    eapply host_untouched_trans; [exact H1|by repeat split].
  - intros s1 pl cb o [H1 H2].
    destruct (schedule_working pl cb o s1) as [H3 H4]; [|done|].
    { destruct H1 as (-> & _). done. }
    split; [|done]. by eapply host_untouched_trans.
  - intros s1 task [H1 H2]. split; [|done].
    eapply host_untouched_trans; [exact H1|by repeat split].
  - intros s1 pl [H1 H2]. split; [|done].
    eapply host_untouched_trans; [exact H1|by repeat split].
  - intros s1 [H1 H2]. split; [|done].
    eapply host_untouched_trans; [exact H1|by repeat split].
  - intros s1 [H1 H2]. unfold unstable_continueExecution.
    change (isPerformingWork (set_isSchedulerPaused false s1)) with (isPerformingWork s1).
    destruct H1 as (E1 & E). rewrite E1, Hwork, andb_false_r.
    split; [|done]. repeat split; try done; apply E.
  - intros s1 [H1 H2]. unfold requestPaint. case_match; [|done]. split; [|done].
    eapply host_untouched_trans; [exact H1|by repeat split].
  - intros s1 fps [H1 H2]. unfold forceFrameRate.
    repeat case_match; (split; [|done]);
      (eapply host_untouched_trans; [exact H1|by repeat split]).
Qed.

(** One turn of the loop does not reach the host. *)
Lemma turn_working task currentTime s :
  isPerformingWork s = true -> peek (taskQueue s) = Some task ->
  match workLoop_turn task currentTime s with
  | TurnDone _ s' => host_untouched s s'
  | TurnThrow s' => host_untouched s s'
  end.
Proof.
  intros Hwork Hpeek.
  destruct (isFunction (callback (store s task))) eqn:Hfun.
  2:{ rewrite workLoop_turn_other by done. by repeat split. }
  destruct (callback (store s task)) as [|f|] eqn:Hcb; try done.
  rewrite (workLoop_turn_function task currentTime s f Hcb). cbv zeta.
  set (d := expirationTime (store s task) <=? currentTime).
  set (s1 := set_currentPriorityLevel _ (write_callback task CNull (emit (EvCallback task d) s))).
  assert (Hready : taskQueue s1 <> []).
  { simpl. intros Hnil. by rewrite Hnil in Hpeek. }
  destruct (run_working (f d) s1 Hwork Hready) as [H1 _].
  assert (H01 : host_untouched s s1) by by repeat split.
  destruct (run (f d) s1) as [[v|] s2]; cbn [snd] in H1;
    [|by eapply host_untouched_trans].
  assert (Hend : forall s3, host_untouched s2 s3 ->
            host_untouched s
              (set_currentTask (peek (taskQueue (advanceTimers (getCurrentTime s2) s3)))
                 (advanceTimers (getCurrentTime s2) s3))).
  { intros s3 H23.
    eapply host_untouched_trans; [exact H01|].
    eapply host_untouched_trans; [exact H1|].
    eapply host_untouched_trans; [exact H23|].
    eapply host_untouched_trans; [apply (advanceTimers_host (getCurrentTime s2))|].
    by repeat split. }
  destruct v as [g|]; [apply Hend; by repeat split|].
  case_bool_decide; apply Hend; by repeat split.
Qed.

(** The loop of [workLoop]: how it leaves the flags and the host. *)
Lemma workLoop_while_working fuel hasTimeRemaining : forall currentTime s o,
  isPerformingWork s = true -> currentTask s = peek (taskQueue s) ->
  workLoop_while fuel hasTimeRemaining currentTime s = Some o ->
  isPerformingWork (outcome_state o) = true
  /\ isHostCallbackScheduled (outcome_state o) = isHostCallbackScheduled s
  /\ isHostTimeoutScheduled (outcome_state o) = isHostTimeoutScheduled s
  /\ isMessageLoopRunning (outcome_state o) = isMessageLoopRunning s
  /\ scheduledHostCallback (outcome_state o) = scheduledHostCallback s
  /\ messages (outcome_state o) = messages s
  /\ match o with
     | Returned true s' => taskQueue s' <> [] /\ timeouts s' = timeouts s
     | Returned false s' =>
         taskQueue s' = [] /\ (timerQueue s' <> [] -> timeouts s' <> [])
     | Threw s' => timeouts s' = timeouts s
     end.
Proof.
  assert (Hexit : forall currentTime s,
    isPerformingWork s = true -> currentTask s = peek (taskQueue s) ->
    let o := workLoop_exit currentTime s in
    isPerformingWork (outcome_state o) = true
    /\ isHostCallbackScheduled (outcome_state o) = isHostCallbackScheduled s
    /\ isHostTimeoutScheduled (outcome_state o) = isHostTimeoutScheduled s
    /\ isMessageLoopRunning (outcome_state o) = isMessageLoopRunning s
    /\ scheduledHostCallback (outcome_state o) = scheduledHostCallback s
    /\ messages (outcome_state o) = messages s
    /\ match o with
       | Returned true s' => taskQueue s' <> [] /\ timeouts s' = timeouts s
       | Returned false s' =>
           taskQueue s' = [] /\ (timerQueue s' <> [] -> timeouts s' <> [])
       | Threw s' => timeouts s' = timeouts s
       end).
  { intros currentTime s Hwork Hcur. cbv zeta. unfold workLoop_exit.
    destruct (currentTask s) as [task|] eqn:Htask.
    - repeat split; try done. intros Hnil. by rewrite Hnil in Hcur.
    - symmetry in Hcur. apply peek_None in Hcur.
      destruct (peek (timerQueue s)) as [firstTimer|] eqn:Htimer.
      + repeat split; try done. intros _. simpl. by destruct (timeouts s).
      + repeat split; try done. intros Hne. by apply peek_None in Htimer. }
  induction fuel as [|fuel IH]; intros currentTime s o Hwork Hcur;
    rewrite workLoop_while_unfold; destruct (currentTask s) as [task|] eqn:Htask.
  - case_match; [|done]. intros [= <-]. apply Hexit; [done|]. by rewrite Htask.
  - intros [= <-]. apply Hexit; [done|]. by rewrite Htask.
  - case_match; [intros [= <-]; apply Hexit; [done|]; by rewrite Htask|].
    pose proof (turn_working task currentTime s Hwork (eq_sym Hcur)) as Hturn.
    pose proof (turn_trace task currentTime s) as Htrace.
    destruct (workLoop_turn task currentTime s) as [t' s'|s'].
    + destruct Htrace as [Hcur' _]; [by intros Hnil; rewrite Hnil in Hcur|].
      destruct Hturn as (E1 & E2 & E3 & E4 & E5 & E6 & E7 & E8 & E9).
      intros Hrun. apply IH in Hrun; [|congruence|done].
      destruct Hrun as (R1 & R2 & R3 & R4 & R5 & R6 & R7).
      repeat split; try congruence.
      destruct o as [[|] s''|s'']; [destruct R7; split| |]; congruence.
    + intros [= <-]. destruct Hturn as (E1 & E2 & E3 & E4 & E5 & E6 & E7 & E8 & E9).
      simpl. repeat split; congruence.
  - intros [= <-]. apply Hexit; [done|]. by rewrite Htask.
Qed.

Lemma Awake_frame s s' :
  isPerformingWork s' = isPerformingWork s -> messages s' = messages s ->
  isMessageLoopRunning s' = isMessageLoopRunning s ->
  isHostCallbackScheduled s' = isHostCallbackScheduled s ->
  scheduledHostCallback s' = scheduledHostCallback s ->
  taskQueue s' = taskQueue s -> timerQueue s' = timerQueue s ->
  timeouts s' = timeouts s ->
  Awake s -> Awake s'.
Proof.
  intros H1 H2 H3 H4 H5 H6 H7 H8 [].
  split; rewrite ?H1, ?H2, ?H3, ?H4, ?H5, ?H6, ?H7, ?H8; done.
Qed.

Lemma Awake_from s0 s :
  Awake s0 ->
  isPerformingWork s = isPerformingWork s0 -> messages s = messages s0 ->
  isMessageLoopRunning s = isMessageLoopRunning s0 ->
  isHostCallbackScheduled s = isHostCallbackScheduled s0 ->
  scheduledHostCallback s = scheduledHostCallback s0 ->
  (taskQueue s <> [] -> scheduledHostCallback s = true /\ isMessageLoopRunning s = true) ->
  (timerQueue s <> [] ->
   (scheduledHostCallback s = true /\ isMessageLoopRunning s = true) \/ timeouts s <> []) ->
  Awake s.
Proof.
  intros [A1 A2 A3 A4 A5 A6] H1 H2 H3 H4 H5 H6 H7.
  split; rewrite ?H1, ?H2, ?H3, ?H4, ?H5; try done.
  - by rewrite <- H5, <- H3.
  - by rewrite <- H5, <- H3.
Qed.

(** [requestHostCallback] in a state where no work is performed. *)
Lemma Awake_requestHostCallback s s0 :
  Awake s0 ->
  isPerformingWork s = isPerformingWork s0 -> messages s = messages s0 ->
  isMessageLoopRunning s = isMessageLoopRunning s0 ->
  Awake (requestHostCallback s).
Proof.
  intros [A1 A2 A3 A4 A5 A6] H1 H2 H3. unfold requestHostCallback.
  change (isMessageLoopRunning (set_scheduledHostCallback true (emit EvRequestHostCallback s)))
    with (isMessageLoopRunning s).
  destruct (isMessageLoopRunning s) eqn:Hloop; simpl.
  - assert (messages s = 1%nat) by (rewrite H2; apply A3; congruence).
    split; simpl; try done; try congruence; try lia; auto.
  - assert (messages s = 0%nat).
    { rewrite H2. destruct (messages s0) as [|[|n]]; [done| |lia].
      assert (isMessageLoopRunning s0 = true) by by apply A3. congruence. }
    split; simpl; try done; try congruence; try lia; auto.
Qed.

Lemma push_nil sigma node : push sigma [] node = [node].
Proof. reflexivity. Qed.

Lemma Awake_schedule pl cb o s :
  Awake s -> Awake (unstable_scheduleCallback pl cb o s).2.
Proof.
  intros HA. pose proof HA as [A1 A2 A3 A4 A5 A6].
  unfold unstable_scheduleCallback.
  case_match; cbn [snd].
  - unfold schedule_delayed.
    set (s2 := push_timerQueue _ _).
    assert (HA2 : isPerformingWork s2 = false /\ (messages s2 <= 1)%nat
                  /\ (isMessageLoopRunning s2 = true <-> messages s2 = 1%nat)
                  /\ (isHostCallbackScheduled s2 = true ->
                      scheduledHostCallback s2 = true /\ isMessageLoopRunning s2 = true)
                  /\ (taskQueue s2 <> [] ->
                      scheduledHostCallback s2 = true /\ isMessageLoopRunning s2 = true))
      by done.
    destruct HA2 as (B1 & B2 & B3 & B4 & B5).
    destruct (bool_decide (peek (taskQueue s2) = None)) eqn:Hready; cbn [andb].
    + apply bool_decide_eq_true in Hready.
      destruct (bool_decide (peek (timerQueue s2) = Some (nextRef (emit (EvSchedule (nextRef s)) s))))
        eqn:Hhead.
      * case_match; (split; simpl; try done; intros _; right;
          match goal with |- ?l ++ _ <> [] => by destruct l end).
      * split; try done. intros _.
        apply A6. intros Hnil. apply bool_decide_eq_false in Hhead. apply Hhead.
        unfold s2. simpl. rewrite Hnil. reflexivity.
    + apply bool_decide_eq_false in Hready.
      split; try done. intros _. left. apply B5. intros Hnil. apply Hready.
      by rewrite Hnil.
  - unfold schedule_immediate.
    set (s2 := push_taskQueue _ _).
    change (isHostCallbackScheduled s2) with (isHostCallbackScheduled s).
    change (isPerformingWork s2) with (isPerformingWork s).
    rewrite A1. cbn [negb]. rewrite andb_true_r.
    destruct (isHostCallbackScheduled s) eqn:Hsched; cbn [negb].
    + destruct (A4 eq_refl) as [C1 C2].
      split; simpl; try done; auto.
    + apply (Awake_requestHostCallback _ s); done.
Qed.

Lemma Awake_continueExecution s : Awake s -> Awake (unstable_continueExecution s).
Proof.
  intros HA. unfold unstable_continueExecution.
  case_match; [|by apply (Awake_frame s)].
  apply (Awake_requestHostCallback _ s); done.
Qed.

Lemma Awake_run p s : Awake s -> Awake (run p s).2.
Proof.
  apply run_preserves; clear s.
  - intros s ms HA. by apply (Awake_frame s).
  - intros s pl cb o. apply Awake_schedule.
  - intros s task HA. by apply (Awake_frame s).
  - intros s pl HA. by apply (Awake_frame s).
  - intros s HA. by apply (Awake_frame s).
  - intros s. apply Awake_continueExecution.
  - intros s HA. unfold requestPaint. case_match; [|done]. by apply (Awake_frame s).
  - intros s fps HA. unfold forceFrameRate. repeat case_match; by apply (Awake_frame s).
Qed.

(** [handleTimeout] sets up what the tasks in the queues need, whatever
    timers there were. *)
Lemma Awake_handleTimeout currentTime l s :
  Awake s -> Awake (handleTimeout currentTime (set_timeouts l s)).
Proof.
  intros HA. pose proof HA as [A1 A2 A3 A4 A5 A6]. unfold handleTimeout.
  set (s1 := set_isHostTimeoutScheduled false (set_timeouts l s)).
  pose proof (advanceTimers_host currentTime s1) as (E1 & E2 & E3 & E4 & E5 & E6 & E7 & E8 & E9).
  set (s2 := advanceTimers currentTime s1) in *.
  simpl in E1, E2, E3, E4, E5, E6, E7, E8, E9.
  destruct (isHostCallbackScheduled s2) eqn:Hsched; cbn [negb].
  - assert (Hs : isHostCallbackScheduled s = true) by congruence.
    destruct (A4 Hs) as [C1 C2].
    apply (Awake_from s); try done; try congruence.
    + intros _. split; congruence.
    + intros _. left. split; congruence.
  - destruct (peek (taskQueue s2)) as [task|] eqn:Hpeek.
    + apply (Awake_requestHostCallback _ s); [done|simpl; congruence..].
    + apply peek_None in Hpeek.
      destruct (peek (timerQueue s2)) as [firstTimer|] eqn:Htimer.
      * apply (Awake_from s); try done; simpl; try congruence.
        intros _. right. by destruct (timeouts s2).
      * apply peek_None in Htimer.
        apply (Awake_from s); try done; congruence.
Qed.

Lemma workLoop_working fuel hasTimeRemaining initialTime s o :
  isPerformingWork s = true ->
  workLoop fuel hasTimeRemaining initialTime s = Some o ->
  isPerformingWork (outcome_state o) = true
  /\ isHostCallbackScheduled (outcome_state o) = isHostCallbackScheduled s
  /\ isHostTimeoutScheduled (outcome_state o) = isHostTimeoutScheduled s
  /\ isMessageLoopRunning (outcome_state o) = isMessageLoopRunning s
  /\ scheduledHostCallback (outcome_state o) = scheduledHostCallback s
  /\ messages (outcome_state o) = messages s
  /\ match o with
     | Returned true s' => taskQueue s' <> [] /\ timeouts s' = timeouts s
     | Returned false s' =>
         taskQueue s' = [] /\ (timerQueue s' <> [] -> timeouts s' <> [])
     | Threw s' => timeouts s' = timeouts s
     end.
Proof.
  intros Hwork. unfold workLoop.
  pose proof (advanceTimers_host initialTime s) as (E1 & E2 & E3 & E4 & E5 & E6 & E7 & E8 & E9).
  intros Hrun. apply workLoop_while_working in Hrun; [|simpl; congruence|done].
  simpl in Hrun. destruct Hrun as (R1 & R2 & R3 & R4 & R5 & R6 & R7).
  repeat split; try congruence.
  destruct o as [[|] s'|s']; [destruct R7; split| |]; congruence.
Qed.

(** How [flushWork] leaves the flags and the host. *)
Lemma flushWork_flags fuel hasTimeRemaining initialTime s o :
  flushWork fuel hasTimeRemaining initialTime s = Some o ->
  isPerformingWork (outcome_state o) = false
  /\ currentTask (outcome_state o) = None
  /\ isHostCallbackScheduled (outcome_state o) = false
  /\ isHostTimeoutScheduled (outcome_state o) = false
  /\ isMessageLoopRunning (outcome_state o) = isMessageLoopRunning s
  /\ scheduledHostCallback (outcome_state o) = scheduledHostCallback s
  /\ messages (outcome_state o) = messages s
  /\ match o with
     | Returned true s' => taskQueue s' <> []
     | Returned false s' =>
         taskQueue s' = [] /\ (timerQueue s' <> [] -> timeouts s' <> [])
     | Threw s' => True
     end.
Proof.
  unfold flushWork.
  set (s1 := set_isPerformingWork true _).
  assert (H1 : isPerformingWork s1 = true /\ isHostCallbackScheduled s1 = false
               /\ isHostTimeoutScheduled s1 = false
               /\ isMessageLoopRunning s1 = isMessageLoopRunning s
               /\ scheduledHostCallback s1 = scheduledHostCallback s
               /\ messages s1 = messages s).
  { unfold s1. destruct (isHostTimeoutScheduled _) eqn:Hlatch; by repeat split. }
  destruct H1 as (B1 & B2 & B3 & B4 & B5 & B6).
  destruct (workLoop fuel hasTimeRemaining initialTime s1) as [[b s2|s2]|] eqn:Hloop;
    [| |done]; intros [= <-];
    destruct (workLoop_working _ _ _ _ _ B1 Hloop) as (R1 & R2 & R3 & R4 & R5 & R6 & R7);
    simpl in *; repeat split; try congruence.
  destruct b; [by destruct R7|done].
Qed.

Lemma Awake_performWorkUntilDeadline fuel s s' :
  Awake s -> messages s = 1%nat ->
  performWorkUntilDeadline fuel (set_messages 0 s) = Some s' -> Awake s'.
Proof.
  intros HA Hmsg. pose proof HA as [A1 A2 A3 A4 A5 A6]. unfold performWorkUntilDeadline.
  assert (Hloop : isMessageLoopRunning s = true) by by apply A3.
  change (scheduledHostCallback (set_messages 0 s)) with (scheduledHostCallback s).
  destruct (scheduledHostCallback s) eqn:Hcb.
  2:{ intros [= <-]. split; simpl; try done.
      - lia.
      - intros Hs. by destruct (A4 Hs).
      - intros Hr. by destruct (A5 Hr).
      - intros Hp. destruct (A6 Hp) as [[? ?]|?]; [done|by right]. }
  set (s1 := set_frameStartTime _ _).
  destruct (flushWork fuel true (getCurrentTime (set_messages 0 s)) s1)
    as [[b s2|s2]|] eqn:Hflush; [| |done]; intros [= <-];
    destruct (flushWork_flags _ _ _ _ _ Hflush) as (R1 & R2 & R3 & R4 & R5 & R6 & R7 & R8);
    simpl in R1, R2, R3, R4, R5, R6, R7, R8.
  - destruct b.
    + split; simpl; try done.
      * rewrite R7. lia.
      * rewrite R5, R7. done.
      * intros _. split; congruence.
      * intros _. split; congruence.
      * intros _. left. split; congruence.
    + destruct R8 as [R8 R9]. split; simpl.
      * done.
      * rewrite R7. lia.
      * rewrite R7. done.
      * rewrite R3. done.
      * intros Hr. done.
      * intros Hp. right. by apply R9.
  - split; simpl; try done.
    + rewrite R7. lia.
    + rewrite R5, R7. done.
    + intros _. split; congruence.
    + intros _. split; congruence.
    + intros _. left. split; congruence.
Qed.

Lemma Awake_host_step fuel e s s' : Awake s -> host_step fuel e s = Some s' -> Awake s'.
Proof.
  intros HA. destruct e as [|timeoutID|ms|p]; cbn [host_step].
  - destruct (messages s) as [|n] eqn:Hmsg; [by intros [= <-]|].
    assert (n = 0%nat) as -> by (pose proof (awake_messages s HA); lia).
    by apply Awake_performWorkUntilDeadline.
  - case_bool_decide; [|by intros [= <-]]. intros [= <-].
    by apply Awake_handleTimeout.
  - intros [= <-]. by apply (Awake_frame s).
  - intros [= <-]. by apply Awake_run.
Qed.

Lemma Awake_host_run fuel es : forall s s',
  Awake s -> host_run fuel es s = Some s' -> Awake s'.
Proof.
  induction es as [|e es IH]; intros s s' HA; cbn [host_run]; [by intros [= <-]|].
  destruct (host_step fuel e s) as [s1|] eqn:Hstep; [|done].
  apply IH. by eapply Awake_host_step.
Qed.

Lemma Awake_initial time : Awake (initial time).
Proof. split; simpl; try done; lia. Qed.

Lemma reachable_Awake time fuel es s :
  host_run fuel es (initial time) = Some s -> Awake s.
Proof. apply Awake_host_run, Awake_initial. Qed.

End HostFacts.

(** * More on the heap, the timers, the loop and the API *)

Module HeapMore.
Import MinHeap MinHeapFacts InvFacts.

Section WithStore.
Variable sigma : Store.

Lemma peek_lookup (heap : list ref) : peek heap = heap !! 0%nat.
Proof. by destruct heap. Qed.

(** [siftUp] leaves the root alone unless the node reaches it. *)
Lemma siftUp_loop_root fuel : forall heap node index m,
  heap !! 0%nat = Some m -> (0 < index < length heap)%nat ->
  heap !!! index = node ->
  siftUp_loop sigma fuel heap node index !! 0%nat = Some m
  \/ (siftUp_loop sigma fuel heap node index !! 0%nat = Some node
      /\ 0 < compare sigma m node).
Proof.
  induction fuel as [|fuel IH]; intros heap node index m Hroot Hidx Hnode;
    cbn [siftUp_loop]; [by left|].
  replace (0 <? index)%nat with true by (symmetry; apply Nat.ltb_lt; lia).
  rewrite shiftr_1.
  remember ((index - 1) / 2)%nat as parentIndex eqn:Hpi.
  assert (Hparent : (parentIndex < index)%nat) by lia.
  destruct (0 <? compare sigma (heap !!! parentIndex) node) eqn:Hcmp; [|by left].
  set (heap' := <[index := heap !!! parentIndex]> (<[parentIndex := node]> heap)).
  assert (Hlen : length heap' = length heap).
  { unfold heap'. by rewrite !length_insert. }
  destruct (decide (parentIndex = 0%nat)) as [H0|Hne].
  - right. clear Hpi. subst parentIndex.
    assert (Hm : heap !!! 0%nat = m) by by apply list_lookup_total_correct.
    assert (Hroot' : heap' !! 0%nat = Some node).
    { unfold heap'. rewrite list_lookup_insert_ne by lia.
      apply list_lookup_insert_eq. lia. }
    split; [|rewrite Hm in Hcmp; lia].
    destruct fuel; cbn [siftUp_loop]; done.
  - apply IH.
    + unfold heap'. rewrite !list_lookup_insert_ne by lia. done.
    + lia.
    + unfold heap'. apply list_lookup_total_correct.
      rewrite list_lookup_insert_ne by lia.
      apply list_lookup_insert_eq. lia.
Qed.

(** The root after [push]: the new node if it is before the old root, and
    else the old root. *)
Lemma push_root heap node :
  heap_ordered sigma heap ->
  peek (push sigma heap node)
  = Some (match peek heap with
          | None => node
          | Some m => if 0 <? compare sigma m node then node else m
          end).
Proof.
  intros Hord. destruct heap as [|m heap]; [done|]. cbn [peek].
  destruct (push_correct sigma (m :: heap) node Hord) as [Hord' Hperm].
  rewrite peek_lookup. unfold push, siftUp.
  destruct (siftUp_loop_root (length (m :: heap)) ((m :: heap) ++ [node]) node
              (length (m :: heap)) m) as [Hr|[Hr Hcmp]].
  - done.
  - rewrite length_app. simpl. lia.
  - apply list_lookup_total_correct. by rewrite lookup_app_r, Nat.sub_diag.
  - rewrite Hr. destruct (0 <? compare sigma m node) eqn:Hcmp; [|done].
    exfalso.
    assert (Hpeek : peek (push sigma (m :: heap) node) = Some m).
    { by rewrite peek_lookup. }
    assert (Hin : node ∈ push sigma (m :: heap) node).
    { rewrite Hperm. apply list_elem_of_here. }
    pose proof (peek_min sigma _ m node Hord' Hpeek Hin) as Hmin.
    unfold notAfter in Hmin. lia.
  - rewrite Hr. by replace (0 <? compare sigma m node) with true by lia.
Qed.

(** Two pops in a row: the second entry is not before the first. *)
Lemma pop_pop heap a b :
  heap_ordered sigma heap ->
  (pop sigma heap).1 = Some a -> (pop sigma (pop sigma heap).2).1 = Some b ->
  ~ before sigma b a.
Proof.
  intros Hord Ha Hb. rewrite pop_fst in Ha, Hb.
  assert (Hin : b ∈ heap).
  { rewrite <- (pop_perm sigma heap a Ha). apply list_elem_of_further.
    by apply peek_elem. }
  pose proof (peek_min sigma heap a b Hord Ha Hin) as Hmin.
  unfold notAfter in Hmin. intros Hbefore. apply compare_before in Hbefore.
  pose proof (compare_antisym sigma a b). lia.
Qed.

End WithStore.
End HeapMore.

Module TimerFacts.
Import MinHeap MinHeapFacts InvFacts StepFacts LoopFacts WorkLoopFacts ShapeFacts.

(** [advanceTimers] writes [sortIndex] and nothing else of a record. *)
Lemma advanceTimers_loop_records fuel currentTime : forall s r,
  id (store (advanceTimers_loop fuel currentTime s) r) = id (store s r)
  /\ priorityLevel (store (advanceTimers_loop fuel currentTime s) r)
     = priorityLevel (store s r)
  /\ startTime (store (advanceTimers_loop fuel currentTime s) r) = startTime (store s r)
  /\ expirationTime (store (advanceTimers_loop fuel currentTime s) r)
     = expirationTime (store s r)
  /\ callback (store (advanceTimers_loop fuel currentTime s) r) = callback (store s r).
Proof.
  induction fuel as [|fuel IH]; intros s r; cbn [advanceTimers_loop]; [done|].
  destruct (peek (timerQueue s)) as [timer|]; [|done].
  assert (Hpromote :
    let s3 := push_taskQueue timer
                (write_sortIndex timer (expirationTime (store (pop_timerQueue s) timer))
                   (pop_timerQueue s)) in
    id (store (advanceTimers_loop fuel currentTime s3) r) = id (store s r)
    /\ priorityLevel (store (advanceTimers_loop fuel currentTime s3) r)
       = priorityLevel (store s r)
    /\ startTime (store (advanceTimers_loop fuel currentTime s3) r) = startTime (store s r)
    /\ expirationTime (store (advanceTimers_loop fuel currentTime s3) r)
       = expirationTime (store s r)
    /\ callback (store (advanceTimers_loop fuel currentTime s3) r) = callback (store s r)).
  { cbv zeta.
    destruct (IH (push_taskQueue timer
                (write_sortIndex timer (expirationTime (store (pop_timerQueue s) timer))
                   (pop_timerQueue s))) r) as (-> & -> & -> & -> & ->).
    destruct (write_sortIndex_fields timer (expirationTime (store (pop_timerQueue s) timer))
                (pop_timerQueue s) r) as (H1 & H2 & H3 & H4 & H5 & _).
    done. }
  destruct (callback (store s timer)); [apply (IH (pop_timerQueue s))| |];
    (destruct (startTime (store s timer) <=? currentTime); [exact Hpromote|done]).
Qed.

(** What else [advanceTimers] leaves alone. *)
Lemma advanceTimers_loop_rest fuel currentTime : forall s,
  nextRef (advanceTimers_loop fuel currentTime s) = nextRef s
  /\ taskIdCounter (advanceTimers_loop fuel currentTime s) = taskIdCounter s
  /\ frameInterval (advanceTimers_loop fuel currentTime s) = frameInterval s
  /\ frameStartTime (advanceTimers_loop fuel currentTime s) = frameStartTime s
  /\ needsPaint (advanceTimers_loop fuel currentTime s) = needsPaint s
  /\ inputPending (advanceTimers_loop fuel currentTime s) = inputPending s
  /\ currentPriorityLevel (advanceTimers_loop fuel currentTime s) = currentPriorityLevel s
  /\ isSchedulerPaused (advanceTimers_loop fuel currentTime s) = isSchedulerPaused s.
Proof.
  induction fuel as [|fuel IH]; intros s; cbn [advanceTimers_loop]; [done|].
  repeat case_match; try done.
  - apply (IH (pop_timerQueue s)).
  - match goal with |- context[advanceTimers_loop fuel currentTime ?s0] =>
      apply (IH s0) end.
  - match goal with |- context[advanceTimers_loop fuel currentTime ?s0] =>
      apply (IH s0) end.
Qed.

(** No pending task is lost: it stays pending, or it has started and is
    ready, or it was cancelled. *)
Lemma advanceTimers_loop_conserves fuel currentTime : forall s r,
  r ∈ timerQueue s ->
  r ∈ timerQueue (advanceTimers_loop fuel currentTime s)
  \/ (r ∈ taskQueue (advanceTimers_loop fuel currentTime s)
      /\ startTime (store s r) <= currentTime)
  \/ callback (store s r) = CNull.
Proof.
  induction fuel as [|fuel IH]; intros s r Hr; cbn [advanceTimers_loop]; [by left|].
  destruct (peek (timerQueue s)) as [timer|] eqn:Hpeek; [|by left].
  pose proof (pop_perm (store s) (timerQueue s) timer Hpeek) as Hperm.
  rewrite <- Hperm in Hr.
  assert (Hpromote : startTime (store s timer) <= currentTime ->
    let s3 := push_taskQueue timer
                (write_sortIndex timer (expirationTime (store (pop_timerQueue s) timer))
                   (pop_timerQueue s)) in
    r ∈ timerQueue (advanceTimers_loop fuel currentTime s3)
    \/ (r ∈ taskQueue (advanceTimers_loop fuel currentTime s3)
        /\ startTime (store s r) <= currentTime)
    \/ callback (store s r) = CNull).
  { intros Hst. cbv zeta.
    set (s3 := push_taskQueue timer _).
    apply elem_of_cons in Hr as [->|Hr].
    - right. left. split; [|done].
      destruct (advanceTimers_loop_keeps fuel currentTime s3) as (_ & _ & _ & Hkeep).
      apply Hkeep. unfold s3. simpl. rewrite push_perm. apply list_elem_of_here.
    - destruct (IH s3 r Hr) as [H|[[H1 H2]|H]]; [by left| |].
      + right. left. split; [done|].
        destruct (write_sortIndex_fields timer
                    (expirationTime (store (pop_timerQueue s) timer))
                    (pop_timerQueue s) r) as (_ & _ & H3 & _).
        unfold s3 in H2. simpl in H2, H3. simpl. lia.
      + right. right.
        destruct (write_sortIndex_fields timer
                    (expirationTime (store (pop_timerQueue s) timer))
                    (pop_timerQueue s) r) as (_ & _ & _ & _ & H5 & _).
        unfold s3 in H. simpl in H, H5. simpl. congruence. }
  destruct (callback (store s timer)) eqn:Hcb.
  - apply elem_of_cons in Hr as [->|Hr]; [by right; right|].
    apply (IH (pop_timerQueue s) r Hr).
  - destruct (startTime (store s timer) <=? currentTime) eqn:Hst;
      [apply Hpromote; lia|].
    left. rewrite <- Hperm. done.
  - destruct (startTime (store s timer) <=? currentTime) eqn:Hst;
      [apply Hpromote; lia|].
    left. rewrite <- Hperm. done.
Qed.

(** [advanceTimers] stops at once where it has stopped. *)
Lemma advanceTimers_idem currentTime s :
  advanceTimers currentTime (advanceTimers currentTime s) = advanceTimers currentTime s.
Proof.
  set (s' := advanceTimers currentTime s).
  unfold advanceTimers at 1.
  destruct (timerQueue s') as [|timer rest] eqn:Hq; [done|].
  cbn [length advanceTimers_loop]. rewrite Hq. cbn [peek].
  destruct (advanceTimers_loop_stops (length (timerQueue s)) currentTime s timer)
    as [Hcb Hst]; [done| |].
  { fold (advanceTimers currentTime s). fold s'. by rewrite Hq. }
  fold (advanceTimers currentTime s) in Hcb, Hst. fold s' in Hcb, Hst.
  replace (startTime (store s' timer) <=? currentTime) with false by lia.
  by destruct (callback (store s' timer)).
Qed.

End TimerFacts.

Module ApiMore.
Import MinHeap MinHeapFacts InvFacts StepFacts ApiFacts LoopFacts CurrentFacts.
Import WorkLoopFacts ShapeFacts.

Lemma api_frame_refl s : api_frame s s.
Proof. repeat split; try done; try lia. by left. Qed.

Lemma api_frame_trans s1 s2 s3 : api_frame s1 s2 -> api_frame s2 s3 -> api_frame s1 s3.
Proof.
  intros (A1 & A2 & A3 & A4 & A5 & A6 & A7) (B1 & B2 & B3 & B4 & B5 & B6 & B7).
  split; [lia|]. split; [lia|]. split; [congruence|]. split; [congruence|].
  split; [auto|]. split; [auto|].
  intros r Hr. destruct (A7 r Hr) as (C1 & C2 & C3 & C4 & C5 & C6).
  destruct (B7 r) as (D1 & D2 & D3 & D4 & D5 & D6); [lia|].
  repeat split; try congruence.
  destruct D6 as [D6|D6]; [|by right]. rewrite D6. done.
Qed.

Lemma api_frame_same s s' :
  store s' = store s -> nextRef s' = nextRef s -> taskQueue s' = taskQueue s ->
  timerQueue s' = timerQueue s -> now s' = now s -> currentTask s' = currentTask s ->
  isPerformingWork s' = isPerformingWork s -> api_frame s s'.
Proof.
  intros H1 H2 H3 H4 H5 H6 H7.
  unfold api_frame. rewrite H1, H2, H3, H4, H5, H6, H7.
  repeat split; try done; try lia. by left.
Qed.

Lemma schedule_isPerformingWork pl cb o s :
  isPerformingWork (unstable_scheduleCallback pl cb o s).2 = isPerformingWork s.
Proof.
  unfold unstable_scheduleCallback.
  destruct (schedule_startTime o (getCurrentTime s) >? getCurrentTime s); cbn [snd].
  - unfold schedule_delayed. by repeat case_match.
  - unfold schedule_immediate, requestHostCallback. by repeat case_match.
Qed.

Lemma api_frame_schedule pl cb o s :
  api_frame s (unstable_scheduleCallback pl cb o s).2.
Proof.
  destruct (schedule_data pl cb o s) as (H1 & H2 & H3 & H4 & H5 & H6 & H7 & _).
  cbv zeta in *.
  destruct (extends_schedule pl cb o s) as [Hcur _].
  set (s' := (unstable_scheduleCallback pl cb o s).2) in *.
  split; [|split; [|split; [done|split; [|split; [|split]]]]].
  - rewrite H2. case_match; simpl; lia.
  - rewrite H6. case_match; simpl; lia.
  - apply schedule_isPerformingWork.
  - intros r Hr. rewrite H3. case_match; simpl; [done|].
    rewrite push_perm. by apply list_elem_of_further.
  - intros r Hr. rewrite H4. case_match; simpl; [|done].
    rewrite push_perm. by apply list_elem_of_further.
  - intros r Hr. unfold s'. rewrite (schedule_store_old pl cb o s r) by lia.
    repeat split; try done. by left.
Qed.

End ApiMore.

(** * The frame rate as a fraction *)

Module FrameRateFacts.






End FrameRateFacts.

(** * What user code and the loop log *)

Module LogFacts.
Import MinHeap MinHeapFacts InvFacts StepFacts ApiFacts LoopFacts CurrentFacts.
Import WorkLoopFacts ShapeFacts TimerFacts ApiMore.

Lemma grows_quietly_refl s : grows_quietly s s.
Proof. exists []. split; [done|]. intros x Hx. by apply elem_of_nil in Hx. Qed.

Lemma grows_quietly_trans s1 s2 s3 :
  grows_quietly s1 s2 -> grows_quietly s2 s3 -> grows_quietly s1 s3.
Proof.
  intros (a1 & L1 & F1) (a2 & L2 & F2). exists (a2 ++ a1). split.
  - by rewrite L2, L1, app_assoc.
  - intros x Hx. apply elem_of_app in Hx as [Hx|Hx]; auto.
Qed.

Lemma grows_quietly_same s s' : log s' = log s -> grows_quietly s s'.
Proof. intros H. exists []. split; [done|]. intros x Hx. by apply elem_of_nil in Hx. Qed.

Lemma grows_quietly_emit e s s' :
  is_callback e = false -> log s' = (e, snapshot s) :: log s -> grows_quietly s s'.
Proof.
  intros He Hlog. exists [(e, snapshot s)]. split; [done|].
  intros x Hx. apply list_elem_of_singleton in Hx. by subst.
Qed.

Lemma grows_quietly_schedule pl cb o s :
  grows_quietly s (unstable_scheduleCallback pl cb o s).2.
Proof.
  destruct (schedule_data pl cb o s) as (_ & _ & _ & _ & _ & _ & _ & added & H1 & H2 & _).
  by exists added.
Qed.

Lemma grows_quietly_requestHostCallback s : grows_quietly s (requestHostCallback s).
Proof.
  unfold requestHostCallback.
  case_match; by apply (grows_quietly_emit EvRequestHostCallback).
Qed.

(** User code logs no call of a callback. *)
Lemma run_grows_quietly p s : grows_quietly s (run p s).2.
Proof.
  apply (run_preserves (fun s' => grows_quietly s s')); [| | | | | | | |apply grows_quietly_refl].
  - intros s1 ms H. eapply grows_quietly_trans; [exact H|by apply grows_quietly_same].
  - intros s1 pl cb o H.
    eapply grows_quietly_trans; [exact H|apply grows_quietly_schedule].
  - intros s1 task H.
    eapply grows_quietly_trans; [exact H|by apply (grows_quietly_emit (EvCancel task))].
  - intros s1 pl H. eapply grows_quietly_trans; [exact H|by apply grows_quietly_same].
  - intros s1 H. eapply grows_quietly_trans; [exact H|by apply grows_quietly_same].
  - intros s1 H. eapply grows_quietly_trans; [exact H|].
    unfold unstable_continueExecution. case_match; [|by apply grows_quietly_same].
    eapply grows_quietly_trans; [|apply grows_quietly_requestHostCallback].
    by apply grows_quietly_same.
  - intros s1 H. eapply grows_quietly_trans; [exact H|].
    unfold requestPaint. case_match; by apply grows_quietly_same.
  - intros s1 fps H. eapply grows_quietly_trans; [exact H|].
    unfold forceFrameRate. repeat case_match; try by apply grows_quietly_same.
    by apply (grows_quietly_emit EvConsoleError).
Qed.

(** What user code leaves alone. *)
Lemma run_api_frame p s : api_frame s (run p s).2.
Proof.
  apply (run_preserves (fun s' => api_frame s s')); [| | | | | | | |apply api_frame_refl].
  - intros s1 ms H. eapply api_frame_trans; [exact H|].
    repeat split; simpl; try done; try lia. by left.
  - intros s1 pl cb o H. eapply api_frame_trans; [exact H|apply api_frame_schedule].
  - intros s1 task H. eapply api_frame_trans; [exact H|].
    split; [done|]. split; [done|]. split; [done|]. split; [done|].
    split; [done|]. split; [done|]. intros r Hr.
    destruct (write_callback_fields task CNull (emit (EvCancel task) s1) r)
      as (F1 & F2 & F3 & F4 & F5).
    repeat split; try done.
    simpl. unfold insert, fn_insert. case_decide; [right; by subst|by left].
  - intros s1 pl H. eapply api_frame_trans; [exact H|by apply api_frame_same].
  - intros s1 H. eapply api_frame_trans; [exact H|by apply api_frame_same].
  - intros s1 H. eapply api_frame_trans; [exact H|].
    unfold unstable_continueExecution, requestHostCallback.
    repeat case_match; by apply api_frame_same.
  - intros s1 H. eapply api_frame_trans; [exact H|].
    unfold requestPaint. case_match; by apply api_frame_same.
  - intros s1 fps H. eapply api_frame_trans; [exact H|].
    unfold forceFrameRate. repeat case_match; by apply api_frame_same.
Qed.

(** One turn of the loop: the call of the callback, if any, is the first
    entry it logs, and the others are not calls. *)
Lemma turn_log task currentTime s :
  match workLoop_turn task currentTime s with
  | TurnDone _ s' | TurnThrow s' =>
      match callback (store s task) with
      | CFunction _ =>
          exists added,
            log s' = added ++ (EvCallback task (expirationTime (store s task) <=? currentTime),
                               snapshot s) :: log s
            /\ forall x, x ∈ added -> is_callback x.1 = false
      | _ => log s' = log s
      end
  end.
Proof.
  destruct (callback (store s task)) as [|f|] eqn:Hcb.
  - by rewrite workLoop_turn_other by by rewrite Hcb.
  - rewrite (workLoop_turn_function task currentTime s f Hcb). cbv zeta.
    set (d := expirationTime (store s task) <=? currentTime).
    set (s1 := set_currentPriorityLevel _ (write_callback task CNull (emit (EvCallback task d) s))).
    destruct (run_grows_quietly (f d) s1) as (added & Hlog & Hadded).
    destruct (run (f d) s1) as [[v|] s2]; cbn [snd] in Hlog.
    + exists added. split; [|done].
      change (log (set_currentTask ?x ?s0)) with (log s0).
      rewrite advanceTimers_log.
      destruct v as [g|]; [exact Hlog|]. case_bool_decide; exact Hlog.
    + exists added. by split.
  - by rewrite workLoop_turn_other by by rewrite Hcb.
Qed.

(** The loop: the log grows, and without time remaining every callback it
    calls is called with [didTimeout = true]. *)
Lemma workLoop_while_log fuel hasTimeRemaining : forall currentTime s o,
  workLoop_while fuel hasTimeRemaining currentTime s = Some o ->
  exists added, log (outcome_state o) = added ++ log s
    /\ (hasTimeRemaining = false ->
        forall x task didTimeout,
          x ∈ added -> x.1 = EvCallback task didTimeout -> didTimeout = true).
Proof.
  assert (Hexit : forall currentTime s,
    exists added, log (outcome_state (workLoop_exit currentTime s)) = added ++ log s
      /\ (hasTimeRemaining = false ->
          forall x task didTimeout,
            x ∈ added -> x.1 = EvCallback task didTimeout -> didTimeout = true)).
  { intros currentTime s. unfold workLoop_exit.
    destruct (currentTask s); [exists []; split; [done|]; intros _ x ? ? Hx;
                                 by apply elem_of_nil in Hx|].
    destruct (peek (timerQueue s)) as [firstTimer|].
    - eexists [_]. split; [reflexivity|]. intros _ x task d Hx Hev.
      apply list_elem_of_singleton in Hx. by subst.
    - exists []. split; [done|]. intros _ x ? ? Hx. by apply elem_of_nil in Hx. }
  induction fuel as [|fuel IH]; intros currentTime s o;
    rewrite workLoop_while_unfold; destruct (currentTask s) as [task|] eqn:Htask.
  - case_match; [|done]. intros [= <-]. apply Hexit.
  - intros [= <-]. apply Hexit.
  - destruct (reachedDeadline task hasTimeRemaining currentTime s) eqn:Hdead;
      [intros [= <-]; apply Hexit|].
    pose proof (turn_log task currentTime s) as Hturn.
    assert (Hd : hasTimeRemaining = false ->
                 (expirationTime (store s task) <=? currentTime) = true).
    { intros ->. unfold reachedDeadline in Hdead. simpl in Hdead.
      rewrite andb_true_r in Hdead. lia. }
    assert (Hstep : forall s',
      match callback (store s task) with
      | CFunction _ =>
          exists added,
            log s' = added ++ (EvCallback task (expirationTime (store s task) <=? currentTime),
                               snapshot s) :: log s
            /\ forall x, x ∈ added -> is_callback x.1 = false
      | _ => log s' = log s
      end ->
      exists added, log s' = added ++ log s
        /\ (hasTimeRemaining = false ->
            forall x task didTimeout,
              x ∈ added -> x.1 = EvCallback task didTimeout -> didTimeout = true)).
    { intros s' Hs'. destruct (callback (store s task)).
      - exists []. split; [done|]. intros _ x ? ? Hx. by apply elem_of_nil in Hx.
      - destruct Hs' as (added & Hlog & Hadded).
        exists (added ++ [(EvCallback task (expirationTime (store s task) <=? currentTime),
                           snapshot s)]).
        split; [by rewrite <- app_assoc|].
        intros Hh x task' d Hx Hev. apply elem_of_app in Hx as [Hx|Hx].
        + specialize (Hadded x Hx). by rewrite Hev in Hadded.
        + apply list_elem_of_singleton in Hx. subst x. simpl in Hev.
          injection Hev as _ <-. by apply Hd.
      - exists []. split; [done|]. intros _ x ? ? Hx. by apply elem_of_nil in Hx. }
    destruct (workLoop_turn task currentTime s) as [t' s'|s'].
    + intros Hrun. destruct (IH _ _ _ Hrun) as (a2 & L2 & F2).
      destruct (Hstep s' Hturn) as (a1 & L1 & F1).
      exists (a2 ++ a1). split; [by rewrite L2, L1, app_assoc|].
      intros Hh x task' d Hx Hev. apply elem_of_app in Hx as [Hx|Hx]; eauto.
    + intros [= <-]. by apply Hstep.
  - intros [= <-]. apply Hexit.
Qed.

(** The loop returns [true] only from its [break]. *)
Lemma workLoop_while_yield fuel hasTimeRemaining : forall s s',
  currentTask s = peek (taskQueue s) ->
  workLoop_while fuel hasTimeRemaining (now s) s = Some (Returned true s') ->
  exists task, peek (taskQueue s') = Some task /\ currentTask s' = Some task
    /\ reachedDeadline task hasTimeRemaining (now s') s' = true.
Proof.
  assert (Hexit : forall s s', currentTask s = None ->
            workLoop_exit (now s) s <> Returned true s').
  { intros s s' Hcur. unfold workLoop_exit. rewrite Hcur. by case_match. }
  induction fuel as [|fuel IH]; intros s s' Hcur;
    rewrite workLoop_while_unfold; destruct (currentTask s) as [task|] eqn:Htask.
  - destruct (reachedDeadline task hasTimeRemaining (now s) s) eqn:Hdead; [|done].
    unfold workLoop_exit. rewrite Htask. intros [= <-]. by exists task.
  - intros [= H]. by apply Hexit in H.
  - destruct (reachedDeadline task hasTimeRemaining (now s) s) eqn:Hdead.
    { unfold workLoop_exit. rewrite Htask. intros [= <-]. by exists task. }
    pose proof (turn_trace task (now s) s) as Htrace.
    destruct (workLoop_turn task (now s) s) as [t' s1|s1]; [|done].
    destruct Htrace as (Hcur1 & added & _ & _ & Htime);
      [by intros Hnil; rewrite Hnil in Hcur|].
    assert (t' = now s1) as -> by (destruct Htime as [(_ & -> & ->)|[_ ->]]; done).
    by apply IH.
  - intros [= H]. by apply Hexit in H.
Qed.

End LogFacts.

Module ProgressFacts.
Import MinHeap MinHeapFacts InvFacts StepFacts ApiFacts LoopFacts CurrentFacts.
Import WorkLoopFacts ShapeFacts HostFacts TimerFacts ApiMore LogFacts.

(** At the start of a frame the loop calls the callback of the first
    task. *)
Lemma workLoop_first fuel s task f o :
  0 < frameInterval s -> frameStartTime s = now s ->
  peek (taskQueue (advanceTimers (now s) s)) = Some task ->
  callback (store s task) = CFunction f ->
  workLoop (S fuel) true (now s) s = Some o ->
  exists later,
    trace (outcome_state o)
    = trace s ++ EvCallback task (expirationTime (store s task) <=? now s) :: later.
Proof.
  intros Hfi Hfs Hpeek Hcb. unfold workLoop.
  destruct (advanceTimers_keeps (now s) s) as (_ & Hnow & Hcbs & _).
  destruct (advanceTimers_loop_rest (length (timerQueue s)) (now s) s)
    as (_ & _ & Hint & Hstart & _).
  destruct (advanceTimers_loop_records (length (timerQueue s)) (now s) s task)
    as (_ & _ & _ & Hexp & _).
  pose proof (advanceTimers_log (now s) s) as Hlog0.
  fold (advanceTimers (now s) s) in Hint, Hstart, Hexp.
  set (a := advanceTimers (now s) s) in *.
  set (s0 := set_currentTask (peek (taskQueue a)) a).
  assert (Hyield : shouldYieldToHost s0 = false).
  { unfold shouldYieldToHost, getCurrentTime.
    change (now s0) with (now a). change (frameStartTime s0) with (frameStartTime a).
    change (frameInterval s0) with (frameInterval a).
    rewrite Hnow, Hstart, Hint, Hfs.
    by replace (now s - now s <? frameInterval s) with true by lia. }
  rewrite workLoop_while_unfold.
  change (currentTask s0) with (peek (taskQueue a)). rewrite Hpeek.
  unfold reachedDeadline. rewrite Hyield. cbn [negb orb]. rewrite andb_false_r.
  pose proof (turn_log task (now s) s0) as Hturn.
  change (store s0) with (store a) in Hturn. rewrite Hcbs, Hcb, Hexp in Hturn.
  change (log s0) with (log a) in Hturn. rewrite Hlog0 in Hturn.
  assert (Hfinal : forall s1 more,
    (exists added, log s1 = added ++ (EvCallback task (expirationTime (store s task) <=? now s),
                                      snapshot s0) :: log s
       /\ forall x, x ∈ added -> is_callback x.1 = false) ->
    log (outcome_state o) = more ++ log s1 ->
    exists later,
      trace (outcome_state o)
      = trace s ++ EvCallback task (expirationTime (store s task) <=? now s) :: later).
  { intros s1 more (added & Hlog & _) Hmore.
    exists (reverse (more ++ added).*1). unfold trace.
    rewrite Hmore, Hlog, app_assoc, fmap_app, fmap_cons, reverse_app, reverse_cons.
    cbn [fst]. by rewrite <- app_assoc. }
  destruct (workLoop_turn task (now s) s0) as [t' s1|s1].
  - intros Hrun. destruct (workLoop_while_log _ _ _ _ _ Hrun) as (more & Hmore & _).
    by apply (Hfinal s1 more).
  - intros [= <-]. by apply (Hfinal s1 []).
Qed.


(** [advanceTimers] reads the task records and the queues only. *)
Lemma advanceTimers_loop_cong fuel currentTime : forall s1 s2,
  store s1 = store s2 -> taskQueue s1 = taskQueue s2 -> timerQueue s1 = timerQueue s2 ->
  store (advanceTimers_loop fuel currentTime s1)
  = store (advanceTimers_loop fuel currentTime s2)
  /\ taskQueue (advanceTimers_loop fuel currentTime s1)
     = taskQueue (advanceTimers_loop fuel currentTime s2)
  /\ timerQueue (advanceTimers_loop fuel currentTime s1)
     = timerQueue (advanceTimers_loop fuel currentTime s2).
Proof.
  induction fuel as [|fuel IH]; intros s1 s2 H1 H2 H3; cbn [advanceTimers_loop]; [done|].
  rewrite H3, H1.
  destruct (peek (timerQueue s2)) as [timer|]; [|done].
  assert (Hpop : store (pop_timerQueue s1) = store (pop_timerQueue s2)
                 /\ taskQueue (pop_timerQueue s1) = taskQueue (pop_timerQueue s2)
                 /\ timerQueue (pop_timerQueue s1) = timerQueue (pop_timerQueue s2)).
  { simpl. by rewrite H1, H2, H3. }
  destruct Hpop as (P1 & P2 & P3).
  assert (Hpromote :
    store (advanceTimers_loop fuel currentTime
             (push_taskQueue timer
                (write_sortIndex timer (expirationTime (store (pop_timerQueue s1) timer))
                   (pop_timerQueue s1))))
    = store (advanceTimers_loop fuel currentTime
               (push_taskQueue timer
                  (write_sortIndex timer (expirationTime (store (pop_timerQueue s2) timer))
                     (pop_timerQueue s2))))
    /\ taskQueue (advanceTimers_loop fuel currentTime
                    (push_taskQueue timer
                       (write_sortIndex timer (expirationTime (store (pop_timerQueue s1) timer))
                          (pop_timerQueue s1))))
       = taskQueue (advanceTimers_loop fuel currentTime
                      (push_taskQueue timer
                         (write_sortIndex timer
                            (expirationTime (store (pop_timerQueue s2) timer))
                            (pop_timerQueue s2))))
    /\ timerQueue (advanceTimers_loop fuel currentTime
                     (push_taskQueue timer
                        (write_sortIndex timer (expirationTime (store (pop_timerQueue s1) timer))
                           (pop_timerQueue s1))))
       = timerQueue (advanceTimers_loop fuel currentTime
                       (push_taskQueue timer
                          (write_sortIndex timer
                             (expirationTime (store (pop_timerQueue s2) timer))
                             (pop_timerQueue s2))))).
  { apply IH; simpl; by rewrite ?H1, ?H2, ?H3. }
  destruct (callback (store s2 timer)); [by apply IH| |];
    (destruct (startTime (store s2 timer) <=? currentTime); [exact Hpromote|done]).
Qed.

Lemma advanceTimers_cong currentTime s1 s2 :
  store s1 = store s2 -> taskQueue s1 = taskQueue s2 -> timerQueue s1 = timerQueue s2 ->
  taskQueue (advanceTimers currentTime s1) = taskQueue (advanceTimers currentTime s2).
Proof.
  intros H1 H2 H3. unfold advanceTimers. rewrite H3.
  by destruct (advanceTimers_loop_cong (length (timerQueue s2)) currentTime s1 s2 H1 H2 H3)
    as (_ & -> & _).
Qed.

(** A task that has expired is not yielded on: when the first ready task
    has expired at [initialTime], the loop starts with a turn for it,
    whatever [hasTimeRemaining] is and without a call of
    [shouldYieldToHost]. *)
Lemma workLoop_expired fuel hasTimeRemaining initialTime s task :
  peek (taskQueue (advanceTimers initialTime s)) = Some task ->
  expirationTime (store s task) <= initialTime ->
  workLoop (S fuel) hasTimeRemaining initialTime s =
    match workLoop_turn task initialTime
            (set_currentTask (Some task) (advanceTimers initialTime s)) with
    | TurnDone currentTime s' => workLoop_while fuel hasTimeRemaining currentTime s'
    | TurnThrow s' => Some (Threw s')
    end.
Proof.
  intros Hpeek Hexp. unfold workLoop. rewrite workLoop_while_unfold.
  change (currentTask (set_currentTask ?x ?s0)) with x. rewrite Hpeek.
  unfold reachedDeadline.
  change (store (set_currentTask ?x ?s0)) with (store s0).
  destruct (advanceTimers_loop_records (length (timerQueue s)) initialTime s task)
    as (_ & _ & _ & He & _).
  fold (advanceTimers initialTime s) in He. rewrite He.
  by replace (expirationTime (store s task) >? initialTime) with false by lia.
Qed.

(** A message to a scheduler whose first ready task has expired: the
    callback of the task is called, in the state [s1]; [s0] is the state
    in which [flushWork] calls [workLoop]. *)
Lemma message_expired s task f :
  Awake s -> taskQueue s <> [] ->
  peek (taskQueue (advanceTimers (now s) s)) = Some task ->
  callback (store s task) = CFunction f ->
  expirationTime (store s task) <= now s ->
  let s0 := set_isHostCallbackScheduled false
              (set_frameStartTime (now s) (set_messages 0 s)) in
  let s0 := if isHostTimeoutScheduled s
            then cancelHostTimeout (set_isHostTimeoutScheduled false s0)
            else s0 in
  let s0 := set_isPerformingWork true s0 in
  let s1 := set_currentPriorityLevel (priorityLevel (store s task))
              (write_callback task CNull
                 (emit (EvCallback task true)
                    (set_currentTask (Some task) (advanceTimers (now s) s0)))) in
  trace s1 = trace s
             ++ (if isHostTimeoutScheduled s then [EvCancelHostTimeout] else [])
             ++ [EvCallback task true]
  /\ forall fuel,
       match run (f true) s1 with
       | (Abrupt, s2) =>
           host_step (S fuel) Message s
           = Some (schedulePerformWorkUntilDeadline
                     (flushWork_finally (currentPriorityLevel s) s2))
       | (Normal _, s2) =>
           forall s', host_step (S fuel) Message s = Some s' ->
             exists later, trace s' = trace s2 ++ later
       end.
Proof.
  intros HA Hne Hpeek Hcb Hexp. cbv zeta.
  destruct (awake_ready s HA Hne) as [Hsched Hloop].
  assert (Hmsg : messages s = 1%nat) by by apply (awake_loop s HA).
  set (s0 := set_isPerformingWork true _).
  assert (H0 : store s0 = store s /\ taskQueue s0 = taskQueue s
               /\ timerQueue s0 = timerQueue s /\ now s0 = now s
               /\ currentPriorityLevel s0 = currentPriorityLevel s
               /\ trace s0 = trace s
                    ++ (if isHostTimeoutScheduled s then [EvCancelHostTimeout] else [])).
  { unfold s0. destruct (isHostTimeoutScheduled s).
    - repeat split; try done. unfold trace. simpl. by rewrite reverse_cons.
    - repeat split; try done. by rewrite app_nil_r. }
  destruct H0 as (E1 & E2 & E3 & E4 & E5 & Htrace).
  assert (Hpeek0 : peek (taskQueue (advanceTimers (now s) s0)) = Some task).
  { rewrite <- Hpeek. f_equal. by apply advanceTimers_cong. }
  assert (Hexp0 : expirationTime (store s0 task) <= now s) by by rewrite E1.
  destruct (advanceTimers_keeps (now s) s0) as (Atr & _ & Acb & _).
  destruct (advanceTimers_loop_records (length (timerQueue s0)) (now s) s0 task)
    as (_ & Apl & _ & Aexp & _).
  fold (advanceTimers (now s) s0) in Apl, Aexp.
  set (a := set_currentTask (Some task) (advanceTimers (now s) s0)) in *.
  assert (Hcba : callback (store a task) = CFunction f).
  { unfold a. change (store (set_currentTask ?x ?s3)) with (store s3).
    by rewrite Acb, E1. }
  assert (Hturn := workLoop_turn_function task (now s) a f Hcba). cbv zeta in Hturn.
  change (store a) with (store (advanceTimers (now s) s0)) in Hturn.
  rewrite Aexp, Apl, E1 in Hturn.
  replace (expirationTime (store s task) <=? now s) with true in Hturn by lia.
  set (s1 := set_currentPriorityLevel _ (write_callback task CNull (emit _ a))) in *.
  split.
  { unfold s1.
    change (trace (set_currentPriorityLevel ?x ?s3)) with (trace s3).
    change (trace (write_callback ?x ?y ?s3)) with (trace s3).
    rewrite (RunFacts.trace_emit (EvCallback task true) a).
    change (trace a) with (trace (advanceTimers (now s) s0)).
    by rewrite Atr, Htrace, <- app_assoc. }
  intros fuel.
  assert (Hstep : host_step (S fuel) Message s =
    match (match workLoop_turn task (now s) a with
           | TurnDone currentTime s' => workLoop_while fuel true currentTime s'
           | TurnThrow s' => Some (Threw s')
           end) with
    | Some (Returned hasMoreWork s3) =>
        Some (set_needsPaint false
                (if hasMoreWork
                 then schedulePerformWorkUntilDeadline
                        (flushWork_finally (currentPriorityLevel s) s3)
                 else set_scheduledHostCallback false
                        (set_isMessageLoopRunning false
                           (flushWork_finally (currentPriorityLevel s) s3))))
    | Some (Threw s3) =>
        Some (schedulePerformWorkUntilDeadline
                (flushWork_finally (currentPriorityLevel s) s3))
    | None => None
    end).
  { cbn [host_step]. rewrite Hmsg. unfold performWorkUntilDeadline.
    change (scheduledHostCallback (set_messages 0 s)) with (scheduledHostCallback s).
    rewrite Hsched. unfold flushWork, getCurrentTime.
    change (now (set_messages 0 s)) with (now s).
    change (set_isPerformingWork true _) with s0.
    rewrite (workLoop_expired fuel true (now s) s0 task Hpeek0 Hexp0).
    fold a. rewrite E5. by destruct (match workLoop_turn task (now s) a with
                                    | TurnDone _ _ => _ | TurnThrow _ => _ end)
                          as [[b s3|s3]|]. }
  rewrite Hstep, Hturn.
  destruct (run (f true) s1) as [[v|] s2]; [|done].
  intros s' Hs'.
  match type of Hs' with context[workLoop_while fuel true ?t ?s3] =>
    destruct (workLoop_while fuel true t s3) as [o|] eqn:Hrun; [|done];
    destruct (workLoop_while_log _ _ _ _ _ Hrun) as (more & Hmore & _);
    assert (Hlog3 : log s3 = log s2) end.
  { change (log (set_currentTask ?x ?s4)) with (log s4). rewrite advanceTimers_log.
    destruct v as [g|]; [done|]. by case_bool_decide. }
  exists (reverse more.*1).
  assert (Hlog' : log s' = log (outcome_state o)).
  { destruct o as [b s3|s3]; injection Hs' as <-; [by destruct b|done]. }
  unfold trace. by rewrite Hlog', Hmore, Hlog3, fmap_app, reverse_app.
Qed.

End ProgressFacts.

(** * The latch of the host timer *)

Module LatchFacts.
Import MinHeap MinHeapFacts InvFacts ApiFacts LoopFacts WorkLoopFacts HostFacts.

Lemma Latched_frame s s' :
  isHostTimeoutScheduled s' = isHostTimeoutScheduled s ->
  taskTimeoutID s' = taskTimeoutID s -> timeouts s' = timeouts s ->
  Latched s -> Latched s'.
Proof. unfold Latched. intros -> -> ->. done. Qed.

(** After [requestHostTimeout], the timer of [taskTimeoutID] is set. *)
Lemma requestHostTimeout_set ms s :
  taskTimeoutID (requestHostTimeout ms s) ∈ (timeouts (requestHostTimeout ms s)).*1.
Proof.
  simpl. rewrite fmap_app. apply elem_of_app. right. simpl. apply list_elem_of_here.
Qed.

Lemma Latched_schedule pl cb o s :
  Latched s -> Latched (unstable_scheduleCallback pl cb o s).2.
Proof.
  intros HL. unfold unstable_scheduleCallback. case_match; cbn [snd].
  - unfold schedule_delayed. case_match; [|by apply (Latched_frame s)].
    intros _. apply requestHostTimeout_set.
  - unfold schedule_immediate, requestHostCallback.
    repeat case_match; by apply (Latched_frame s).
Qed.

Lemma Latched_run p s : Latched s -> Latched (run p s).2.
Proof.
  apply run_preserves; clear s.
  - intros s ms HL. by apply (Latched_frame s).
  - intros s pl cb o. apply Latched_schedule.
  - intros s task HL. by apply (Latched_frame s).
  - intros s pl HL. by apply (Latched_frame s).
  - intros s HL. by apply (Latched_frame s).
  - intros s HL. unfold unstable_continueExecution, requestHostCallback.
    repeat case_match; by apply (Latched_frame s).
  - intros s HL. unfold requestPaint. case_match; by apply (Latched_frame s).
  - intros s fps HL. unfold forceFrameRate. repeat case_match; by apply (Latched_frame s).
Qed.

(** [handleTimeout] leaves the latch clear. *)
Lemma handleTimeout_latch currentTime s :
  isHostTimeoutScheduled (handleTimeout currentTime s) = false.
Proof.
  unfold handleTimeout.
  set (s1 := set_isHostTimeoutScheduled false s).
  destruct (advanceTimers_host currentTime s1) as (_ & _ & E3 & _).
  unfold requestHostCallback. repeat case_match; exact E3.
Qed.

Lemma Latched_host_step fuel e s s' :
  Latched s -> host_step fuel e s = Some s' -> Latched s'.
Proof.
  intros HL. destruct e as [|timeoutID|ms|p]; cbn [host_step].
  - destruct (messages s) as [|n]; [by intros [= <-]|].
    unfold performWorkUntilDeadline.
    change (scheduledHostCallback (set_messages n s)) with (scheduledHostCallback s).
    destruct (scheduledHostCallback s); [|intros [= <-]; by apply (Latched_frame s)].
    set (s1 := set_frameStartTime _ _).
    destruct (flushWork fuel true (getCurrentTime (set_messages n s)) s1)
      as [[b s2|s2]|] eqn:Hflush; [| |done]; intros [= <-];
      destruct (flushWork_flags _ _ _ _ _ Hflush) as (_ & _ & _ & R4 & _);
      simpl in R4; intros Hlatch.
    + destruct b; simpl in Hlatch; congruence.
    + simpl in Hlatch. congruence.
  - case_bool_decide; [|by intros [= <-]]. intros [= <-] Hlatch.
    by rewrite handleTimeout_latch in Hlatch.
  - intros [= <-]. by apply (Latched_frame s).
  - intros [= <-]. by apply Latched_run.
Qed.

Lemma Latched_host_run fuel es : forall s s',
  Latched s -> host_run fuel es s = Some s' -> Latched s'.
Proof.
  induction es as [|e es IH]; intros s s' HL; cbn [host_run]; [by intros [= <-]|].
  destruct (host_step fuel e s) as [s1|] eqn:Hstep; [|done].
  apply IH. by eapply Latched_host_step.
Qed.

Lemma reachable_Latched time fuel es s :
  host_run fuel es (initial time) = Some s -> Latched s.
Proof. apply Latched_host_run. by intros H. Qed.

End LatchFacts.

(** * Further properties of the scheduler *)

Import MinHeap MinHeapFacts InvFacts HistFacts StepFacts ApiFacts LoopFacts CurrentFacts.
Import RunFacts WorkLoopFacts InductionFacts ShapeFacts HostFacts HeapMore TimerFacts.
Import ApiMore LogFacts ProgressFacts LatchFacts FrameRateFacts.

(** X1: in every state the scheduler reaches, the ready queue and the
    pending queue are binary min-heaps under the order on
    [(sortIndex, id)], no task is twice in a queue or in both, every task
    in a queue is a record that was created, and
    [unstable_getFirstCallbackNode()] returns [null] when the ready queue
    is empty and else a task of the ready queue that no task of the ready
    queue is before. *)
Theorem queues_are_heaps time fuel es s :
  host_run fuel es (initial time) = Some s ->
  heap_ordered (store s) (taskQueue s)
  /\ heap_ordered (store s) (timerQueue s)
  /\ NoDup (taskQueue s ++ timerQueue s)
  /\ (forall r, r ∈ taskQueue s ++ timerQueue s -> (r < nextRef s)%nat)
  /\ match unstable_getFirstCallbackNode s with
     | None => taskQueue s = []
     | Some m => m ∈ taskQueue s
                 /\ forall x, x ∈ taskQueue s -> ~ before (store s) x m
     end.
Proof.
  intros Hrun. destruct (reachable_WellFormed _ _ _ _ Hrun) as ([I1 I2 I3 I4] & _).
  repeat split; try done.
  unfold unstable_getFirstCallbackNode.
  destruct (peek (taskQueue s)) as [m|] eqn:Hpeek; [|by apply peek_None].
  split; [by apply peek_elem|]. intros x Hx Hbefore.
  apply (before_not_notAfter (store s) x m Hbefore).
  by apply (peek_min (store s) (taskQueue s)).
Qed.

Lemma queues_are_heaps_witness :
  host_run 10 example_rearm (initial 0) = Some (reach 10 example_rearm)
  /\ NoDup (taskQueue (reach 10 example_rearm) ++ timerQueue (reach 10 example_rearm)).
Proof.
  assert (Hrun : host_run 10 example_rearm (initial 0) = Some (reach 10 example_rearm))
    by (vm_compute; reflexivity).
  split; [exact Hrun|].
  destruct (queues_are_heaps 0 10 example_rearm _ Hrun) as (_ & _ & H & _). exact H.
Defined.

(** X2: in every state the scheduler reaches, the tasks have the ids 1, 2,
    3, ... in the order of their creation and [taskIdCounter] is the next
    id; so two different tasks have different ids, one of them is before
    the other, and of two tasks with the same [sortIndex] the one created
    first is before the other. *)
Theorem task_ids_count_up time fuel es s :
  host_run fuel es (initial time) = Some s ->
  taskIdCounter s = Z.of_nat (nextRef s) + 1
  /\ (forall r, (r < nextRef s)%nat -> id (store s r) = Z.of_nat r + 1)
  /\ (forall a b, (a < nextRef s)%nat -> (b < nextRef s)%nat -> a <> b ->
        id (store s a) <> id (store s b)
        /\ (before (store s) a b \/ before (store s) b a))
  /\ (forall a b, (a < b)%nat -> (b < nextRef s)%nat ->
        sortIndex (store s a) = sortIndex (store s b) -> before (store s) a b)
  /\ (forall pl cb o,
        id (store (unstable_scheduleCallback pl cb o s).2
                  (unstable_scheduleCallback pl cb o s).1) = taskIdCounter s).
Proof.
  intros Hrun. destruct (reachable_WellFormed _ _ _ _ Hrun) as (_ & [A B _ _ _] & _).
  split; [done|]. split; [done|]. split; [|split].
  - intros a b Ha Hb Hne. rewrite (B a Ha), (B b Hb). split; [lia|].
    unfold before. rewrite (B a Ha), (B b Hb). lia.
  - intros a b Hab Hb Hsort. right. rewrite (B a), (B b) by lia. split; [done|lia].
  - intros pl cb o. destruct (schedule_nextRef pl cb o s) as [-> _].
    by rewrite ApiSpec.schedule_record.
Qed.

Lemma task_ids_count_up_witness :
  host_run 10 example_rearm (initial 0) = Some (reach 10 example_rearm)
  /\ taskIdCounter (reach 10 example_rearm)
     = Z.of_nat (nextRef (reach 10 example_rearm)) + 1.
Proof.
  assert (Hrun : host_run 10 example_rearm (initial 0) = Some (reach 10 example_rearm))
    by (vm_compute; reflexivity).
  split; [exact Hrun|].
  destruct (task_ids_count_up 0 10 example_rearm _ Hrun) as (H & _). exact H.
Defined.

(** X3: in every state the scheduler reaches, every task record has
    [expirationTime = startTime + timeout] for the timeout of its priority
    level; a task in the ready queue has [sortIndex = expirationTime] and
    has started ([startTime <= now]); a task in the pending queue has
    [sortIndex = startTime]. *)
Theorem queues_sorted_by_time time fuel es s :
  host_run fuel es (initial time) = Some s ->
  (forall r, (r < nextRef s)%nat ->
     expirationTime (store s r)
     = startTime (store s r) + schedule_timeout (priorityLevel (store s r)))
  /\ (forall r, r ∈ taskQueue s ->
        sortIndex (store s r) = expirationTime (store s r)
        /\ startTime (store s r) <= now s)
  /\ (forall r, r ∈ timerQueue s -> sortIndex (store s r) = startTime (store s r)).
Proof.
  intros Hrun. by destruct (reachable_WellFormed _ _ _ _ Hrun) as (_ & [A B C D E] & _).
Qed.

Lemma queues_sorted_by_time_witness :
  host_run 10 example_rearm (initial 0) = Some (reach 10 example_rearm)
  /\ forall r, r ∈ timerQueue (reach 10 example_rearm) ->
       sortIndex (store (reach 10 example_rearm) r)
       = startTime (store (reach 10 example_rearm) r).
Proof.
  assert (Hrun : host_run 10 example_rearm (initial 0) = Some (reach 10 example_rearm))
    by (vm_compute; reflexivity).
  split; [exact Hrun|].
  destruct (queues_sorted_by_time 0 10 example_rearm _ Hrun) as (_ & _ & H). exact H.
Defined.

(** X4: in every run, the callback of a task of immediate priority is
    called with [didTimeout = true]. *)
Theorem immediate_tasks_timed_out time fuel es s :
  host_run fuel es (initial time) = Some s ->
  forall (i : nat) x task didTimeout,
    history s !! i = Some x -> x.1 = EvCallback task didTimeout ->
    priorityLevel (snap_store x.2 task) = ImmediatePriority ->
    didTimeout = true.
Proof.
  intros Hrun i x task d Hi Hev Hprio.
  destruct (reachable_WellFormed _ _ _ _ Hrun) as (_ & _ & HL).
  apply (HL x task d); [|done|done].
  apply elem_of_reverse. by eapply list_elem_of_lookup_2.
Qed.

Lemma immediate_tasks_timed_out_witness :
  host_run 10 example_immediate (initial 0) = Some (reach 10 example_immediate)
  /\ trace (reach 10 example_immediate)
     = [EvSchedule 0%nat; EvRequestHostCallback; EvCallback 0%nat true]
  /\ forall (i : nat) x task didTimeout,
       history (reach 10 example_immediate) !! i = Some x ->
       x.1 = EvCallback task didTimeout ->
       priorityLevel (snap_store x.2 task) = ImmediatePriority ->
       didTimeout = true.
Proof.
  assert (Hrun : host_run 10 example_immediate (initial 0)
                 = Some (reach 10 example_immediate)) by (vm_compute; reflexivity).
  split; [exact Hrun|]. split; [vm_compute; reflexivity|].
  exact (immediate_tasks_timed_out 0 10 example_immediate _ Hrun).
Defined.

(** X5: in every run, every host timer the scheduler requests, from
    [unstable_scheduleCallback], from [handleTimeout] or from the exit of
    the work loop, is requested with a delay greater than 0. *)
Theorem timers_have_positive_delay time fuel es s :
  host_run fuel es (initial time) = Some s ->
  forall (i : nat) x ms,
    history s !! i = Some x -> x.1 = EvRequestHostTimeout ms -> 0 < ms.
Proof.
  intros Hrun i x ms Hi Hev.
  apply (reachable_positive_timers _ _ _ _ Hrun x ms); [|done].
  apply elem_of_reverse. by eapply list_elem_of_lookup_2.
Qed.

Lemma timers_have_positive_delay_witness :
  host_run 10 example_rearm (initial 0) = Some (reach 10 example_rearm)
  /\ forall (i : nat) x ms,
       history (reach 10 example_rearm) !! i = Some x ->
       x.1 = EvRequestHostTimeout ms -> 0 < ms.
Proof.
  assert (Hrun : host_run 10 example_rearm (initial 0) = Some (reach 10 example_rearm))
    by (vm_compute; reflexivity).
  split; [exact Hrun|].
  exact (timers_have_positive_delay 0 10 example_rearm _ Hrun).
Defined.



(** X7: between two host events no work is being performed, at most one
    message to [performWorkUntilDeadline] is posted, and one is posted
    exactly when [isMessageLoopRunning] is set; when
    [isHostCallbackScheduled] is set, or when the ready queue is not
    empty, [scheduledHostCallback] is set and the message is posted: a
    ready task is never left without the host callback that will run
    it. *)
Theorem ready_task_has_host_callback time fuel es s :
  host_run fuel es (initial time) = Some s ->
  isPerformingWork s = false
  /\ (messages s <= 1)%nat
  /\ (isMessageLoopRunning s = true <-> messages s = 1%nat)
  /\ (isHostCallbackScheduled s = true ->
      scheduledHostCallback s = true /\ messages s = 1%nat)
  /\ (taskQueue s <> [] -> scheduledHostCallback s = true /\ messages s = 1%nat).
Proof.
  intros Hrun. destruct (reachable_Awake _ _ _ _ Hrun) as [A1 A2 A3 A4 A5 A6].
  split; [done|]. split; [done|]. split; [done|]. split.
  - intros H. destruct (A4 H). split; [done|]. by apply A3.
  - intros H. destruct (A5 H). split; [done|]. by apply A3.
Qed.

Lemma ready_task_has_host_callback_witness :
  host_run 1 (take 1 example_cancel) (initial 0) = Some (reach 1 (take 1 example_cancel))
  /\ taskQueue (reach 1 (take 1 example_cancel)) = [0; 1]%nat
  /\ messages (reach 1 (take 1 example_cancel)) = 1%nat.
Proof.
  assert (Hrun : host_run 1 (take 1 example_cancel) (initial 0)
                 = Some (reach 1 (take 1 example_cancel))) by (vm_compute; reflexivity).
  split; [exact Hrun|]. split; [vm_compute; reflexivity|].
  destruct (ready_task_has_host_callback 0 1 (take 1 example_cancel) _ Hrun)
    as (_ & _ & _ & _ & H).
  destruct H as [_ H]; [|exact H]. vm_compute. discriminate.
Defined.

(** X8: between two host events, when the pending queue is not empty, the
    host callback is set and its message is posted, or a host timer is
    set: a pending task is never left without something that will wake the
    scheduler. *)
Theorem pending_task_has_wakeup time fuel es s :
  host_run fuel es (initial time) = Some s ->
  timerQueue s <> [] ->
  (scheduledHostCallback s = true /\ messages s = 1%nat) \/ timeouts s <> [].
Proof.
  intros Hrun Hne. destruct (reachable_Awake _ _ _ _ Hrun) as [A1 A2 A3 A4 A5 A6].
  destruct (A6 Hne) as [[H1 H2]|H]; [left|by right]. split; [done|]. by apply A3.
Qed.

Lemma pending_task_has_wakeup_witness :
  host_run 10 example_rearm (initial 0) = Some (reach 10 example_rearm)
  /\ timerQueue (reach 10 example_rearm) = [0%nat]
  /\ ((scheduledHostCallback (reach 10 example_rearm) = true
       /\ messages (reach 10 example_rearm) = 1%nat)
      \/ timeouts (reach 10 example_rearm) <> []).
Proof.
  assert (Hrun : host_run 10 example_rearm (initial 0) = Some (reach 10 example_rearm))
    by (vm_compute; reflexivity).
  split; [exact Hrun|]. split; [vm_compute; reflexivity|].
  apply (pending_task_has_wakeup 0 10 example_rearm _ Hrun).
  vm_compute. discriminate.
Defined.

(** X9: while work is performed and the ready queue is not empty, as it is
    while the work loop runs a callback, no call into the API reaches the
    host: whatever user code does, no message is posted, no host timer is
    requested or cancelled, and the flags stay as they are; nor does a
    turn of the work loop on the task at the head of the ready queue. *)
Theorem callbacks_cannot_reach_host s :
  isPerformingWork s = true -> taskQueue s <> [] ->
  (forall p, host_untouched s (run p s).2 /\ taskQueue (run p s).2 <> [])
  /\ (forall task currentTime,
        peek (taskQueue s) = Some task ->
        match workLoop_turn task currentTime s with
        | TurnDone _ s' => host_untouched s s'
        | TurnThrow s' => host_untouched s s'
        end).
Proof.
  intros Hwork Hready. split.
  - intros p. by apply run_working.
  - intros task currentTime Hpeek. by apply turn_working.
Qed.

Lemma callbacks_cannot_reach_host_witness :
  isPerformingWork example_loop_head = true
  /\ messages (run (example_yielding true) example_loop_head).2
     = messages example_loop_head.
Proof.
  assert (H1 : isPerformingWork example_loop_head = true) by (vm_compute; reflexivity).
  assert (H2 : taskQueue example_loop_head <> []) by (vm_compute; discriminate).
  split; [exact H1|].
  destruct (callbacks_cannot_reach_host example_loop_head H1 H2) as [H _].
  destruct (H (example_yielding true)) as [(_ & _ & _ & _ & _ & Hm & _) _]. exact Hm.
Defined.

(** X10: when [flushWork] returns or throws, [isPerformingWork],
    [isHostCallbackScheduled] and [isHostTimeoutScheduled] are [false] and
    [currentTask] is [null]; the message loop flag, the host callback and
    the posted messages are as they were; it returns [true] exactly when
    it leaves the ready queue not empty, and when it returns [false] and
    leaves the pending queue not empty, a host timer is set. *)
Theorem flushWork_clears_flags fuel hasTimeRemaining initialTime s o :
  flushWork fuel hasTimeRemaining initialTime s = Some o ->
  isPerformingWork (outcome_state o) = false
  /\ currentTask (outcome_state o) = None
  /\ isHostCallbackScheduled (outcome_state o) = false
  /\ isHostTimeoutScheduled (outcome_state o) = false
  /\ isMessageLoopRunning (outcome_state o) = isMessageLoopRunning s
  /\ scheduledHostCallback (outcome_state o) = scheduledHostCallback s
  /\ messages (outcome_state o) = messages s
  /\ match o with
     | Returned true s' => taskQueue s' <> []
     | Returned false s' =>
         taskQueue s' = [] /\ (timerQueue s' <> [] -> timeouts s' <> [])
     | Threw s' => True
     end.
Proof. apply flushWork_flags. Qed.

Lemma flushWork_clears_flags_witness :
  exists o, flushWork 5 true 0 example_one_task = Some o
    /\ isPerformingWork (outcome_state o) = false
    /\ isHostCallbackScheduled (outcome_state o) = false.
Proof.
  destruct (flushWork 5 true 0 example_one_task) as [o|] eqn:Hrun.
  - exists o. split; [reflexivity|].
    destruct (flushWork_clears_flags _ _ _ _ _ Hrun) as (H1 & _ & H3 & _).
    split; [exact H1|exact H3].
  - vm_compute in Hrun. discriminate Hrun.
Defined.

(** X11: [advanceTimers(currentTime)] loses no task: a task of the ready
    queue stays in it, and a task of the pending queue stays pending, or
    has [startTime <= currentTime] and is in the ready queue afterwards, or
    was cancelled. It writes no field of a record but [sortIndex], logs
    nothing, does not reach the host, and a second call with the same time
    changes nothing more. *)
Theorem advanceTimers_conserves currentTime s :
  advanceTimers currentTime (advanceTimers currentTime s) = advanceTimers currentTime s
  /\ (forall r, r ∈ taskQueue s -> r ∈ taskQueue (advanceTimers currentTime s))
  /\ (forall r, r ∈ timerQueue s ->
        r ∈ timerQueue (advanceTimers currentTime s)
        \/ (r ∈ taskQueue (advanceTimers currentTime s)
            /\ startTime (store s r) <= currentTime)
        \/ callback (store s r) = CNull)
  /\ (forall r,
        id (store (advanceTimers currentTime s) r) = id (store s r)
        /\ priorityLevel (store (advanceTimers currentTime s) r) = priorityLevel (store s r)
        /\ startTime (store (advanceTimers currentTime s) r) = startTime (store s r)
        /\ expirationTime (store (advanceTimers currentTime s) r)
           = expirationTime (store s r)
        /\ callback (store (advanceTimers currentTime s) r) = callback (store s r))
  /\ log (advanceTimers currentTime s) = log s
  /\ now (advanceTimers currentTime s) = now s
  /\ host_untouched s (advanceTimers currentTime s).
Proof.
  split; [apply advanceTimers_idem|].
  destruct (advanceTimers_keeps currentTime s) as (_ & Hnow & _ & Hkeep).
  split; [done|]. split; [intros r; apply advanceTimers_loop_conserves|].
  split; [intros r; apply advanceTimers_loop_records|].
  split; [apply advanceTimers_log|]. split; [done|apply advanceTimers_host].
Qed.

(** X12: when [workLoop] returns [true], it has left the loop at its
    [break]: the task at the head of the ready queue has not expired, and
    there is no time remaining or [shouldYieldToHost()] holds. So the loop
    does not yield while the task at the head has expired. *)
Theorem workLoop_yields_at_deadline fuel hasTimeRemaining s s' :
  workLoop fuel hasTimeRemaining (now s) s = Some (Returned true s') ->
  exists task,
    peek (taskQueue s') = Some task
    /\ now s' < expirationTime (store s' task)
    /\ (hasTimeRemaining = false \/ shouldYieldToHost s' = true).
Proof.
  unfold workLoop. intros Hrun.
  set (s0 := set_currentTask _ (advanceTimers (now s) s)) in Hrun.
  assert (Hnow : now s = now s0).
  { unfold s0. change (now (set_currentTask ?x ?s1)) with (now s1).
    by destruct (advanceTimers_keeps (now s) s) as (_ & -> & _). }
  rewrite Hnow in Hrun.
  apply workLoop_while_yield in Hrun as (task & Hpeek & _ & Hdead); [|done].
  exists task. split; [done|]. unfold reachedDeadline in Hdead.
  apply andb_true_iff in Hdead as [H1 H2]. split; [lia|].
  apply orb_true_iff in H2 as [H2|H2]; [left; by destruct hasTimeRemaining|by right].
Qed.

Lemma workLoop_yields_at_deadline_witness :
  exists s', workLoop 5 false (now example_one_task) example_one_task
             = Some (Returned true s')
    /\ exists task, peek (taskQueue s') = Some task
         /\ now s' < expirationTime (store s' task).
Proof.
  destruct (workLoop 5 false (now example_one_task) example_one_task)
    as [[[|] s'|s']|] eqn:Hrun.
  - exists s'. split; [reflexivity|].
    destruct (workLoop_yields_at_deadline _ _ _ _ Hrun) as (task & H1 & H2 & _).
    exists task. split; [exact H1|exact H2].
  - vm_compute in Hrun. discriminate Hrun.
  - vm_compute in Hrun. discriminate Hrun.
  - vm_compute in Hrun. discriminate Hrun.
Defined.

(** X13: called with [hasTimeRemaining = false], [workLoop] calls only
    callbacks of tasks that have expired: every call it makes has
    [didTimeout = true]. *)
Theorem no_time_remaining_only_expired fuel initialTime s o :
  workLoop fuel false initialTime s = Some o ->
  exists added, log (outcome_state o) = added ++ log s
    /\ forall x task didTimeout,
         x ∈ added -> x.1 = EvCallback task didTimeout -> didTimeout = true.
Proof.
  unfold workLoop. intros Hrun.
  destruct (workLoop_while_log _ _ _ _ _ Hrun) as (added & Hlog & Hadded).
  exists added. split; [|by apply Hadded].
  rewrite Hlog. change (log (set_currentTask ?x ?s1)) with (log s1).
  by rewrite advanceTimers_log.
Qed.

Lemma no_time_remaining_only_expired_witness :
  exists o, workLoop 5 false 10000 example_one_task = Some o
    /\ trace (outcome_state o) = trace example_one_task ++ [EvCallback 0%nat true]
    /\ exists added, log (outcome_state o) = added ++ log example_one_task
         /\ forall x task didTimeout,
              x ∈ added -> x.1 = EvCallback task didTimeout -> didTimeout = true.
Proof.
  destruct (workLoop 5 false 10000 example_one_task) as [o|] eqn:Hrun.
  - exists o. split; [reflexivity|]. split.
    + vm_compute in Hrun. injection Hrun as <-. vm_compute. reflexivity.
    + exact (no_time_remaining_only_expired _ _ _ _ Hrun).
  - vm_compute in Hrun. discriminate Hrun.
Defined.

(** X14: at the start of a frame ([startTime] of the frame is the current
    time, as [performWorkUntilDeadline] sets it) and with a frame interval
    greater than 0, [workLoop] with time remaining does not yield before
    it has called the callback of the task at the head of the ready queue:
    that call is the first thing it logs. *)
Theorem first_task_runs fuel s task f o :
  0 < frameInterval s -> frameStartTime s = now s ->
  peek (taskQueue (advanceTimers (now s) s)) = Some task ->
  callback (store s task) = CFunction f ->
  workLoop (S fuel) true (now s) s = Some o ->
  exists later,
    trace (outcome_state o)
    = trace s ++ EvCallback task (expirationTime (store s task) <=? now s) :: later.
Proof. apply workLoop_first. Qed.

Lemma first_task_runs_witness :
  exists o, workLoop 5 true (now example_frame) example_frame = Some o
    /\ exists later,
         trace (outcome_state o)
         = trace example_frame
           ++ EvCallback 0%nat (expirationTime (store example_frame 0%nat)
                                <=? now example_frame) :: later.
Proof.
  destruct (workLoop 5 true (now example_frame) example_frame) as [o|] eqn:Hrun.
  - exists o. split; [reflexivity|].
    apply (first_task_runs 4 example_frame 0%nat example_callback o).
    + vm_compute. reflexivity.
    + vm_compute. reflexivity.
    + vm_compute. reflexivity.
    + vm_compute. reflexivity.
    + exact Hrun.
  - vm_compute in Hrun. discriminate Hrun.
Defined.

(** X15: whatever user code does through the API, it removes no task from
    a queue, assigns neither [currentTask] nor [isPerformingWork], creates
    records but changes none that exists other than by setting its
    [callback] to [null], does not turn the clock back, and logs no call
    of a callback. *)
Theorem user_code_frame p s :
  api_frame s (run p s).2 /\ grows_quietly s (run p s).2.
Proof. split; [apply run_api_frame|apply run_grows_quietly]. Qed.

(** X16: on an array with the heap property, two calls of [pop] in a row
    return entries in order: the second is not before the first. *)
Theorem pops_ascending sigma heap a b :
  heap_ordered sigma heap ->
  (pop sigma heap).1 = Some a ->
  (pop sigma (pop sigma heap).2).1 = Some b ->
  ~ before sigma b a.
Proof. apply pop_pop. Qed.

Lemma pops_ascending_witness :
  (pop example_store example_heap).1 = Some 1%nat
  /\ (pop example_store (pop example_store example_heap).2).1 = Some 0%nat
  /\ ~ before example_store 0%nat 1%nat.
Proof.
  assert (H1 : (pop example_store example_heap).1 = Some 1%nat) by (vm_compute; reflexivity).
  assert (H2 : (pop example_store (pop example_store example_heap).2).1 = Some 0%nat)
    by (vm_compute; reflexivity).
  split; [exact H1|]. split; [exact H2|].
  exact (pops_ascending example_store example_heap 1%nat 0%nat
           ApiSpec.example_heap_ordered H1 H2).
Defined.

(** X17: on an array with the heap property, [peek] after [push(heap, t)]
    returns [t] if the array was empty or [t] is before its root, and else
    the old root; [pop] then returns the same entry, and the array is one
    longer than before. *)
Theorem push_then_peek sigma heap t :
  heap_ordered sigma heap ->
  peek (push sigma heap t)
  = Some (match peek heap with
          | None => t
          | Some m => if 0 <? compare sigma m t then t else m
          end)
  /\ (pop sigma (push sigma heap t)).1 = peek (push sigma heap t)
  /\ length (push sigma heap t) = S (length heap).
Proof.
  intros Hord. split; [by apply push_root|]. split; [apply pop_fst|].
  by rewrite (Permutation_length (push_perm sigma heap t)).
Qed.

Lemma push_then_peek_witness :
  peek (push example_store example_heap 2%nat) = Some 1%nat
  /\ length (push example_store example_heap 2%nat) = 4%nat.
Proof.
  destruct (push_then_peek example_store example_heap 2%nat ApiSpec.example_heap_ordered)
    as (H1 & _ & H3).
  split; [rewrite H1; vm_compute; reflexivity|exact H3].
Defined.

(** X18: the function that [unstable_wrapCallback(callback)] returns runs
    [callback] at the priority level that was current when it was wrapped
    and restores the level of its caller; when that level is one of the
    five, it is [unstable_runWithPriority] at that level.
    [unstable_next(eventHandler)] runs the handler at Normal when the
    current level is Immediate, UserBlocking or Normal, and at the current
    level otherwise, so never at Immediate or UserBlocking, and restores
    the level; when the current level is one of the five, it is
    [unstable_runWithPriority] at that level. *)
Theorem priority_wrappers :
  (forall fn s0 s,
     unstable_wrapCallback fn s0 s
     = ((fn (set_currentPriorityLevel (currentPriorityLevel s0) s)).1,
        set_currentPriorityLevel (currentPriorityLevel s)
          (fn (set_currentPriorityLevel (currentPriorityLevel s0) s)).2))
  /\ (forall fn s0 s,
        known_priority (currentPriorityLevel s0) = currentPriorityLevel s0 ->
        unstable_wrapCallback fn s0 s
        = unstable_runWithPriority (currentPriorityLevel s0) fn s)
  /\ (forall fn s,
        let level := match currentPriorityLevel s with
                     | ImmediatePriority | UserBlockingPriority | NormalPriority =>
                         NormalPriority
                     | l => l
                     end in
        unstable_next fn s
        = ((fn (set_currentPriorityLevel level s)).1,
           set_currentPriorityLevel (currentPriorityLevel s)
             (fn (set_currentPriorityLevel level s)).2)
        /\ level <> ImmediatePriority /\ level <> UserBlockingPriority
        /\ (known_priority (currentPriorityLevel s) = currentPriorityLevel s ->
            unstable_next fn s = unstable_runWithPriority level fn s)).
Proof.
  split; [|split].
  - intros fn s0 s. unfold unstable_wrapCallback, try_finally_restore.
    by destruct (fn _).
  - intros fn s0 s Hknown.
    unfold unstable_wrapCallback, unstable_runWithPriority, try_finally_restore.
    by destruct (currentPriorityLevel s0).
  - intros fn s. cbv zeta. split; [|split; [|split]].
    + unfold unstable_next, try_finally_restore.
      destruct (currentPriorityLevel s); by destruct (fn _).
    + by destruct (currentPriorityLevel s).
    + by destruct (currentPriorityLevel s).
    + intros Hknown. unfold unstable_next, unstable_runWithPriority.
      by destruct (currentPriorityLevel s).
Qed.

(** X19: in this build, where [enableIsInputPending] is [false],
    [shouldYieldToHost()] depends on the time only: it returns [true]
    exactly when [frameInterval] or more has passed since the start of the
    frame, whatever [needsPaint] and the pending input are; once it
    returns [true] it does so for the rest of the frame; and
    [requestPaint()] changes nothing. *)
Theorem yield_by_time_only :
  (forall s, requestPaint s = s)
  /\ (forall s, shouldYieldToHost s = (frameInterval s <=? now s - frameStartTime s))
  /\ (forall s ms, shouldYieldToHost s = true ->
        shouldYieldToHost (set_now (now s + Z.of_nat ms) s) = true)
  /\ (forall s v, shouldYieldToHost (set_needsPaint v s) = shouldYieldToHost s)
  /\ (forall s v, shouldYieldToHost (set_inputPending v s) = shouldYieldToHost s).
Proof.
  assert (H : forall s, shouldYieldToHost s = (frameInterval s <=? now s - frameStartTime s)).
  { intros s. unfold shouldYieldToHost, getCurrentTime, enableIsInputPending.
    destruct (now s - frameStartTime s <? frameInterval s) eqn:E; simpl; symmetry;
      [apply Z.leb_gt|apply Z.leb_le]; lia. }
  split; [done|]. split; [exact H|]. split; [|split].
  - intros s ms. rewrite !H. simpl. intros Hy. apply Z.leb_le in Hy. apply Z.leb_le. lia.
  - intros s v. by rewrite !H.
  - intros s v. by rewrite !H.
Qed.

(** X20: in every state the scheduler reaches with a task in the ready
    queue, a message to a scheduler whose first ready task has expired
    calls the callback of that task. When the task that is first in the
    ready queue once the timers have been advanced has a function as its
    callback and an [expirationTime] that is at most the time
    [performWorkUntilDeadline] reads, the loop does not test the deadline
    for it: the callback is called with [didTimeout = true], in the state
    [s1] that [flushWork] and [workLoop] have prepared, and nothing is
    logged before the call but the cancellation of the host timer when the
    latch is set. If the callback throws, the host task ends there, with
    the variables of [flushWork] restored and the next message posted; if
    it returns and the host task ends, the history of the end state
    extends the one the callback left. The clock is read once, by
    [performWorkUntilDeadline], before the call. *)
Theorem message_runs_expired_task time fuel0 es s task f :
  host_run fuel0 es (initial time) = Some s ->
  taskQueue s <> [] ->
  peek (taskQueue (advanceTimers (now s) s)) = Some task ->
  callback (store s task) = CFunction f ->
  expirationTime (store s task) <= now s ->
  let s0 := set_isHostCallbackScheduled false
              (set_frameStartTime (now s) (set_messages 0 s)) in
  let s0 := if isHostTimeoutScheduled s
            then cancelHostTimeout (set_isHostTimeoutScheduled false s0)
            else s0 in
  let s0 := set_isPerformingWork true s0 in
  let s1 := set_currentPriorityLevel (priorityLevel (store s task))
              (write_callback task CNull
                 (emit (EvCallback task true)
                    (set_currentTask (Some task) (advanceTimers (now s) s0)))) in
  messages s = 1%nat
  /\ trace s1 = trace s
                ++ (if isHostTimeoutScheduled s then [EvCancelHostTimeout] else [])
                ++ [EvCallback task true]
  /\ forall fuel,
       match run (f true) s1 with
       | (Abrupt, s2) =>
           host_step (S fuel) Message s
           = Some (schedulePerformWorkUntilDeadline
                     (flushWork_finally (currentPriorityLevel s) s2))
       | (Normal _, s2) =>
           forall s', host_step (S fuel) Message s = Some s' ->
             exists later, trace s' = trace s2 ++ later
       end.
Proof.
  intros Hrun Hne Hpeek Hcb Hexp.
  pose proof (reachable_Awake _ _ _ _ Hrun) as HA.
  destruct (awake_ready s HA Hne) as [_ Hloop].
  split; [by apply (awake_loop s HA)|].
  by apply message_expired.
Qed.

Lemma message_runs_expired_task_witness :
  expirationTime (store (reach 1 (take 1 example_immediate)) 0%nat)
  <= now (reach 1 (take 1 example_immediate))
  /\ exists s', host_step 5 Message (reach 1 (take 1 example_immediate)) = Some s'
       /\ exists later,
            trace s' = (trace (reach 1 (take 1 example_immediate))
                        ++ [EvCallback 0%nat true]) ++ later.
Proof.
  assert (Hrun : host_run 1 (take 1 example_immediate) (initial 0)
                 = Some (reach 1 (take 1 example_immediate))) by (vm_compute; reflexivity).
  assert (Hexp : expirationTime (store (reach 1 (take 1 example_immediate)) 0%nat)
                 <= now (reach 1 (take 1 example_immediate))) by (vm_compute; discriminate).
  split; [exact Hexp|].
  pose proof (message_runs_expired_task 0 1 (take 1 example_immediate) _ 0%nat
                example_callback Hrun) as H.
  cbv zeta in H.
  destruct H as (_ & _ & Hstep); [vm_compute; discriminate|vm_compute; reflexivity
                                 |vm_compute; reflexivity|exact Hexp|].
  specialize (Hstep 4%nat).
  destruct (host_step 5 Message (reach 1 (take 1 example_immediate))) as [s'|] eqn:Hs'.
  - exists s'. split; [reflexivity|].
    destruct (run (example_callback true) _) as [[v|] s2] eqn:Hrun2.
    + destruct (Hstep s' eq_refl) as (later & Hlater). exists later.
      rewrite Hlater. f_equal.
      apply (f_equal (fun x => trace x.2)) in Hrun2. cbn [snd] in Hrun2.
      rewrite <- Hrun2. vm_compute. reflexivity.
    + vm_compute in Hrun2. discriminate Hrun2.
  - vm_compute in Hs'. discriminate Hs'.
Defined.

(** X21: between two host events, when the latch [isHostTimeoutScheduled]
    is set, the host timer whose id is in [taskTimeoutID] is set: the
    calls of [cancelHostTimeout] in [unstable_scheduleCallback] and in
    [flushWork], which are made when the latch is set, cancel a timer that
    has not fired. After [handleTimeout] the latch is clear. *)
Theorem latch_means_timer_set time fuel es s :
  host_run fuel es (initial time) = Some s ->
  (isHostTimeoutScheduled s = true -> taskTimeoutID s ∈ (timeouts s).*1)
  /\ forall currentTime, isHostTimeoutScheduled (handleTimeout currentTime s) = false.
Proof.
  intros Hrun. split; [by apply (reachable_Latched _ _ _ _ Hrun)|].
  intros currentTime. apply handleTimeout_latch.
Qed.

Lemma latch_means_timer_set_witness :
  host_run 1 (take 1 example_rearm) (initial 0) = Some (reach 1 (take 1 example_rearm))
  /\ isHostTimeoutScheduled (reach 1 (take 1 example_rearm)) = true
  /\ taskTimeoutID (reach 1 (take 1 example_rearm))
     ∈ (timeouts (reach 1 (take 1 example_rearm))).*1.
Proof.
  assert (Hrun : host_run 1 (take 1 example_rearm) (initial 0)
                 = Some (reach 1 (take 1 example_rearm))) by (vm_compute; reflexivity).
  assert (Hlatch : isHostTimeoutScheduled (reach 1 (take 1 example_rearm)) = true)
    by (vm_compute; reflexivity).
  split; [exact Hrun|]. split; [exact Hlatch|].
  destruct (latch_means_timer_set 0 1 (take 1 example_rearm) _ Hrun) as [H _].
  exact (H Hlatch).
Defined.
